(** * storybook-api: the metadata extraction pipeline of [extract-metadata.js]

    A shallow embedding of the extractor (value normalizer, meta-object
    reader, story-id generation, action derivation, the four extraction
    strategies, the strategy selector and the command-line driver), followed
    by the properties stated about it.

    Conventions of the embedding.
    - A JavaScript string is a [string]: a sequence of code units below 256
      (the Latin-1 range), on which [toLowerCase] and the [\s] class are
      written out in full.
    - A JavaScript object used as a record of own properties is an
      association list in insertion order ([obj]); the order in which
      [Object.entries] lists integer-like keys first is not modelled, no
      property below depends on it.  The catalog's [stories] mapping, of
      which only lookups and the number of keys are observed, is a [gmap].
      An assignment [o[k] = v] to an object created by [{}] stores no own
      property when [k] is [__proto__]: that key is the accessor of
      [Object.prototype], and the assignment replaces the prototype of [o]
      (when [v] is an object or [null]) or does nothing ([assign],
      [setStory]).  Spreading and [JSON.parse] define own properties and do
      store such a key.  The prototype chain itself is not part of the
      model: a read finds own properties only.
      A story file that assigns to a member of the name [__proto__]
      ([__proto__.args = ...]) would change [Object.prototype] itself for
      the rest of the run, which is outside the model; [usesPrototype]
      tells the files that use that name.
    - Numeric literals are integers ([Z]).  Their string form is the decimal
      one, which is JavaScript's for magnitudes below 10^21; a property that
      depends on the string form of a number assumes that bound
      ([decimalKey], [decimalNumber]).
    - Code that can throw returns a [result]; the file system, the parser
      and its traversal, the network, the clock and the browser are fields
      of a [World].
    - Of the console output only the per-file warnings of the source-file
      strategy are kept; the counter [processedStories], which is only
      printed, is left out. *)

From Stdlib Require Import ZArith NArith Ascii String List Bool Lia.
From Stdlib Require Import Numbers.DecimalString.
From stdpp Require Import base option list strings gmap fin_maps.

Import ListNotations.
Set Warnings "-register-all".
Local Open Scope string_scope.
Local Open Scope list_scope.

(* ===================================================================== *)
(** ** JavaScript strings *)
(* ===================================================================== *)

Module JsString.

Definition code (c : ascii) : N := N_of_ascii c.

(** [A-Z], and the Latin-1 capitals U+00C0..U+00DE except U+00D7. *)
Definition isUpper (c : ascii) : bool :=
  let n := code c in
  ((65 <=? n) && (n <=? 90) ||
   (192 <=? n) && (n <=? 222) && negb (n =? 215))%N.

Definition toLowerChar (c : ascii) : ascii :=
  if isUpper c then ascii_of_N (code c + 32) else c.

(** [String.prototype.toLowerCase]. *)
Fixpoint toLowerCase (s : string) : string :=
  match s with
  | EmptyString => EmptyString
  | String c s' => String (toLowerChar c) (toLowerCase s')
  end.

(** The regular-expression class [\s]: TAB, LF, VT, FF, CR, SPACE, NBSP. *)
Definition isWhiteSpace (c : ascii) : bool :=
  let n := code c in
  ((9 <=? n) && (n <=? 13) || (n =? 32) || (n =? 160))%N.

(** [s.replace(/\s+/g, '-')]: every maximal run of white space becomes one
    hyphen.  [inRun] tells that the previous code unit was white space. *)
Fixpoint replaceWhiteSpaceFrom (inRun : bool) (s : string) : string :=
  match s with
  | EmptyString => EmptyString
  | String c s' =>
      if isWhiteSpace c
      then (if inRun then replaceWhiteSpaceFrom true s'
            else String "-" (replaceWhiteSpaceFrom true s'))
      else String c (replaceWhiteSpaceFrom false s')
  end.

Definition replaceWhiteSpace : string -> string := replaceWhiteSpaceFrom false.

(** [s.replace(/\//g, '-')]. *)
Fixpoint replaceSlashes (s : string) : string :=
  match s with
  | EmptyString => EmptyString
  | String c s' =>
      String (if Ascii.eqb c "/" then "-"%char else c) (replaceSlashes s')
  end.

Definition isLowerAlnum (c : ascii) : bool :=
  let n := code c in
  ((97 <=? n) && (n <=? 122) || (48 <=? n) && (n <=? 57))%N.

(** The class [[a-z0-9-]]. *)
Definition isSlugChar (c : ascii) : bool :=
  isLowerAlnum c || Ascii.eqb c "-".

(** [s.replace(/[^a-z0-9-]/g, '')]. *)
Fixpoint stripNonSlug (s : string) : string :=
  match s with
  | EmptyString => EmptyString
  | String c s' =>
      if isSlugChar c then String c (stripNonSlug s') else stripNonSlug s'
  end.

(** [s.startsWith(p)]. *)
Definition startsWith (p s : string) : bool := String.prefix p s.

Fixpoint forallb (P : ascii -> bool) (s : string) : bool :=
  match s with
  | EmptyString => true
  | String c s' => P c && forallb P s'
  end.

(** [s.includes(p)]. *)
Fixpoint includes (p s : string) : bool :=
  String.prefix p s ||
  match s with
  | EmptyString => false
  | String _ s' => includes p s'
  end.

(** The text before the first [sep]. *)
Fixpoint upTo (sep : ascii) (s : string) : string :=
  match s with
  | EmptyString => EmptyString
  | String c s' => if Ascii.eqb c sep then EmptyString else String c (upTo sep s')
  end.

(** The text after the first [sep], when there is one. *)
Fixpoint after (sep : ascii) (s : string) : option string :=
  match s with
  | EmptyString => None
  | String c s' => if Ascii.eqb c sep then Some s' else after sep s'
  end.

(** [s.split(sep)[1]]; [None] is [undefined]. *)
Definition splitSecond (sep : ascii) (s : string) : option string :=
  upTo sep <$> after sep s.

(** JavaScript truthiness of a string. *)
Definition nonEmpty (s : string) : bool :=
  match s with EmptyString => false | _ => true end.

End JsString.

(* ===================================================================== *)
(** ** JavaScript values *)
(* ===================================================================== *)

(** The plain data the extractor produces and reads back from JSON. *)
Inductive value : Type :=
| VNull
| VBool (b : bool)
| VNum (n : Z)
| VStr (s : string)
| VArr (elements : list value)
| VObj (entries : list (string * value)).

Abbreviation obj := (list (string * value)).

Definition string_eqb (a b : string) : bool := String.eqb a b.

(** [o[k]] on own properties; [None] is [undefined]. *)
Fixpoint obj_get {A : Type} (o : list (string * A)) (k : string) : option A :=
  match o with
  | [] => None
  | (k', v) :: o' => if string_eqb k' k then Some v else obj_get o' k
  end.

(** The own property [k] of [o] is defined as [v]: an existing key keeps its
    place, a new key goes last. *)
Fixpoint obj_set {A : Type} (o : list (string * A)) (k : string) (v : A)
  : list (string * A) :=
  match o with
  | [] => [(k, v)]
  | (k', v') :: o' =>
      if string_eqb k' k then (k', v) :: o' else (k', v') :: obj_set o' k v
  end.

(** [o[k] = v] on an object created by [{}].  The key [__proto__] is the
    accessor inherited from [Object.prototype]: the assignment stores no
    own property under it. *)
Definition assign {A : Type} (o : list (string * A)) (k : string) (v : A)
  : list (string * A) :=
  if string_eqb k "__proto__" then o else obj_set o k v.

Arguments assign : simpl never.

(** [Object.keys(o)]. *)
Definition obj_keys {A : Type} (o : list (string * A)) : list string :=
  map fst o.

(** [x.k] for a value [x] that may be [undefined]/[null] and is read with
    [?.]: anything but an object has no own property of interest. *)
Definition field (x : option value) (k : string) : option value :=
  match x with
  | Some (VObj o) => obj_get o k
  | _ => None
  end.

(** ToBoolean. *)
Definition truthy (v : value) : bool :=
  match v with
  | VNull => false
  | VBool b => b
  | VNum n => negb (n =? 0)%Z
  | VStr s => JsString.nonEmpty s
  | VArr _ => true
  | VObj _ => true
  end.

Definition truthy_opt (x : option value) : bool :=
  match x with Some v => truthy v | None => false end.

(** [a || b] where [a] may be [undefined]. *)
Definition or_else (a : option value) (b : value) : value :=
  match a with
  | Some v => if truthy v then v else b
  | None => b
  end.

Definition Z_to_string (n : Z) : string :=
  NilZero.string_of_int (Z.to_int n).

(** ToString, as applied by a template literal. *)
Fixpoint jsToString (v : value) : string :=
  match v with
  | VNull => "null"
  | VBool true => "true"
  | VBool false => "false"
  | VNum n => Z_to_string n
  | VStr s => s
  | VArr l =>
      String.concat ","
        (map (fun e => match e with VNull => "" | _ => jsToString e end) l)
  | VObj _ => "[object Object]"
  end.

(* ===================================================================== *)
(** ** Story ids *)
(* ===================================================================== *)

(** [generateStoryId(title, name)]. *)
Definition generateStoryId (title name : value) : string :=
  JsString.stripNonSlug
    (JsString.replaceSlashes
       (JsString.replaceWhiteSpace
          (JsString.toLowerCase (jsToString title ++ "--" ++ jsToString name)))).


(* ===================================================================== *)
(** ** Syntax trees *)
(* ===================================================================== *)

(** A member of an object literal.  Only an [ObjectProperty] has a [value];
    a [SpreadElement] has no [key]. *)
Inductive property_of (N : Type) : Type :=
| ObjectProperty (key val : N)
| ObjectMethod (key : N)
| SpreadElement (argument : N).

Arguments ObjectProperty {N} key val.
Arguments ObjectMethod {N} key.
Arguments SpreadElement {N} argument.

(** The parser's expression nodes, with the children the extractor reads.
    [OtherNode ty] stands for every node kind the extractor never looks
    into (call, template literal, unary and binary expressions, patterns,
    class and function declarations, ...); [ty] is its [type] tag.  An array
    hole is [None]. *)
Inductive node : Type :=
| StringLiteral (val : string)
| NumericLiteral (val : Z)
| BooleanLiteral (val : bool)
| NullLiteral
| BigIntLiteral (val : string)
| ObjectExpression (properties : list (property_of node))
| ArrayExpression (elements : list (option node))
| ArrowFunctionExpression
| FunctionExpression
| JSXElement
| JSXFragment
| Identifier (name : string)
| TSAsExpression (expression : node)
| MemberExpression (object property : node)
| OtherNode (ty : string).

Abbreviation property := (property_of node).

(** [node.type]. *)
Definition node_type (n : node) : string :=
  match n with
  | StringLiteral _ => "StringLiteral"
  | NumericLiteral _ => "NumericLiteral"
  | BooleanLiteral _ => "BooleanLiteral"
  | NullLiteral => "NullLiteral"
  | BigIntLiteral _ => "BigIntLiteral"
  | ObjectExpression _ => "ObjectExpression"
  | ArrayExpression _ => "ArrayExpression"
  | ArrowFunctionExpression => "ArrowFunctionExpression"
  | FunctionExpression => "FunctionExpression"
  | JSXElement => "JSXElement"
  | JSXFragment => "JSXFragment"
  | Identifier _ => "Identifier"
  | TSAsExpression _ => "TSAsExpression"
  | MemberExpression _ _ => "MemberExpression"
  | OtherNode ty => ty
  end.

(** [node.name]: only identifiers have one. *)
Definition node_name (n : node) : option string :=
  match n with
  | Identifier x => Some x
  | _ => None
  end.

(** [node.value]: only literals have one. *)
Definition node_value (n : node) : option value :=
  match n with
  | StringLiteral s => Some (VStr s)
  | NumericLiteral z => Some (VNum z)
  | BooleanLiteral b => Some (VBool b)
  | BigIntLiteral s => Some (VStr s)
  | _ => None
  end.

Definition prop_key (p : property) : option node :=
  match p with
  | ObjectProperty k _ => Some k
  | ObjectMethod k => Some k
  | SpreadElement _ => None
  end.

Definition prop_value (p : property) : option node :=
  match p with
  | ObjectProperty _ v => Some v
  | _ => None
  end.

(** [prop.key?.name]. *)
Definition prop_key_name (p : property) : option string :=
  match prop_key p with
  | Some k => node_name k
  | None => None
  end.

(* ===================================================================== *)
(** ** The value normalizer *)
(* ===================================================================== *)

(** [prop.key.name || prop.key.value], and [None] when that is falsy.  A
    non-string key is turned into a string by the property assignment. *)
Definition propertyKey (k : node) : option string :=
  let byValue :=
    match node_value k with
    | Some v => if truthy v then Some (jsToString v) else None
    | None => None
    end in
  match node_name k with
  | Some x => if JsString.nonEmpty x then Some x else byValue
  | None => byValue
  end.

Definition is_null (v : value) : bool :=
  match v with VNull => true | _ => false end.

(** [extractValue(node)].  The [ObjectExpression] case is the loop of
    [extractObjectLiteral] over the node's own properties. *)
Fixpoint extractValue (n : node) : value :=
  match n with
  | StringLiteral s => VStr s
  | NumericLiteral z => VNum z
  | BooleanLiteral b => VBool b
  | NullLiteral => VNull
  | ObjectExpression props =>
      VObj (fold_left
              (fun result prop =>
                 match prop with
                 | ObjectProperty k v =>
                     match propertyKey k with
                     | Some key => assign result key (extractValue v)
                     | None => result
                     end
                 | _ => result
                 end) props [])
  | ArrayExpression els =>
      VArr (List.filter (fun v => negb (is_null v))
              (map (fun el => match el with
                              | Some e => extractValue e
                              | None => VNull
                              end) els))
  | ArrowFunctionExpression | FunctionExpression => VStr "[Function]"
  | JSXElement | JSXFragment => VStr "[JSX Element]"
  | Identifier x => VStr x
  | TSAsExpression e => extractValue e
  | _ => VNull
  end.

(** [extractValue] on an element that may be a hole ([if (!node) return
    null]). *)
Definition extractElement (el : option node) : value :=
  match el with
  | Some e => extractValue e
  | None => VNull
  end.

(** One turn of the [forEach] in [extractObjectLiteral]. *)
Definition extractProperty (result : obj) (prop : property) : obj :=
  match prop_key prop with
  | None => result
  | Some k =>
      match propertyKey k with
      | None => result
      | Some key =>
          match prop_value prop with
          | Some v => assign result key (extractValue v)
          | None => result
          end
      end
  end.

(** [extractObjectLiteral(node)]; every call site passes a present node. *)
Fixpoint extractObjectLiteral (n : node) : obj :=
  match n with
  | TSAsExpression e => extractObjectLiteral e
  | ObjectExpression props => fold_left extractProperty props []
  | _ => []
  end.

(* ===================================================================== *)
(** ** Exceptions *)
(* ===================================================================== *)

(** A thrown JavaScript error, with its [message]. *)
Inductive exn : Type :=
| TypeError (message : string)
| Error (message : string).

Definition exn_message (e : exn) : string :=
  match e with TypeError m => m | Error m => m end.

Inductive result (A : Type) : Type :=
| Ok (a : A)
| Throw (e : exn).

Arguments Ok {A} a.
Arguments Throw {A} e.

#[global] Instance result_ret : MRet result := fun _ a => Ok a.
#[global] Instance result_bind : MBind result := fun _ _ f c =>
  match c with
  | Ok a => f a
  | Throw e => Throw e
  end.

(** A [forEach] whose body may throw: the first throw ends the loop. *)
Fixpoint foldlM {A B : Type} (f : A -> B -> result A) (l : list B) (a : A)
  : result A :=
  match l with
  | [] => Ok a
  | b :: l' => a' ← f a b; foldlM f l' a'
  end.

(** [x.k] for a value [x] read without [?.]: [null] throws. *)
Definition get (x : value) (k : string) : result (option value) :=
  match x with
  | VNull => Throw (TypeError ("Cannot read properties of null (reading '" ++ k ++ "')"))
  | VObj o => Ok (obj_get o k)
  | _ => Ok None
  end.

(* ===================================================================== *)
(** ** The meta object of a story file *)
(* ===================================================================== *)

Module Meta.
(** [tags] is [None] for the placeholder of [extractFromSourceFiles],
    which has no such property. *)
Record t : Type := mk {
  title : value;
  component : value;
  argTypes : obj;
  parameters : obj;
  tags : option (list value);
}.

(** The placeholder [metaExport] starts from. *)
Definition placeholder : t := mk (VStr "") VNull [] [] None.

(** The [meta] that [extractMetaObject] starts from. *)
Definition initial : t := mk (VStr "") VNull [] [] (Some []).
End Meta.

(** [elements.map(el => el.value)]: a hole has no properties to read. *)
Fixpoint elementValues (els : list (option node)) : result (list (option value)) :=
  match els with
  | [] => Ok []
  | None :: _ =>
      Throw (TypeError "Cannot read properties of null (reading 'value')")
  | Some e :: els' => vs ← elementValues els'; Ok (node_value e :: vs)
  end.

(** [.filter(Boolean)]. *)
Fixpoint filterBoolean (vs : list (option value)) : list value :=
  match vs with
  | [] => []
  | Some v :: vs' => if truthy v then v :: filterBoolean vs' else filterBoolean vs'
  | None :: vs' => filterBoolean vs'
  end.

Definition named (prop : property) (k : string) : bool :=
  match prop_key_name prop with
  | Some x => string_eqb x k
  | None => false
  end.

(** [prop.value?.value]. *)
Definition prop_literal (prop : property) : option value :=
  match prop_value prop with
  | Some v => node_value v
  | None => None
  end.

(** [prop.value] when [prop.value?.type === 'ObjectExpression']. *)
Definition objectValue (prop : property) : option node :=
  match prop_value prop with
  | Some (ObjectExpression ps) => Some (ObjectExpression ps)
  | _ => None
  end.

(** [prop.value.elements] when [prop.value?.type === 'ArrayExpression']. *)
Definition arrayElements (prop : property) : option (list (option node)) :=
  match prop_value prop with
  | Some (ArrayExpression els) => Some els
  | _ => None
  end.

(** [prop.value?.name || null]. *)
Definition valueName (prop : property) : value :=
  match prop_value prop with
  | Some (Identifier x) => if JsString.nonEmpty x then VStr x else VNull
  | _ => VNull
  end.

(** One turn of the [forEach] in [extractMetaObject]. *)
Definition metaProperty (meta : Meta.t) (prop : property) : result Meta.t :=
  let '(Meta.mk title component argTypes parameters tags) := meta in
  if named prop "title" && truthy_opt (prop_literal prop) then
    Ok (Meta.mk (default (VStr "") (prop_literal prop))
                component argTypes parameters tags)
  else
    match (if named prop "argTypes" then objectValue prop else None) with
    | Some o =>
        Ok (Meta.mk title component (extractObjectLiteral o) parameters tags)
    | None =>
    match (if named prop "parameters" then objectValue prop else None) with
    | Some o =>
        Ok (Meta.mk title component argTypes (extractObjectLiteral o) tags)
    | None =>
    match (if named prop "tags" then arrayElements prop else None) with
    | Some els =>
        vs ← elementValues els;
        Ok (Meta.mk title component argTypes parameters
              (Some (filterBoolean vs)))
    | None =>
    if named prop "component" then
      Ok (Meta.mk title (valueName prop) argTypes parameters tags)
    else Ok meta
    end end end.

(** [extractMetaObject(node)]. *)
Fixpoint extractMetaObject (n : node) : result Meta.t :=
  match n with
  | ObjectExpression props => foldlM metaProperty props Meta.initial
  | TSAsExpression e => extractMetaObject e
  | _ => Ok Meta.initial
  end.

(* ===================================================================== *)
(** ** Walking one file *)
(* ===================================================================== *)

(** The declaration of a named export.  A variable declaration is given by
    the [id]s of its declarators. *)
Inductive declaration : Type :=
| VariableDeclaration (declarations : list node)
| FunctionDeclaration (id : option node)
| OtherDeclaration (ty : string).

(** The nodes on which [traverse] calls one of the three visitors.  A parsed
    file is the list of these nodes in the order of the traversal. *)
Inductive visit : Type :=
| ExportDefaultDeclaration (decl : node)
| ExportNamedDeclaration (decl : option declaration)
| AssignmentExpression (left right : node).

Module StoryData.
Record t : Type := mk {
  name : string;
  args : obj;
  storyName : value;
}.
End StoryData.

Abbreviation storyTable := (list (string * StoryData.t)).

(** [stories[storyName] = { name, args: {}, storyName }] when the name is
    truthy. *)
Definition declareStory (stories : storyTable) (id : option node) : storyTable :=
  match id with
  | Some (Identifier x) =>
      if JsString.nonEmpty x
      then assign stories x (StoryData.mk x [] (VStr x))
      else stories
  | _ => stories
  end.

(** The left-hand side [<name>.<prop>] with a truthy [<name>]. *)
Definition memberOf (left : node) (prop : string) : option string :=
  match left with
  | MemberExpression object property =>
      match node_name property, node_name object with
      | Some p, Some x =>
          if string_eqb p prop && JsString.nonEmpty x then Some x else None
      | _, _ => None
      end
  | _ => None
  end.

(** [stories[storyName].args = args] when [stories[storyName]] is there. *)
Definition assignArgs (stories : storyTable) (left right : node) : storyTable :=
  match memberOf left "args" with
  | Some storyName =>
      let args := extractObjectLiteral right in
      match obj_get stories storyName with
      | Some sd =>
          obj_set stories storyName
            (StoryData.mk (StoryData.name sd) args (StoryData.storyName sd))
      | None => stories
      end
  | None => stories
  end.

(** [stories[storyName].storyName = displayName] when both are truthy. *)
Definition assignStoryName (stories : storyTable) (left right : node) : storyTable :=
  match memberOf left "storyName" with
  | Some storyName =>
      match obj_get stories storyName, node_value right with
      | Some sd, Some displayName =>
          if truthy displayName
          then obj_set stories storyName
                 (StoryData.mk (StoryData.name sd) (StoryData.args sd) displayName)
          else stories
      | _, _ => stories
      end
  | None => stories
  end.

(** The three visitors, on the pair [(metaExport, stories)]. *)
Definition visitNode (st : Meta.t * storyTable) (v : visit)
  : result (Meta.t * storyTable) :=
  let '(metaExport, stories) := st in
  match v with
  | ExportDefaultDeclaration d =>
      m ← extractMetaObject d; Ok (m, stories)
  | ExportNamedDeclaration (Some (VariableDeclaration ids)) =>
      Ok (metaExport,
          fold_left (fun s id => declareStory s (Some id)) ids stories)
  | ExportNamedDeclaration (Some (FunctionDeclaration id)) =>
      Ok (metaExport, declareStory stories id)
  | ExportNamedDeclaration _ => Ok (metaExport, stories)
  | AssignmentExpression lhs rhs =>
      Ok (metaExport,
          assignStoryName (assignArgs stories lhs rhs) lhs rhs)
  end.

(** [traverse(ast, { ... })]. *)
Definition traverse (visits : list visit) : result (Meta.t * storyTable) :=
  foldlM visitNode visits (Meta.placeholder, []).

(* ===================================================================== *)
(** ** Story records and the catalog *)
(* ===================================================================== *)

Module StoryRecord.
(** The fields are those of the object literals of the source; [kind] and
    [story] repeat [title] and [name]. *)
Record t : Type := mk {
  id : value;
  title : value;
  name : value;
  kind : value;
  story : value;
  importPath : value;
  type : value;
  tags : value;
  args : value;
  initialArgs : value;
  argTypes : value;
  parameters : value;
  actions : value;
  docs : value;
  source : value;
  component : value;
}.
End StoryRecord.

Module Catalog.
Record t : Type := mk {
  version : string;
  generatedAt : string;
  extractedFrom : string;
  totalStories : nat;
  stories : gmap string StoryRecord.t;
}.

(** [metadata.stories = s]. *)
Definition withStories (c : t) (s : gmap string StoryRecord.t) : t :=
  mk (version c) (generatedAt c) (extractedFrom c) (totalStories c) s.

(** [metadata.totalStories = Object.keys(metadata.stories).length]. *)
Definition recount (c : t) : t :=
  mk (version c) (generatedAt c) (extractedFrom c) (size (stories c)) (stories c).
End Catalog.

(** [metadata.stories[storyId] = r]: the mapping is an object created by
    [{}], so nothing is stored under [__proto__]. *)
Definition setStory (storyId : string) (r : StoryRecord.t)
    (stories : gmap string StoryRecord.t) : gmap string StoryRecord.t :=
  if string_eqb storyId "__proto__" then stories else <[storyId := r]> stories.

Arguments setStory : simpl never.

(** [createMetadataStructure(source)]; [now] is the clock's reading. *)
Definition createMetadataStructure (now : string) (source : string) : Catalog.t :=
  Catalog.mk "1.0.0" now source 0 ∅.

(** [Object.entries(x)] for a plain value: the own enumerable properties of
    an object, the indexed elements of an array, the indexed code units of a
    string, nothing for a number or a boolean. *)
Fixpoint indexed {A : Type} (i : nat) (l : list A) : list (string * A) :=
  match l with
  | [] => []
  | a :: l' => (Z_to_string (Z.of_nat i), a) :: indexed (S i) l'
  end.

Definition objectEntries (x : value) : list (string * value) :=
  match x with
  | VObj o => o
  | VArr l => indexed 0 l
  | VStr s =>
      indexed 0 (map (fun c => VStr (String c EmptyString)) (list_ascii_of_string s))
  | _ => []
  end.

(** [{ name, description, action }]. *)
Definition actionRecord (name description action : value) : value :=
  VObj [("name", name); ("description", description); ("action", action)].

(** [typeof x === 'string' ? x : key]. *)
Definition stringOr (x : option value) (key : string) : value :=
  match x with
  | Some (VStr s) => VStr s
  | _ => VStr key
  end.

Definition is_function_marker (v : value) : bool :=
  match v with
  | VStr s => string_eqb s "[Function]"
  | _ => false
  end.

Definition is_events (x : option value) : bool :=
  match x with
  | Some (VStr s) => string_eqb s "events"
  | _ => false
  end.

(** The first loop of [extractActionsFromArgs]. *)
Definition actionFromArg (argTypes : obj) (actions : obj) (kv : string * value)
  : obj :=
  let '(key, v) := kv in
  if JsString.startsWith "on" key || is_function_marker v
  then assign actions key
         (actionRecord (VStr key)
            (or_else (field (obj_get argTypes key) "description") (VStr ""))
            (VStr key))
  else actions.

(** The second loop: [config.action] is read without [?.]. *)
Definition actionFromArgType (actions : obj) (kv : string * value) : result obj :=
  let '(key, config) := kv in
  action ← get config "action";
  if truthy_opt action || is_events (field (field (Some config) "table") "category")
  then Ok (assign actions key
             (actionRecord (VStr key)
                (or_else (field (Some config) "description") (VStr ""))
                (stringOr action key)))
  else Ok actions.

(** [extractActionsFromArgs(args, argTypes)]. *)
Definition extractActionsFromArgs (args argTypes : obj) : result obj :=
  foldlM actionFromArgType argTypes
    (fold_left (actionFromArg argTypes) args []).

(** [a?.b?.c] along a path of property names. *)
Definition path (x : option value) (ks : list string) : option value :=
  fold_left field ks x.

(** [a || b || c] on possibly undefined operands. *)
Definition first_truthy (a b : option value) (c : value) : value :=
  match a with
  | Some v => if truthy v then v else or_else b c
  | None => or_else b c
  end.

(** The record built for one entry of [stories] in [extractFromSourceFiles]. *)
Definition buildStoryRecord (metaExport : Meta.t) (relativePath code : string)
    (storyKey : string) (storyData : StoryData.t) : result (string * StoryRecord.t) :=
  let storyId := generateStoryId (Meta.title metaExport) (VStr storyKey) in
  let params := Some (VObj (Meta.parameters metaExport)) in
  actions ← extractActionsFromArgs (StoryData.args storyData) (Meta.argTypes metaExport);
  Ok (storyId,
      StoryRecord.mk
        (VStr storyId)
        (or_else (Some (Meta.title metaExport)) (VStr "Unknown"))
        (or_else (Some (StoryData.storyName storyData)) (VStr storyKey))
        (or_else (Some (Meta.title metaExport)) (VStr "Unknown"))
        (or_else (Some (StoryData.storyName storyData)) (VStr storyKey))
        (VStr relativePath)
        (VStr "story")
        (VArr (default [] (Meta.tags metaExport)))
        (VObj (StoryData.args storyData))
        (VObj (StoryData.args storyData))
        (VObj (Meta.argTypes metaExport))
        (VObj (Meta.parameters metaExport))
        (VObj actions)
        (VObj [("description",
                first_truthy (path params ["docs"; "description"; "story"])
                             (path params ["docs"; "description"; "component"])
                             (VStr ""));
               ("sourceCode", VStr code);
               ("mdx", or_else (path params ["docs"; "page"]) (VStr ""))])
        (VStr code)
        (Meta.component metaExport)).

(** The [forEach] over [Object.entries(stories)]: each record is written to
    [metadata.stories] as soon as it is built, so the writes made before a
    throw remain. *)
Fixpoint writeStories (metaExport : Meta.t) (relativePath code : string)
    (entries : storyTable) (stories : gmap string StoryRecord.t)
  : gmap string StoryRecord.t * option exn :=
  match entries with
  | [] => (stories, None)
  | (storyKey, storyData) :: rest =>
      match buildStoryRecord metaExport relativePath code storyKey storyData with
      | Throw e => (stories, Some e)
      | Ok (storyId, r) =>
          writeStories metaExport relativePath code rest (setStory storyId r stories)
      end
  end.

(** A story file found by [glob]: [source] is what [fs.readFileSync] gives,
    [parsed] what [parser.parse] gives on that text, as the list of nodes
    that [traverse] visits. *)
Record SourceFile : Type := {
  basename : string;
  relativePath : string;
  source : result string;
  parsed : result (list visit);
}.

(** The body of the [try] for one file. *)
Definition processFile (f : SourceFile) (stories : gmap string StoryRecord.t)
  : gmap string StoryRecord.t * option exn :=
  match source f with
  | Throw e => (stories, Some e)
  | Ok code =>
      match parsed f with
      | Throw e => (stories, Some e)
      | Ok visits =>
          match traverse visits with
          | Throw e => (stories, Some e)
          | Ok (metaExport, table) =>
              writeStories metaExport (relativePath f) code table stories
          end
      end
  end.

(** The warning of the [catch] for one file, without its leading mark. *)
Definition couldNotParse (f : SourceFile) (e : exn) : string :=
  "Could not parse " ++ basename f ++ ": " ++ exn_message e.

(** The loop over [storyFiles]: the stories written so far and the warnings
    printed so far. *)
Fixpoint processFiles (files : list SourceFile)
    (stories : gmap string StoryRecord.t) (warnings : list string)
  : gmap string StoryRecord.t * list string :=
  match files with
  | [] => (stories, warnings)
  | f :: files' =>
      match processFile f stories with
      | (stories', None) => processFiles files' stories' warnings
      | (stories', Some e) =>
          processFiles files' stories' (warnings ++ [couldNotParse f e])
      end
  end.

(* ===================================================================== *)
(** ** The world outside the extractor *)
(* ===================================================================== *)

(** What [page.evaluate] returns for a story found in the runtime's store. *)
Module StoryStore.
Record t : Type := mk {
  args : value;
  initialArgs : value;
  argTypes : value;
  parameters : value;
  tags : value;
}.
End StoryStore.

(** The browser automation at a given server address. *)
Inductive Browser : Type :=
| NotInstalled
    (* the import of the automation library fails *)
| LaunchFails (e : exn)
    (* launching the browser or opening the page throws, outside any [try] *)
| SetupFails (e : exn)
    (* the first navigation or the wait for the preview frame throws *)
| Ready (visitStory : string -> result (option StoryStore.t)).
    (* per story id: the navigation or the evaluation throws, or the
       evaluation returns [null] or the story's data *)

Record World : Type := {
  now : string;
    (* [new Date().toISOString()] *)
  parserInstalled : bool;
    (* the parser, the traversal and the glob modules were imported *)
  srcDirExists : bool;
  storyFiles : result (list SourceFile);
    (* the story files [glob] finds under the source directory *)
  builtIndex : option (result value);
    (* [index.json] in the output directory: absent, or what reading and
       [JSON.parse] give *)
  liveIndex : string -> option value;
    (* per server address: the JSON body of an OK answer to [/index.json];
       [None] for any failure of the request *)
  browser : string -> Browser;
  portPage : Z -> option string;
    (* per local port: the page served, when the port answers both probes *)
  envStorybookUrl : option string;
  envStorybookPort : option string;
}.

(* ===================================================================== *)
(** ** Strategy 1: source files *)
(* ===================================================================== *)

(** [extractFromSourceFiles()], with the warnings of the per-file [catch]. *)
Definition extractFromSourceFiles (w : World) : option Catalog.t * list string :=
  if negb (parserInstalled w) then (None, [])
  else if negb (srcDirExists w) then (None, [])
  else
    match storyFiles w with
    | Throw _ => (None, [])
    | Ok files =>
        let metadata := createMetadataStructure (now w) "source-files" in
        let '(stories, warnings) := processFiles files (Catalog.stories metadata) [] in
        (Some (Catalog.recount (Catalog.withStories metadata stories)), warnings)
    end.

(* ===================================================================== *)
(** ** Strategy 2: the built index *)
(* ===================================================================== *)

(** [extractBasicStoryData(entry)]. *)
Definition extractBasicStoryData (entry : value) : result StoryRecord.t :=
  id ← get entry "id";
  title ← get entry "title";
  name ← get entry "name";
  importPath ← get entry "importPath";
  type ← get entry "type";
  tags ← get entry "tags";
  Ok (StoryRecord.mk
        (or_else id (VStr ""))
        (or_else title (VStr ""))
        (or_else name (VStr ""))
        (or_else title (VStr ""))
        (or_else name (VStr ""))
        (or_else importPath (VStr ""))
        (or_else type (VStr "story"))
        (or_else tags (VArr []))
        (VObj []) (VObj []) (VObj []) (VObj []) (VObj [])
        (VObj [("description", VStr "")])
        (VStr "")
        VNull).

(** [metadata.stories[storyId] = build(entry)] for each entry, in order. *)
Definition collect (build : string -> value -> result StoryRecord.t)
    (entries : list (string * value)) (stories : gmap string StoryRecord.t)
  : result (gmap string StoryRecord.t) :=
  foldlM (fun stories kv => r ← build (fst kv) (snd kv);
                            Ok (setStory (fst kv) r stories))
         entries stories.

(** [extractFromBuiltStorybook()]. *)
Definition extractFromBuiltStorybook (w : World) : option Catalog.t :=
  match builtIndex w with
  | None => None
  | Some (Throw _) => None
  | Some (Ok indexData) =>
      let metadata := createMetadataStructure (now w) "built-storybook" in
      match (entries ← get indexData "entries";
             collect (fun _ entry => extractBasicStoryData entry)
                     (objectEntries (or_else entries (VObj [])))
                     (Catalog.stories metadata)) with
      | Throw _ => None
      | Ok stories => Some (Catalog.withStories metadata stories)
      end
  end.

(* ===================================================================== *)
(** ** Strategies 3 and 4: the running server *)
(* ===================================================================== *)

(** [extractBasicMetadataFromIndex()]. *)
Definition extractBasicMetadataFromIndex (w : World) (storybookUrl : string)
  : option value :=
  match liveIndex w storybookUrl with
  | None => None
  | Some indexData =>
      match get indexData "entries" with
      | Throw _ => None
      | Ok entries => Some (or_else entries (VObj []))
      end
  end.

(** The record of basic data only, used when a story cannot be introspected
    and by the basic strategy. *)
Definition basicRecord (storyId : string) (entry : value) : result StoryRecord.t :=
  id ← get entry "id";
  title ← get entry "title";
  name ← get entry "name";
  importPath ← get entry "importPath";
  type ← get entry "type";
  tags ← get entry "tags";
  Ok (StoryRecord.mk
        (or_else id (VStr storyId))
        (or_else title (VStr ""))
        (or_else name (VStr ""))
        (or_else title (VStr ""))
        (or_else name (VStr ""))
        (or_else importPath (VStr ""))
        (or_else type (VStr "story"))
        (or_else tags (VArr []))
        (VObj []) (VObj []) (VObj [])
        (VObj [("fileName", or_else importPath (VStr ""))])
        (VObj [])
        (VObj [("description", VStr ""); ("sourceCode", VStr ""); ("mdx", VStr "")])
        (VStr "")
        VNull).

(** [extractActions(argTypes)]. *)
Definition extractActions (argTypes : value) : obj :=
  fold_left
    (fun actions kv =>
       let '(key, v) := kv in
       let action := field (Some v) "action" in
       if truthy_opt action || JsString.startsWith "on" key
          || is_events (path (Some v) ["table"; "category"])
       then assign actions key
              (actionRecord (VStr key)
                 (or_else (field (Some v) "description") (VStr ""))
                 (stringOr action key))
       else actions)
    (objectEntries argTypes) [].

(** [{ fileName: ..., ...parameters }]: a spread defines own properties. *)
Definition spreadOver (o : obj) (x : option value) : obj :=
  match x with
  | Some v => fold_left (fun o kv => obj_set o (fst kv) (snd kv)) (objectEntries v) o
  | None => o
  end.

(** The record built from the runtime's data ([storyData] may be [null]). *)
Definition deepRecord (storyId : string) (entry : value)
    (storyData : option StoryStore.t) : result StoryRecord.t :=
  let sd (f : StoryStore.t -> value) : option value := f <$> storyData in
  let params := sd StoryStore.parameters in
  id ← get entry "id";
  title ← get entry "title";
  name ← get entry "name";
  importPath ← get entry "importPath";
  type ← get entry "type";
  tags ← get entry "tags";
  Ok (StoryRecord.mk
        (or_else id (VStr storyId))
        (or_else title (VStr ""))
        (or_else name (VStr ""))
        (or_else title (VStr ""))
        (or_else name (VStr ""))
        (or_else importPath (VStr ""))
        (or_else type (VStr "story"))
        (first_truthy (sd StoryStore.tags) tags (VArr []))
        (or_else (sd StoryStore.args) (VObj []))
        (or_else (sd StoryStore.initialArgs) (VObj []))
        (or_else (sd StoryStore.argTypes) (VObj []))
        (VObj (spreadOver [("fileName", or_else importPath (VStr ""))] params))
        (VObj (extractActions (or_else (sd StoryStore.argTypes) (VObj []))))
        (VObj [("description",
                first_truthy (path params ["docs"; "description"; "story"])
                             (path params ["docs"; "description"; "component"])
                             (VStr ""));
               ("sourceCode",
                first_truthy (path params ["docs"; "source"; "code"])
                             (path params ["storySource"; "source"])
                             (VStr ""));
               ("mdx", or_else (path params ["docs"; "page"]) (VStr ""))])
        (or_else (path params ["docs"; "source"; "code"]) (VStr ""))
        (or_else (path params ["component"; "__docgenInfo"]) VNull)).

(** The body of the loop over the story ids: the inner [try] with its
    [catch]. *)
Definition deepStory (visitStory : string -> result (option StoryStore.t))
    (storyId : string) (entry : value) : result StoryRecord.t :=
  match (storyData ← visitStory storyId; deepRecord storyId entry storyData) with
  | Ok r => Ok r
  | Throw _ => basicRecord storyId entry
  end.

(** [extractDeepMetadataWithBrowser(storyEntries)]. *)
Definition extractDeepMetadataWithBrowser (w : World) (storybookUrl : string)
    (storyEntries : value) : result (option Catalog.t) :=
  match browser w storybookUrl with
  | NotInstalled => Ok None
  | LaunchFails e => Throw e
  | SetupFails _ => Ok None
  | Ready visitStory =>
      let metadata := createMetadataStructure (now w) "running-storybook-deep" in
      match collect (deepStory visitStory) (objectEntries storyEntries)
                    (Catalog.stories metadata) with
      | Throw _ => Ok None
      | Ok stories =>
          Ok (Some (Catalog.recount (Catalog.withStories metadata stories)))
      end
  end.

(** [c && c.totalStories > 0]. *)
Definition nonEmptyCatalog (c : option Catalog.t) : bool :=
  match c with
  | Some c => Nat.ltb 0 (Catalog.totalStories c)
  | None => false
  end.

(** The basic strategy at the end of [extractFromRunningStorybook]. *)
Definition basicFromIndex (w : World) (storyEntries : value) : result Catalog.t :=
  let metadata := createMetadataStructure (now w) "storybook-index-basic" in
  stories ← collect basicRecord (objectEntries storyEntries) (Catalog.stories metadata);
  Ok (Catalog.recount (Catalog.withStories metadata stories)).

(** [extractFromRunningStorybook()]: the strategy selector. *)
Definition extractFromRunningStorybook (w : World) (storybookUrl : string)
  : result (option Catalog.t) :=
  let sourceMetadata := fst (extractFromSourceFiles w) in
  if nonEmptyCatalog sourceMetadata then Ok sourceMetadata
  else
    match extractBasicMetadataFromIndex w storybookUrl with
    | None => Ok (extractFromBuiltStorybook w)
    | Some storyEntries =>
        if Nat.eqb (length (objectEntries storyEntries)) 0
        then Ok (extractFromBuiltStorybook w)
        else
          deepMetadata ← extractDeepMetadataWithBrowser w storybookUrl storyEntries;
          if nonEmptyCatalog deepMetadata then Ok deepMetadata
          else c ← basicFromIndex w storyEntries; Ok (Some c)
    end.

(* ===================================================================== *)
(** ** The command line *)
(* ===================================================================== *)

Definition commonPorts : list Z := [6006; 6007; 6008; 6009; 9009; 9001; 8080]%Z.

(** The fingerprint test of [detectStorybookPort] on a served page. *)
Definition looksLikeStorybook (html : string) : bool :=
  JsString.includes "storybook" (JsString.toLowerCase html)
  || JsString.includes "__STORYBOOK" html
  || JsString.includes "sb-" html.

(** [detectStorybookPort()]: the first common port whose page passes. *)
Definition detectStorybookPort (w : World) : option Z :=
  List.find (fun port =>
               match portPage w port with
               | Some html => looksLikeStorybook html
               | None => false
               end) commonPorts.

Definition localhost (port : string) : string := "http://localhost:" ++ port.

(** [CONFIG.storybookUrl] before [main] runs. *)
Definition defaultStorybookUrl (w : World) : string :=
  match envStorybookUrl w with
  | Some u => if JsString.nonEmpty u then u else "http://localhost:6006"
  | None => "http://localhost:6006"
  end.

(** The mode flag: the first argument starting with two hyphens that is
    neither a port nor a deep flag, [--build] when there is none. *)
Definition modeOf (args : list string) : string :=
  match List.find (fun arg => JsString.startsWith "--" arg
                              && negb (JsString.startsWith "--port" arg)
                              && negb (JsString.startsWith "--deep" arg)) args with
  | Some m => m
  | None => "--build"
  end.

(** [CONFIG.storybookUrl] after the port has been settled: an explicit
    port argument, else the port of the environment, else (in dev mode) the
    detected port, else the address [main] started with. *)
Definition storybookUrlOf (w : World) (args : list string) : string :=
  let unchanged :=
    if string_eqb (modeOf args) "--dev" then
      match detectStorybookPort w with
      | Some port =>
          if (port =? 0)%Z then defaultStorybookUrl w
          else localhost (Z_to_string port)
      | None => defaultStorybookUrl w
      end
    else defaultStorybookUrl w in
  match List.find (JsString.startsWith "--port=") args with
  | Some portArg =>
      localhost (default "undefined" (JsString.splitSecond "=" portArg))
  | None =>
      match envStorybookPort w with
      | Some p => if JsString.nonEmpty p then localhost p else unchanged
      | None => unchanged
      end
  end.

(** [saveMetadata(metadata, outputPath)]: the catalog written to the output
    file.  Creating the directory and writing are taken to succeed. *)
Definition saveMetadata (metadata : Catalog.t) : Catalog.t :=
  Catalog.recount metadata.

(** How a run of [main] ends. *)
Inductive Outcome : Type :=
| InvalidMode (mode : string)           (* exit code 1, nothing written *)
| ExtractionFailed                      (* exit code 1, nothing written *)
| FatalError (e : exn)                  (* exit code 1, nothing written *)
| Saved (written : Catalog.t).          (* the content of the output file *)

(** The enhancement step of build mode. *)
Definition enhance (w : World) (storybookUrl : string) (metadata : Catalog.t)
  : result Catalog.t :=
  enhanced ← extractFromRunningStorybook w storybookUrl;
  match enhanced with
  | Some e =>
      if string_eqb (Catalog.extractedFrom e) "running-storybook"
      then Ok e else Ok metadata
  | None => Ok metadata
  end.

(** The extraction of [main], by mode; [None] is an invalid mode. *)
Definition extractByMode (w : World) (args : list string)
  : option (result (option Catalog.t)) :=
  let mode := modeOf args in
  let shouldEnhance := existsb (string_eqb "--enhance") args in
  let storybookUrl := storybookUrlOf w args in
  if string_eqb mode "--dev" then
    Some (extractFromRunningStorybook w storybookUrl)
  else if string_eqb mode "--build" then
    Some (match extractFromBuiltStorybook w with
          | Some metadata =>
              if shouldEnhance
              then m ← enhance w storybookUrl metadata; Ok (Some m)
              else Ok (Some metadata)
          | None => Ok None
          end)
  else None.

(** [main()] on the arguments after the script name. *)
Definition main (w : World) (args : list string) : Outcome :=
  match extractByMode w args with
  | None => InvalidMode (modeOf args)
  | Some (Throw e) => FatalError e
  | Some (Ok None) => ExtractionFailed
  | Some (Ok (Some metadata)) => Saved (saveMetadata metadata)
  end.

(* ===================================================================== *)
(** ** Predicates and example projects used by the properties *)
(* ===================================================================== *)

(** The labels of the [switch] in [extractValue]. *)
Definition switchCases : list string :=
  ["StringLiteral"; "NumericLiteral"; "BooleanLiteral"; "NullLiteral";
   "ObjectExpression"; "ArrayExpression"; "ArrowFunctionExpression";
   "FunctionExpression"; "JSXElement"; "JSXFragment"; "Identifier";
   "TSAsExpression"].

(** The key under which the loop of [extractObjectLiteral] stores a member
    of the literal, if it stores it. *)
Definition writtenKey (p : property) : option string :=
  match p with
  | ObjectProperty k _ =>
      match propertyKey k with
      | Some key => if string_eqb key "__proto__" then None else Some key
      | None => None
      end
  | _ => None
  end.

(** Some member of the literal, or of a literal inside it, has the key
    [__proto__]. *)
Fixpoint hasPrototypeKey (n : node) : bool :=
  match n with
  | ObjectExpression props =>
      existsb (fun p =>
                 match p with
                 | ObjectProperty k v =>
                     match propertyKey k with
                     | Some key => string_eqb key "__proto__"
                     | None => false
                     end || hasPrototypeKey v
                 | _ => false
                 end) props
  | ArrayExpression els =>
      existsb (fun el => match el with
                         | Some e => hasPrototypeKey e
                         | None => false
                         end) els
  | TSAsExpression e => hasPrototypeKey e
  | _ => false
  end.

(** The value is not a number of magnitude 10^21 or more, which JavaScript
    prints in exponent form. *)
Definition decimalNumber (v : value) : bool :=
  match v with
  | VNum n => (Z.abs n <? 10 ^ 21)%Z
  | _ => true
  end.

(** The key of the member is not a numeric literal of magnitude 10^21 or
    more. *)
Definition decimalKey (p : property) : bool :=
  match prop_key p with
  | Some (NumericLiteral n) => (Z.abs n <? 10 ^ 21)%Z
  | _ => true
  end.

(** The default export, type assertions removed, is an object literal with a
    property named [title] whose value is a literal with a truthy value. *)
Fixpoint declaresTitle (d : node) : bool :=
  match d with
  | ObjectExpression props =>
      existsb (fun p => named p "title" && truthy_opt (prop_literal p)) props
  | TSAsExpression e => declaresTitle e
  | _ => false
  end.

(** The same project with another list of story files. *)
Definition withStoryFiles (w : World) (files : result (list SourceFile)) : World :=
  {| now := now w;
     parserInstalled := parserInstalled w;
     srcDirExists := srcDirExists w;
     storyFiles := files;
     builtIndex := builtIndex w;
     liveIndex := liveIndex w;
     browser := browser w;
     portPage := portPage w;
     envStorybookUrl := envStorybookUrl w;
     envStorybookPort := envStorybookPort w |}.

(** A project with the parser installed and the given story files, no built
    index, no server and no browser automation. *)
Definition sourceOnly (files : list SourceFile) : World :=
  {| now := "2024-01-01T00:00:00.000Z";
     parserInstalled := true;
     srcDirExists := true;
     storyFiles := Ok files;
     builtIndex := None;
     liveIndex := fun _ => None;
     browser := fun _ => NotInstalled;
     portPage := fun _ => None;
     envStorybookUrl := None;
     envStorybookPort := None |}.

(** A project without the parser: a built index on disk, nothing running. *)
Definition builtOnly (indexData : value) : World :=
  {| now := "2024-01-01T00:00:00.000Z";
     parserInstalled := false;
     srcDirExists := true;
     storyFiles := Ok [];
     builtIndex := Some (Ok indexData);
     liveIndex := fun _ => None;
     browser := fun _ => NotInstalled;
     portPage := fun _ => None;
     envStorybookUrl := None;
     envStorybookPort := None |}.

(** A project without the parser: a built index on disk and a server that
    serves the same index, with the given state of the browser automation. *)
Definition liveServer (indexData : value) (b : Browser) : World :=
  {| now := "2024-01-01T00:00:00.000Z";
     parserInstalled := false;
     srcDirExists := true;
     storyFiles := Ok [];
     builtIndex := Some (Ok indexData);
     liveIndex := fun _ => Some indexData;
     browser := fun _ => b;
     portPage := fun _ => None;
     envStorybookUrl := None;
     envStorybookPort := None |}.

(** A browser in which every story is found, with one argument. *)
Definition introspecting : Browser :=
  Ready (fun _ =>
           Ok (Some (StoryStore.mk (VObj [("label", VStr "Save")])
                                   (VObj [("label", VStr "Save")])
                                   (VObj []) (VObj []) (VArr [])))).

(** [export default { title: "Components/Button",
                      argTypes: { variant: { control: { type: "select" } } } };
     export const Primary = {};
     Primary.args = { variant: "primary", disabled: false };]
    as the traversal visits it. *)
Definition buttonStories : list visit :=
  [ ExportDefaultDeclaration
      (ObjectExpression
         [ ObjectProperty (Identifier "title") (StringLiteral "Components/Button");
           ObjectProperty (Identifier "argTypes")
             (ObjectExpression
                [ ObjectProperty (Identifier "variant")
                    (ObjectExpression
                       [ ObjectProperty (Identifier "control")
                           (ObjectExpression
                              [ ObjectProperty (Identifier "type")
                                  (StringLiteral "select") ]) ]) ]) ]);
    ExportNamedDeclaration (Some (VariableDeclaration [Identifier "Primary"]));
    AssignmentExpression
      (MemberExpression (Identifier "Primary") (Identifier "args"))
      (ObjectExpression
         [ ObjectProperty (Identifier "variant") (StringLiteral "primary");
           ObjectProperty (Identifier "disabled") (BooleanLiteral false) ]) ].

(** A file that parses to [buttonStories]. *)
Definition buttonFile : SourceFile :=
  {| basename := "Button.stories.js";
     relativePath := "./src/Button.stories.js";
     source := Ok "export default { title: 'Components/Button' }";
     parsed := Ok buttonStories |}.

(** The record of the story [Primary] of that file. *)
Definition buttonPrimary (relativePath code : string) : StoryRecord.t :=
  StoryRecord.mk
    (VStr "components-button--primary")
    (VStr "Components/Button") (VStr "Primary")
    (VStr "Components/Button") (VStr "Primary")
    (VStr relativePath) (VStr "story") (VArr [])
    (VObj [("variant", VStr "primary"); ("disabled", VBool false)])
    (VObj [("variant", VStr "primary"); ("disabled", VBool false)])
    (VObj [("variant", VObj [("control", VObj [("type", VStr "select")])])])
    (VObj []) (VObj [])
    (VObj [("description", VStr ""); ("sourceCode", VStr code); ("mdx", VStr "")])
    (VStr code) VNull.

(** A file that the parser rejects. *)
Definition brokenFile : SourceFile :=
  {| basename := "Broken.stories.js";
     relativePath := "./src/Broken.stories.js";
     source := Ok "export default {";
     parsed := Throw (Error "Unexpected token (1:16)") |}.

(** [const meta = { title: "Button" }; export default meta;
     export const Primary = {};] *)
Definition untitledFile : SourceFile :=
  {| basename := "Untitled.stories.js";
     relativePath := "./src/Untitled.stories.js";
     source := Ok "const meta = { title: 'Button' }; export default meta;";
     parsed := Ok [ ExportDefaultDeclaration (Identifier "meta");
                    ExportNamedDeclaration
                      (Some (VariableDeclaration [Identifier "Primary"])) ] |}.

(** [export default { title: 123 }; export const Primary = {};] *)
Definition numericTitleFile : SourceFile :=
  {| basename := "Numeric.stories.js";
     relativePath := "./src/Numeric.stories.js";
     source := Ok "export default { title: 123 }; export const Primary = {};";
     parsed := Ok [ ExportDefaultDeclaration
                      (ObjectExpression
                         [ObjectProperty (Identifier "title") (NumericLiteral 123)]);
                    ExportNamedDeclaration
                      (Some (VariableDeclaration [Identifier "Primary"])) ] |}.

(** [{ handler: () => {}, handler: 1 }] *)
Definition overriddenArgs : list property :=
  [ ObjectProperty (Identifier "handler") ArrowFunctionExpression;
    ObjectProperty (Identifier "handler") (NumericLiteral 1) ].

(** [export default { title: "Form" }; export const Primary = {};
     Primary.args = { handler: () => {}, handler: 1 };] *)
Definition overriddenFile : SourceFile :=
  {| basename := "Form.stories.js";
     relativePath := "./src/Form.stories.js";
     source := Ok "export default { title: 'Form' }";
     parsed := Ok [ ExportDefaultDeclaration
                      (ObjectExpression
                         [ObjectProperty (Identifier "title") (StringLiteral "Form")]);
                    ExportNamedDeclaration
                      (Some (VariableDeclaration [Identifier "Primary"]));
                    AssignmentExpression
                      (MemberExpression (Identifier "Primary") (Identifier "args"))
                      (ObjectExpression overriddenArgs) ] |}.

(** [export default { title: "Form" }; export const Primary = {};
     Primary.args = { label: "Save", handler: () => {} };] *)
Definition formStories : list visit :=
  [ ExportDefaultDeclaration
      (ObjectExpression
         [ObjectProperty (Identifier "title") (StringLiteral "Form")]);
    ExportNamedDeclaration (Some (VariableDeclaration [Identifier "Primary"]));
    AssignmentExpression
      (MemberExpression (Identifier "Primary") (Identifier "args"))
      (ObjectExpression
         [ ObjectProperty (Identifier "label") (StringLiteral "Save");
           ObjectProperty (Identifier "handler") ArrowFunctionExpression ]) ].

(** The meta and the story data that the walk of [formStories] ends with. *)
Definition formMeta : Meta.t := Meta.mk (VStr "Form") VNull [] [] (Some []).

Definition formPrimary : StoryData.t :=
  StoryData.mk "Primary"
    [("label", VStr "Save"); ("handler", VStr "[Function]")] (VStr "Primary").

(** An entry of [index.json]. *)
Definition primaryEntry : value :=
  VObj [("id", VStr "button--primary"); ("title", VStr "Button");
        ("name", VStr "Primary");
        ("importPath", VStr "./src/Button.stories.js");
        ("type", VStr "story"); ("tags", VArr [VStr "story"])].

(** An [index.json] with one story. *)
Definition oneStoryIndex : value :=
  VObj [("v", VNum 5); ("entries", VObj [("button--primary", primaryEntry)])].

(** An [index.json] whose only entry has the key [__proto__]. *)
Definition prototypeIndex : value :=
  VObj [("v", VNum 5); ("entries", VObj [("__proto__", primaryEntry)])].

(** The record that the built-index strategy makes of [primaryEntry]. *)
Definition primaryBasic : StoryRecord.t :=
  StoryRecord.mk (VStr "button--primary") (VStr "Button")
    (VStr "Primary") (VStr "Button") (VStr "Primary")
    (VStr "./src/Button.stories.js") (VStr "story")
    (VArr [VStr "story"]) (VObj []) (VObj []) (VObj [])
    (VObj []) (VObj []) (VObj [("description", VStr "")])
    (VStr "") VNull.

(** The replacements of [generateStoryId] on one string: lower case, runs
    of white space and slashes to hyphens, everything outside [a-z0-9-]
    dropped. *)
Definition slug (s : string) : string :=
  JsString.stripNonSlug
    (JsString.replaceSlashes
       (JsString.replaceWhiteSpace (JsString.toLowerCase s))).

(** The string has no hyphen. *)
Definition hyphenFree (s : string) : bool :=
  JsString.forallb (fun c => negb (Ascii.eqb c "-")) s.

(** No array inside the value, at any depth, has [null] among its
    elements. *)
Fixpoint nullFreeArrays (v : value) : bool :=
  match v with
  | VArr l => forallb (fun e => negb (is_null e) && nullFreeArrays e) l
  | VObj o => forallb (fun kv => nullFreeArrays (snd kv)) o
  | _ => true
  end.

(** Induction on syntax trees, through object members and array
    elements. *)
Section NodeInduction.
Variable P : node -> Prop.

Definition member_all (p : property) : Prop :=
  match p with
  | ObjectProperty k v => P k /\ P v
  | ObjectMethod k => P k
  | SpreadElement a => P a
  end.

Definition element_all (el : option node) : Prop :=
  match el with
  | Some e => P e
  | None => True
  end.

Hypothesis HString : forall s, P (StringLiteral s).
Hypothesis HNumeric : forall z, P (NumericLiteral z).
Hypothesis HBoolean : forall b, P (BooleanLiteral b).
Hypothesis HNull : P NullLiteral.
Hypothesis HBigInt : forall s, P (BigIntLiteral s).
Hypothesis HObject : forall ps, Forall member_all ps -> P (ObjectExpression ps).
Hypothesis HArray : forall els, Forall element_all els -> P (ArrayExpression els).
Hypothesis HArrow : P ArrowFunctionExpression.
Hypothesis HFunction : P FunctionExpression.
Hypothesis HJSXElement : P JSXElement.
Hypothesis HJSXFragment : P JSXFragment.
Hypothesis HIdentifier : forall x, P (Identifier x).
Hypothesis HTSAs : forall e, P e -> P (TSAsExpression e).
Hypothesis HMember : forall o p, P o -> P p -> P (MemberExpression o p).
Hypothesis HOther : forall ty, P (OtherNode ty).

Fixpoint node_induction (n : node) : P n :=
  match n with
  | StringLiteral s => HString s
  | NumericLiteral z => HNumeric z
  | BooleanLiteral b => HBoolean b
  | NullLiteral => HNull
  | BigIntLiteral s => HBigInt s
  | ObjectExpression ps =>
      HObject ps
        ((fix members (l : list property) : Forall member_all l :=
            match l with
            | [] => @List.Forall_nil _ _
            | p :: l' =>
                @List.Forall_cons _ _ p l'
                  (match p return member_all p with
                   | ObjectProperty k v => conj (node_induction k) (node_induction v)
                   | ObjectMethod k => node_induction k
                   | SpreadElement a => node_induction a
                   end) (members l')
            end) ps)
  | ArrayExpression els =>
      HArray els
        ((fix elements (l : list (option node)) : Forall element_all l :=
            match l with
            | [] => @List.Forall_nil _ _
            | el :: l' =>
                @List.Forall_cons _ _ el l'
                  (match el return element_all el with
                   | Some e => node_induction e
                   | None => I
                   end) (elements l')
            end) els)
  | ArrowFunctionExpression => HArrow
  | FunctionExpression => HFunction
  | JSXElement => HJSXElement
  | JSXFragment => HJSXFragment
  | Identifier x => HIdentifier x
  | TSAsExpression e => HTSAs e (node_induction e)
  | MemberExpression o p => HMember o p (node_induction o) (node_induction p)
  | OtherNode ty => HOther ty
  end.

End NodeInduction.

(** The members that [extractMetaObject] walks: those of the object
    literal under any number of type assertions. *)
Fixpoint metaObjectProps (d : node) : list property :=
  match d with
  | ObjectExpression props => props
  | TSAsExpression e => metaObjectProps e
  | _ => []
  end.

(** A property named [tags] whose value is an array literal with a hole. *)
Definition holeInTags (p : property) : bool :=
  named p "tags"
  && match arrayElements p with
     | Some els => existsb (fun el => match el with None => true | Some _ => false end) els
     | None => false
     end.

(** What [extractMetaObject] keeps true of the meta it builds: the title is
    the empty string or truthy, the tags are there and truthy, the
    component is [null] or a non-empty name. *)
Definition metaShape (m : Meta.t) : Prop :=
  (Meta.title m = VStr "" \/ truthy (Meta.title m) = true)
  /\ (exists tags, Meta.tags m = Some tags /\ Forall (fun t => truthy t = true) tags)
  /\ (Meta.component m = VNull
      \/ exists x, Meta.component m = VStr x /\ JsString.nonEmpty x = true).

(** The name a declarator or function [id] declares, when it is a truthy
    identifier name. *)
Definition declaredName (id : node) : option string :=
  match id with
  | Identifier x => if JsString.nonEmpty x then Some x else None
  | _ => None
  end.

(** The names declared by the named exports of a file, in order. *)
Definition exportedNames (visits : list visit) : list string :=
  flat_map
    (fun v =>
       match v with
       | ExportNamedDeclaration (Some (VariableDeclaration ids)) =>
           flat_map (fun id => option_list (declaredName id)) ids
       | ExportNamedDeclaration (Some (FunctionDeclaration (Some id))) =>
           option_list (declaredName id)
       | _ => []
       end) visits.

(** The visit makes use of the name [__proto__]: as an exported name, as
    the object of an assignment, or as a key in the default export or in
    the assigned expression. *)
Definition usesPrototype (v : visit) : bool :=
  match v with
  | ExportDefaultDeclaration d => hasPrototypeKey d
  | ExportNamedDeclaration _ =>
      existsb (string_eqb "__proto__") (exportedNames [v])
  | AssignmentExpression lhs rhs =>
      hasPrototypeKey rhs
      || match lhs with
         | MemberExpression object _ =>
             match node_name object with
             | Some x => string_eqb x "__proto__"
             | None => false
             end
         | _ => false
         end
  end.

(** A file that parses to nodes of which one makes use of [__proto__]. *)
Definition fileUsesPrototype (f : SourceFile) : bool :=
  match parsed f with
  | Ok visits => existsb usesPrototype visits
  | Throw _ => false
  end.

(** What a visit does to the table of stories. *)
Definition tableStep (stories : storyTable) (v : visit) : storyTable :=
  match v with
  | ExportNamedDeclaration (Some (VariableDeclaration ids)) =>
      fold_left (fun s id => declareStory s (Some id)) ids stories
  | ExportNamedDeclaration (Some (FunctionDeclaration id)) =>
      declareStory stories id
  | AssignmentExpression lhs rhs =>
      assignStoryName (assignArgs stories lhs rhs) lhs rhs
  | _ => stories
  end.

(** What holds of the story declared under [x] in a table: it carries its
    own name, and, when [fresh], no args. *)
Definition storyInv (fresh : bool) (x : string) (stories : storyTable) : Prop :=
  forall sd, obj_get stories x = Some sd ->
             StoryData.name sd = x /\ (fresh = true -> StoryData.args sd = []).

(** The visit assigns [<x>.args]. *)
Definition assignsArgs (x : string) (v : visit) : bool :=
  match v with
  | AssignmentExpression lhs _ =>
      match memberOf lhs "args" with
      | Some y => string_eqb y x
      | None => false
      end
  | _ => false
  end.

(** What every record of the source-file strategy satisfies, stored under
    [id]. *)
Definition sourceRecord (id : string) (r : StoryRecord.t) : Prop :=
  StoryRecord.id r = VStr id
  /\ JsString.forallb JsString.isSlugChar id = true
  /\ StoryRecord.kind r = StoryRecord.title r
  /\ StoryRecord.story r = StoryRecord.name r
  /\ StoryRecord.initialArgs r = StoryRecord.args r
  /\ truthy (StoryRecord.title r) = true
  /\ StoryRecord.type r = VStr "story"
  /\ (exists o, StoryRecord.args r = VObj o)
  /\ (exists o, StoryRecord.argTypes r = VObj o)
  /\ (exists o, StoryRecord.actions r = VObj o)
  /\ (exists l, StoryRecord.tags r = VArr l)
  /\ field (Some (StoryRecord.docs r)) "sourceCode" = Some (StoryRecord.source r).

(** The file cannot be read or cannot be parsed. *)
Definition unparsable (f : SourceFile) : Prop :=
  (exists e, source f = Throw e) \/ (exists e, parsed f = Throw e).

(** A record that carries basic data only: no args, argTypes or actions,
    and the aliases in place. *)
Definition basicOnly (r : StoryRecord.t) : Prop :=
  StoryRecord.args r = VObj [] /\ StoryRecord.initialArgs r = VObj []
  /\ StoryRecord.argTypes r = VObj [] /\ StoryRecord.actions r = VObj []
  /\ StoryRecord.kind r = StoryRecord.title r
  /\ StoryRecord.story r = StoryRecord.name r.

(** The port answers both probes with a page that looks like Storybook. *)
Definition answersAsStorybook (w : World) (port : Z) : bool :=
  match portPage w port with
  | Some html => looksLikeStorybook html
  | None => false
  end.

(** An argument that [main] can take for the mode. *)
Definition modeCandidate (arg : string) : bool :=
  JsString.startsWith "--" arg
  && negb (JsString.startsWith "--port" arg)
  && negb (JsString.startsWith "--deep" arg).

(** What build mode does with the answer of the built-index strategy. *)
Definition builtOutcome (w : World) : Outcome :=
  match extractFromBuiltStorybook w with
  | Some metadata => Saved (saveMetadata metadata)
  | None => ExtractionFailed
  end.

(** The shape of an action record under key [k]. *)
Definition actionShape (argTypes : obj) (k : string) (a : value) : Prop :=
  exists description action,
    a = actionRecord (VStr k) description (VStr action)
    /\ (action = k
        \/ exists config, In (k, config) argTypes
                          /\ field (Some config) "action" = Some (VStr action)).

(* ===================================================================== *)
(** ** Two helpers of the REST layer ([middleware.js]) *)
(* ===================================================================== *)

Module Middleware.

(** [s.replace(/[^a-z0-9]+/g, '-')]: every maximal run of characters
    outside [a-z0-9] becomes one hyphen.  [inRun] tells that the previous
    code unit was outside [a-z0-9]. *)
Fixpoint replaceNonAlnumFrom (inRun : bool) (s : string) : string :=
  match s with
  | EmptyString => EmptyString
  | String c s' =>
      if JsString.isLowerAlnum c
      then String c (replaceNonAlnumFrom false s')
      else (if inRun then replaceNonAlnumFrom true s'
            else String "-" (replaceNonAlnumFrom true s'))
  end.

(** The match of [^-]: one hyphen at the start. *)
Definition dropLeadingHyphen (s : string) : string :=
  match s with
  | String c s' => if Ascii.eqb c "-" then s' else s
  | EmptyString => EmptyString
  end.

(** The match of [-$]: one hyphen at the end. *)
Fixpoint dropTrailingHyphen (s : string) : string :=
  match s with
  | EmptyString => EmptyString
  | String c EmptyString => if Ascii.eqb c "-" then EmptyString else s
  | String c s' => String c (dropTrailingHyphen s')
  end.

(** [getComponentId(titleOrKind)].  The argument is a property of a story
    read back from JSON, possibly [undefined]; a truthy value that is not
    a string has no [toLowerCase]. *)
Definition getComponentId (titleOrKind : option value) : result string :=
  match or_else titleOrKind (VStr "") with
  | VStr s =>
      Ok (dropTrailingHyphen
            (dropLeadingHyphen
               (replaceNonAlnumFrom false (JsString.toLowerCase s))))
  | _ => Throw (TypeError "toLowerCase is not a function")
  end.

(** [s.split(sep)] for a one-character separator. *)
Fixpoint split (sep : ascii) (s : string) : list string :=
  match s with
  | EmptyString => [EmptyString]
  | String c s' =>
      if Ascii.eqb c sep then EmptyString :: split sep s'
      else match split sep s' with
           | part :: parts => String c part :: parts
           | [] => [String c EmptyString]
           end
  end.

Fixpoint trimStart (s : string) : string :=
  match s with
  | String c s' => if JsString.isWhiteSpace c then trimStart s' else s
  | EmptyString => EmptyString
  end.

(** The string without its trailing white space. *)
Fixpoint trimEnd (s : string) : string :=
  match s with
  | EmptyString => EmptyString
  | String c s' =>
      match trimEnd s' with
      | EmptyString => if JsString.isWhiteSpace c then EmptyString
                       else String c EmptyString
      | t => String c t
      end
  end.

(** [s.trim()]. *)
Definition trim (s : string) : string := trimEnd (trimStart s).

(** [getCorsOrigin(req)]: [corsOrigin] is [CONFIG.corsOrigin],
    [requestOrigin] is [req?.headers?.origin]. *)
Definition getCorsOrigin (corsOrigin : string) (requestOrigin : option string)
  : string :=
  if string_eqb corsOrigin "*" then "*"
  else
    let origins := map trim (split "," corsOrigin) in
    match requestOrigin with
    | Some o =>
        if JsString.nonEmpty o && existsb (string_eqb o) origins then o
        else match origins with
             | first :: _ => if JsString.nonEmpty first then first else "*"
             | [] => "*"
             end
    | None =>
        match origins with
        | first :: _ => if JsString.nonEmpty first then first else "*"
        | [] => "*"
        end
    end.

(** A component id: characters of [a-z0-9-], no hyphen at either end, no
    two hyphens in a row. *)
Fixpoint noDoubleHyphen (s : string) : bool :=
  match s with
  | String c ((String d _) as s') =>
      negb (Ascii.eqb c "-" && Ascii.eqb d "-") && noDoubleHyphen s'
  | _ => true
  end.

Definition startsWithHyphen (s : string) : bool :=
  match s with
  | String c _ => Ascii.eqb c "-"
  | EmptyString => false
  end.

Fixpoint endsWithHyphen (s : string) : bool :=
  match s with
  | EmptyString => false
  | String c EmptyString => Ascii.eqb c "-"
  | String _ s' => endsWithHyphen s'
  end.

Definition isComponentId (s : string) : bool :=
  JsString.forallb JsString.isSlugChar s
  && noDoubleHyphen s
  && negb (startsWithHyphen s) && negb (endsWithHyphen s).

End Middleware.

(* ===================================================================== *)
(** * Properties *)
(* ===================================================================== *)

(** ** Story ids *)

Section SlugFacts.
Import JsString.

Lemma slugChar_fixed (c : ascii) :
  isSlugChar c = true ->
  toLowerChar c = c /\ isWhiteSpace c = false /\ Ascii.eqb c "/" = false.
Proof.
  destruct c as [[] [] [] [] [] [] [] []]; vm_compute; intuition congruence.
Qed.

Lemma lowerAlnum_slugChar (c : ascii) :
  isLowerAlnum c = true -> isSlugChar c = true /\ c <> "-"%char.
Proof.
  destruct c as [[] [] [] [] [] [] [] []]; vm_compute; intuition congruence.
Qed.

Lemma append_nil (s : string) : ("" ++ s)%string = s.
Proof. reflexivity. Qed.

Lemma append_cons (c : ascii) (s t : string) :
  (String c s ++ t)%string = String c (s ++ t).
Proof. reflexivity. Qed.

Lemma forallb_app (P : ascii -> bool) (s t : string) :
  forallb P (s ++ t) = forallb P s && forallb P t.
Proof.
  induction s as [|c s IH]; [reflexivity|].
  rewrite append_cons. simpl. rewrite IH. apply andb_assoc.
Qed.

Lemma toLowerCase_slug (s : string) :
  forallb isSlugChar s = true -> toLowerCase s = s.
Proof.
  induction s as [|c s IH]; simpl; [reflexivity|].
  intros [Hc Hs]%andb_true_iff.
  destruct (slugChar_fixed c Hc) as (-> & _ & _). now rewrite IH.
Qed.

Lemma replaceWhiteSpaceFrom_slug (b : bool) (s : string) :
  forallb isSlugChar s = true -> replaceWhiteSpaceFrom b s = s.
Proof.
  revert b. induction s as [|c s IH]; intros b; simpl; [reflexivity|].
  intros [Hc Hs]%andb_true_iff.
  destruct (slugChar_fixed c Hc) as (_ & -> & _). now rewrite IH.
Qed.

Lemma replaceSlashes_slug (s : string) :
  forallb isSlugChar s = true -> replaceSlashes s = s.
Proof.
  induction s as [|c s IH]; simpl; [reflexivity|].
  intros [Hc Hs]%andb_true_iff.
  destruct (slugChar_fixed c Hc) as (_ & _ & ->). now rewrite IH.
Qed.

Lemma stripNonSlug_slug (s : string) :
  forallb isSlugChar s = true -> stripNonSlug s = s.
Proof.
  induction s as [|c s IH]; simpl; [reflexivity|].
  intros [Hc Hs]%andb_true_iff. rewrite Hc. now rewrite IH.
Qed.

End SlugFacts.

Section IdFacts.
Import JsString.

Lemma toLowerCase_app (s t : string) :
  toLowerCase (s ++ t) = (toLowerCase s ++ toLowerCase t)%string.
Proof.
  induction s as [|c s IH]; [reflexivity|].
  rewrite append_cons. simpl. now rewrite IH.
Qed.

Lemma replaceWhiteSpaceFrom_hyphen (b : bool) (s t : string) :
  replaceWhiteSpaceFrom b (s ++ String "-" t)
  = (replaceWhiteSpaceFrom b s ++ String "-" (replaceWhiteSpaceFrom false t))%string.
Proof.
  revert b. induction s as [|c s IH]; intros b; [reflexivity|].
  rewrite append_cons. simpl.
  destruct (isWhiteSpace c); [destruct b|]; rewrite IH; reflexivity.
Qed.

Lemma replaceSlashes_app (s t : string) :
  replaceSlashes (s ++ t) = (replaceSlashes s ++ replaceSlashes t)%string.
Proof.
  induction s as [|c s IH]; [reflexivity|].
  rewrite append_cons. simpl. now rewrite IH.
Qed.

Lemma stripNonSlug_app (s t : string) :
  stripNonSlug (s ++ t) = (stripNonSlug s ++ stripNonSlug t)%string.
Proof.
  induction s as [|c s IH]; [reflexivity|].
  rewrite append_cons. simpl. destruct (isSlugChar c); now rewrite IH.
Qed.

Lemma stripNonSlug_chars (s : string) :
  forallb isSlugChar (stripNonSlug s) = true.
Proof.
  induction s as [|c s IH]; [reflexivity|]. simpl.
  destruct (isSlugChar c) eqn:E; [simpl; now rewrite E|exact IH].
Qed.

(** Slugging a joined text is slugging its parts. *)
Lemma slug_join (s t : string) :
  slug (s ++ "--" ++ t) = (slug s ++ "--" ++ slug t)%string.
Proof.
  unfold slug, replaceWhiteSpace. rewrite toLowerCase_app.
  change (toLowerCase ("--" ++ t)) with (String "-" (String "-" (toLowerCase t))).
  rewrite replaceWhiteSpaceFrom_hyphen.
  change (replaceWhiteSpaceFrom false (String "-" (toLowerCase t)))
    with (String "-" (replaceWhiteSpaceFrom false (toLowerCase t))).
  rewrite replaceSlashes_app, stripNonSlug_app. reflexivity.
Qed.

(** An id has no underscore: it is never the key [__proto__]. *)
Lemma generateStoryId_not_prototype (title name : value) :
  generateStoryId title name <> "__proto__".
Proof.
  intros E.
  pose proof (stripNonSlug_chars
                (replaceSlashes
                   (replaceWhiteSpace
                      (toLowerCase (jsToString title ++ "--" ++ jsToString name)))))
    as H.
  fold (generateStoryId title name) in H. rewrite E in H. discriminate.
Qed.

(** With a hyphen-free text after it, the separator of an id is its last
    one: the two parts can be read back. *)
Lemma last_separator (t1 t2 n1 n2 : string) :
  hyphenFree n1 = true -> hyphenFree n2 = true ->
  (t1 ++ "--" ++ n1 = t2 ++ "--" ++ n2)%string -> t1 = t2 /\ n1 = n2.
Proof.
  assert (Hno : forall t n, hyphenFree (t ++ String "-" n) = false).
  { intros t n. unfold hyphenFree. rewrite forallb_app. simpl.
    apply andb_false_r. }
  intros H1 H2. revert t2.
  induction t1 as [|c t1 IH]; intros [|d t2] E;
    rewrite ?append_nil, ?append_cons in E.
  - injection E as E. auto.
  - injection E as <- E. destruct t2 as [|e t2];
      rewrite ?append_nil, ?append_cons in E.
    + injection E as E. rewrite E in H1. discriminate.
    + injection E as _ E. rewrite E, Hno in H1. discriminate.
  - injection E as -> E. destruct t1 as [|e t1];
      rewrite ?append_nil, ?append_cons in E.
    + injection E as E. rewrite <- E in H2. discriminate.
    + injection E as _ E. rewrite <- E, Hno in H2. discriminate.
  - injection E as -> E. destruct (IH t2 E) as [-> ->]. auto.
Qed.

End IdFacts.

(** C2, as stated, fails: two distinct (title, name) pairs with one id.  A
    space and a slash in the title both become a hyphen. *)
Lemma generateStoryId_not_injective :
  ~ (forall t1 n1 t2 n2 : string,
        (t1, n1) <> (t2, n2) ->
        generateStoryId (VStr t1) (VStr n1) <> generateStoryId (VStr t2) (VStr n2)).
Proof.
  intros H. apply (H "A B" "x" "A/B" "x"); [discriminate | reflexivity].
Qed.

(** C2, amended: the id is a function of the (title, name) pair that
    depends on the slugs of the two parts only; when the slugs of the two
    names have no hyphen, two ids are equal exactly when the titles have
    the same slug and the names have the same slug. *)
Theorem generateStoryId_injective_on_slugs (t1 n1 t2 n2 : string) :
  hyphenFree (slug n1) = true -> hyphenFree (slug n2) = true ->
  generateStoryId (VStr t1) (VStr n1) = generateStoryId (VStr t2) (VStr n2)
  <-> slug t1 = slug t2 /\ slug n1 = slug n2.
Proof.
  intros H1 H2.
  assert (E : forall t n, generateStoryId (VStr t) (VStr n)
                          = (slug t ++ "--" ++ slug n)%string)
    by (intros t n; apply slug_join).
  rewrite !E. split.
  - now apply last_separator.
  - intros [-> ->]. reflexivity.
Qed.

Lemma generateStoryId_injective_on_slugs_witness :
  (generateStoryId (VStr "Components/Button") (VStr "Primary")
   = generateStoryId (VStr "components button") (VStr "PRIMARY"))
  /\ generateStoryId (VStr "Components/Button") (VStr "Primary")
     <> generateStoryId (VStr "Components/Card") (VStr "Primary").
Proof.
  split.
  - apply (generateStoryId_injective_on_slugs
             "Components/Button" "Primary" "components button" "PRIMARY");
      [reflexivity | reflexivity | split; reflexivity].
  - intros E.
    apply (generateStoryId_injective_on_slugs
             "Components/Button" "Primary" "Components/Card" "Primary")
      in E as [E _]; [discriminate | reflexivity | reflexivity].
Defined.

(** ** The value normalizer *)

(** [extractValue] of an object literal is [extractObjectLiteral] of it. *)
Lemma extractValue_object (props : list property) :
  extractValue (ObjectExpression props)
  = VObj (extractObjectLiteral (ObjectExpression props)).
Proof.
  simpl. f_equal. generalize (@nil (string * value)).
  induction props as [|p props IH]; intros acc; simpl; [reflexivity|].
  rewrite IH. f_equal. unfold extractProperty.
  destruct p as [k v|k|a]; simpl; try destruct (propertyKey k); reflexivity.
Qed.

(** C6: function and arrow-function expressions normalize to the marker
    "[Function]", JSX elements and fragments to "[JSX Element]", an
    identifier to its name, a type assertion to the normalization of the
    expression it wraps, and a node of any kind that the switch does not
    list to null. *)
Theorem extractValue_by_kind (n : node) :
  (n = ArrowFunctionExpression \/ n = FunctionExpression ->
   extractValue n = VStr "[Function]") /\
  (n = JSXElement \/ n = JSXFragment ->
   extractValue n = VStr "[JSX Element]") /\
  (forall x, n = Identifier x -> extractValue n = VStr x) /\
  (forall e, n = TSAsExpression e -> extractValue n = extractValue e) /\
  (~ In (node_type n) switchCases -> extractValue n = VNull).
Proof.
  repeat split.
  - intros [-> | ->]; reflexivity.
  - intros [-> | ->]; reflexivity.
  - intros x ->. reflexivity.
  - intros e ->. reflexivity.
  - intros H. destruct n; try reflexivity;
      exfalso; apply H; cbn; tauto.
Qed.

Lemma extractValue_by_kind_witness :
  ~ In (node_type (OtherNode "CallExpression")) switchCases /\
  extractValue (OtherNode "CallExpression") = VNull.
Proof.
  assert (H : ~ In (node_type (OtherNode "CallExpression")) switchCases).
  { cbn. intuition discriminate. }
  split; [exact H|].
  apply (extractValue_by_kind (OtherNode "CallExpression")). exact H.
Defined.

(** C7: an array literal normalizes to the sequence of its normalized
    elements without those that normalize to null; null does not occur in
    the result, and an element that normalizes to null (a null literal, a
    hole, an unsupported expression) leaves no trace in it. *)
Theorem extractValue_array (els : list (option node)) :
  extractValue (ArrayExpression els)
  = VArr (List.filter (fun v => negb (is_null v)) (map extractElement els))
  /\ ~ In VNull (List.filter (fun v => negb (is_null v)) (map extractElement els))
  /\ (forall l1 el l2,
         els = l1 ++ el :: l2 -> extractElement el = VNull ->
         extractValue (ArrayExpression els) = extractValue (ArrayExpression (l1 ++ l2))).
Proof.
  assert (E : forall l, extractValue (ArrayExpression l)
    = VArr (List.filter (fun v => negb (is_null v)) (map extractElement l)))
    by reflexivity.
  split; [apply E|]. split.
  - intros [_ H]%filter_In. discriminate.
  - intros l1 el l2 -> Hel. rewrite !E. f_equal.
    rewrite !List.map_app, !List.filter_app. simpl. rewrite Hel. reflexivity.
Qed.

Lemma extractValue_array_witness :
  extractValue (ArrayExpression
                  [Some (NumericLiteral 1); Some NullLiteral;
                   Some (OtherNode "CallExpression"); Some (StringLiteral "a")])
  = extractValue (ArrayExpression
                    [Some (NumericLiteral 1);
                     Some (OtherNode "CallExpression"); Some (StringLiteral "a")]).
Proof.
  apply (proj2 (proj2 (extractValue_array _)) [Some (NumericLiteral 1)]
           (Some NullLiteral)
           [Some (OtherNode "CallExpression"); Some (StringLiteral "a")]);
    reflexivity.
Defined.

(** ** Source-file extraction *)

Lemma processFile_button (f : SourceFile) (code : string)
    (stories : gmap string StoryRecord.t) :
  source f = Ok code -> parsed f = Ok buttonStories ->
  processFile f stories
  = (<["components-button--primary" := buttonPrimary (relativePath f) code]> stories,
     None).
Proof.
  intros Hs Hp. unfold processFile. rewrite Hs, Hp. reflexivity.
Qed.

(** C5: for the file that default-exports
    { title: "Components/Button", argTypes: { variant: { control: { type:
    "select" } } } }, exports Primary and assigns Primary.args =
    { variant: "primary", disabled: false }, source-file extraction yields
    a record under the id "components-button--primary" with that id, those
    args, and argTypes.variant.control.type equal to "select". *)
Theorem button_example (w : World) (f : SourceFile) (code : string) :
  parserInstalled w = true -> srcDirExists w = true ->
  storyFiles w = Ok [f] ->
  source f = Ok code -> parsed f = Ok buttonStories ->
  exists c r,
    fst (extractFromSourceFiles w) = Some c
    /\ Catalog.stories c !! "components-button--primary" = Some r
    /\ Catalog.totalStories c = 1
    /\ StoryRecord.id r = VStr "components-button--primary"
    /\ StoryRecord.args r
       = VObj [("variant", VStr "primary"); ("disabled", VBool false)]
    /\ path (Some (StoryRecord.argTypes r)) ["variant"; "control"; "type"]
       = Some (VStr "select").
Proof.
  intros Hp Hd Hf Hs Ha.
  unfold extractFromSourceFiles. rewrite Hp, Hd, Hf. simpl.
  rewrite (processFile_button f code _ Hs Ha).
  eexists _, (buttonPrimary (relativePath f) code). simpl.
  split; [reflexivity|]. split; [apply lookup_insert_eq|].
  split; [apply map_size_singleton|]. repeat split.
Qed.

Lemma button_example_witness :
  exists c r,
    fst (extractFromSourceFiles (sourceOnly [buttonFile])) = Some c
    /\ Catalog.stories c !! "components-button--primary" = Some r
    /\ Catalog.totalStories c = 1
    /\ StoryRecord.id r = VStr "components-button--primary"
    /\ StoryRecord.args r
       = VObj [("variant", VStr "primary"); ("disabled", VBool false)]
    /\ path (Some (StoryRecord.argTypes r)) ["variant"; "control"; "type"]
       = Some (VStr "select").
Proof.
  apply (button_example (sourceOnly [buttonFile]) buttonFile
           "export default { title: 'Components/Button' }"); reflexivity.
Defined.

Section StoreFacts.

Lemma setStory_insert (id : string) (r : StoryRecord.t)
    (s : gmap string StoryRecord.t) :
  id <> "__proto__" -> setStory id r s = <[id := r]> s.
Proof.
  intros H. unfold setStory, string_eqb.
  now rewrite (proj2 (String.eqb_neq id "__proto__") H).
Qed.

Lemma setStory_prototype (r : StoryRecord.t) (s : gmap string StoryRecord.t) :
  setStory "__proto__" r s = s.
Proof. reflexivity. Qed.

Lemma setStory_lookup (id k : string) (r : StoryRecord.t)
    (s : gmap string StoryRecord.t) :
  setStory id r s !! k
  = if decide (id = k /\ k <> "__proto__") then Some r else s !! k.
Proof.
  destruct (decide (id = "__proto__")) as [->|Hne].
  - rewrite setStory_prototype. case_decide as H; [|reflexivity].
    destruct H as [<- H]. contradiction.
  - rewrite (setStory_insert _ _ _ Hne). destruct (decide (id = k)) as [<-|Hk].
    + rewrite lookup_insert_eq. case_decide as H; [reflexivity|].
      exfalso. auto.
    + rewrite lookup_insert_ne by exact Hk. case_decide as H; [|reflexivity].
      destruct H as [H _]. contradiction.
Qed.

(** The id of a record is the id of the title and the story key. *)
Lemma buildStoryRecord_key (m : Meta.t) (rel code key : string)
    (sd : StoryData.t) (id : string) (r : StoryRecord.t) :
  buildStoryRecord m rel code key sd = Ok (id, r) ->
  id = generateStoryId (Meta.title m) (VStr key).
Proof.
  unfold buildStoryRecord.
  destruct (extractActionsFromArgs _ _); [|discriminate].
  cbn [mbind result_bind]. now intros [= <- _].
Qed.

(** The id of a record of the source-file strategy is never [__proto__]. *)
Lemma buildStoryRecord_id (m : Meta.t) (rel code key : string)
    (sd : StoryData.t) (id : string) (r : StoryRecord.t) :
  buildStoryRecord m rel code key sd = Ok (id, r) -> id <> "__proto__".
Proof.
  unfold buildStoryRecord.
  destruct (extractActionsFromArgs _ _); [|discriminate].
  cbn [mbind result_bind]. intros [= <- _]. apply generateStoryId_not_prototype.
Qed.

Lemma writeStories_cons (m : Meta.t) (rel code key : string) (sd : StoryData.t)
    (entries : storyTable) (s : gmap string StoryRecord.t) :
  writeStories m rel code ((key, sd) :: entries) s
  = match buildStoryRecord m rel code key sd with
    | Throw e => (s, Some e)
    | Ok (id, r) => writeStories m rel code entries (<[id := r]> s)
    end.
Proof.
  cbn [writeStories].
  destruct (buildStoryRecord m rel code key sd) as [[id r]|] eqn:E; [|reflexivity].
  now rewrite (setStory_insert id r s (buildStoryRecord_id _ _ _ _ _ _ _ E)).
Qed.

End StoreFacts.

Section FileLoop.

Lemma processFiles_app (l1 l2 : list SourceFile)
    (stories : gmap string StoryRecord.t) (warnings : list string) :
  processFiles (l1 ++ l2) stories warnings
  = processFiles l2 (fst (processFiles l1 stories warnings))
                    (snd (processFiles l1 stories warnings)).
Proof.
  revert stories warnings.
  induction l1 as [|f l1 IH]; intros stories warnings; simpl; [reflexivity|].
  destruct (processFile f stories) as [stories' [e|]]; apply IH.
Qed.

(** The warnings do not influence the stories. *)
Lemma processFiles_stories (l : list SourceFile)
    (stories : gmap string StoryRecord.t) (ws ws' : list string) :
  fst (processFiles l stories ws) = fst (processFiles l stories ws').
Proof.
  revert stories ws ws'.
  induction l as [|f l IH]; intros stories ws ws'; simpl; [reflexivity|].
  destruct (processFile f stories) as [stories' [e|]]; apply IH.
Qed.

(** A warning, once printed, stays printed. *)
Lemma processFiles_warnings (l : list SourceFile)
    (stories : gmap string StoryRecord.t) (ws : list string) (x : string) :
  In x ws -> In x (snd (processFiles l stories ws)).
Proof.
  revert stories ws.
  induction l as [|f l IH]; intros stories ws Hx; simpl; [exact Hx|].
  destruct (processFile f stories) as [stories' [e|]]; apply IH; [|exact Hx].
  apply in_or_app. now left.
Qed.

(** A file whose parse throws leaves the stories as they are. *)
Lemma processFile_unparsable (f : SourceFile) (code : string) (e : exn)
    (stories : gmap string StoryRecord.t) :
  source f = Ok code -> parsed f = Throw e ->
  processFile f stories = (stories, Some e).
Proof.
  intros Hs Hp. unfold processFile. now rewrite Hs, Hp.
Qed.

End FileLoop.

Section SourceRun.

Lemma or_else_truthy (a : option value) (b : value) :
  truthy b = true -> truthy (or_else a b) = true.
Proof.
  intros Hb. destruct a as [v|]; simpl; [|exact Hb].
  destruct (truthy v) eqn:E; [exact E | exact Hb].
Qed.

Lemma buildStoryRecord_sourceRecord (m : Meta.t) (rel code key : string)
    (sd : StoryData.t) (id : string) (r : StoryRecord.t) :
  buildStoryRecord m rel code key sd = Ok (id, r) -> sourceRecord id r.
Proof.
  unfold buildStoryRecord.
  destruct (extractActionsFromArgs _ _) as [acts|]; [|discriminate].
  cbn [mbind result_bind]. intros [= <- <-]. unfold sourceRecord.
  cbn [StoryRecord.id StoryRecord.kind StoryRecord.title StoryRecord.story
       StoryRecord.name StoryRecord.initialArgs StoryRecord.args StoryRecord.type
       StoryRecord.argTypes StoryRecord.actions StoryRecord.tags StoryRecord.docs
       StoryRecord.source].
  split; [reflexivity|]. split; [apply stripNonSlug_chars|].
  split; [reflexivity|]. split; [reflexivity|]. split; [reflexivity|].
  split; [apply (or_else_truthy (Some (Meta.title m)) (VStr "Unknown")); reflexivity|].
  split; [reflexivity|].
  repeat (split; [eexists; reflexivity|]). reflexivity.
Qed.

(** The writes of a file lie over whatever the catalog held. *)
Lemma writeStories_overlay (m : Meta.t) (rel code : string) (entries : storyTable)
    (s : gmap string StoryRecord.t) :
  fst (writeStories m rel code entries s)
  = fst (writeStories m rel code entries ∅) ∪ s.
Proof.
  revert s. induction entries as [|[key sd] entries IH]; intros s;
    [simpl|rewrite !writeStories_cons].
  - now rewrite (left_id_L ∅ (∪)).
  - destruct (buildStoryRecord m rel code key sd) as [[id r]|]; simpl.
    + rewrite (IH (<[id:=r]> s)), (IH (<[id:=r]> ∅)).
      rewrite (insert_union_singleton_l s), (insert_union_singleton_l ∅).
      rewrite (right_id_L ∅ (∪)). now rewrite (assoc_L (∪)).
    + now rewrite (left_id_L ∅ (∪)).
Qed.

Lemma processFile_overlay (f : SourceFile) (s : gmap string StoryRecord.t) :
  fst (processFile f s) = fst (processFile f ∅) ∪ s.
Proof.
  unfold processFile.
  destruct (source f) as [code|]; [|simpl; now rewrite (left_id_L ∅ (∪))].
  destruct (parsed f) as [visits|]; [|simpl; now rewrite (left_id_L ∅ (∪))].
  destruct (traverse visits) as [[m t]|]; [|simpl; now rewrite (left_id_L ∅ (∪))].
  apply writeStories_overlay.
Qed.

Lemma processFiles_cons (f : SourceFile) (l : list SourceFile)
    (s : gmap string StoryRecord.t) (ws : list string) :
  fst (processFiles (f :: l) s ws) = fst (processFiles l (fst (processFile f s)) ws).
Proof.
  simpl. destruct (processFile f s) as [s' [e|]]; simpl;
    [apply processFiles_stories | reflexivity].
Qed.

Lemma processFiles_untouched (l : list SourceFile) (s : gmap string StoryRecord.t)
    (ws : list string) (id : string) :
  Forall (fun g => fst (processFile g ∅) !! id = None) l ->
  fst (processFiles l s ws) !! id = s !! id.
Proof.
  revert s. induction l as [|g l IH]; intros s Hl; [reflexivity|].
  apply Forall_cons in Hl as [Hg Hl]. rewrite processFiles_cons, (IH _ Hl).
  rewrite processFile_overlay. rewrite lookup_union_r; [reflexivity | exact Hg].
Qed.

Lemma writeStories_inv (P : string -> StoryRecord.t -> Prop)
    (m : Meta.t) (rel code : string) (entries : storyTable)
    (s : gmap string StoryRecord.t) :
  (forall key sd id r, buildStoryRecord m rel code key sd = Ok (id, r) -> P id r) ->
  map_Forall P s -> map_Forall P (fst (writeStories m rel code entries s)).
Proof.
  intros HP. revert s. induction entries as [|[key sd] entries IH]; intros s Hs;
    [exact Hs|]. rewrite writeStories_cons.
  destruct (buildStoryRecord m rel code key sd) as [[id r]|] eqn:E; simpl; [|exact Hs].
  apply IH. apply map_Forall_insert_2; eauto.
Qed.

Lemma processFiles_inv (P : string -> StoryRecord.t -> Prop)
    (l : list SourceFile) (s : gmap string StoryRecord.t) (ws : list string) :
  (forall m rel code key sd id r,
      buildStoryRecord m rel code key sd = Ok (id, r) -> P id r) ->
  map_Forall P s -> map_Forall P (fst (processFiles l s ws)).
Proof.
  intros HP. revert s ws. induction l as [|f l IH]; intros s ws Hs; [exact Hs|].
  rewrite processFiles_cons. apply IH. unfold processFile.
  destruct (source f) as [code|]; [|exact Hs].
  destruct (parsed f) as [visits|]; [|exact Hs].
  destruct (traverse visits) as [[m t]|]; [|exact Hs].
  apply writeStories_inv; eauto.
Qed.

Lemma processFile_unparsable' (f : SourceFile) (s : gmap string StoryRecord.t) :
  unparsable f -> exists e, processFile f s = (s, Some e).
Proof.
  unfold processFile. intros [[e He] | [e He]].
  - rewrite He. eauto.
  - rewrite He. destruct (source f); eauto.
Qed.

Lemma processFiles_all_unparsable (l : list SourceFile)
    (s : gmap string StoryRecord.t) (ws : list string) :
  Forall unparsable l ->
  fst (processFiles l s ws) = s
  /\ length (snd (processFiles l s ws)) = length ws + length l.
Proof.
  revert ws. induction l as [|f l IH]; intros ws Hl; simpl; [split; [reflexivity|lia]|].
  apply Forall_cons in Hl as [Hf Hl].
  destruct (processFile_unparsable' f s Hf) as [e ->].
  destruct (IH (ws ++ [couldNotParse f e]) Hl) as [-> ->].
  split; [reflexivity|]. rewrite length_app. simpl. lia.
Qed.

(** What is written stays: later stories and later files add or replace
    records, they remove none. *)
Lemma writeStories_keeps (m : Meta.t) (rel code : string) (entries : storyTable)
    (s : gmap string StoryRecord.t) (id : string) :
  is_Some (s !! id) -> is_Some (fst (writeStories m rel code entries s) !! id).
Proof.
  intros H. rewrite writeStories_overlay. apply lookup_union_is_Some. now right.
Qed.

Lemma processFiles_keeps (l : list SourceFile) (s : gmap string StoryRecord.t)
    (ws : list string) (id : string) :
  is_Some (s !! id) -> is_Some (fst (processFiles l s ws) !! id).
Proof.
  revert s. induction l as [|g l IH]; intros s H; [exact H|].
  rewrite processFiles_cons. apply IH. rewrite processFile_overlay.
  apply lookup_union_is_Some. now right.
Qed.

(** When the loop over a table ends without an error, on whatever catalog,
    every story of the table has its id written. *)
Lemma writeStories_written (m : Meta.t) (rel code : string) (entries : storyTable)
    (s0 s : gmap string StoryRecord.t) (key : string) (sd : StoryData.t) :
  snd (writeStories m rel code entries s0) = None ->
  In (key, sd) entries ->
  is_Some (fst (writeStories m rel code entries s)
             !! generateStoryId (Meta.title m) (VStr key)).
Proof.
  revert s0 s.
  induction entries as [|[k0 sd0] entries IH]; intros s0 s Hok Hin; [destruct Hin|].
  rewrite writeStories_cons in Hok |- *.
  destruct (buildStoryRecord m rel code k0 sd0) as [[id0 r0]|] eqn:E;
    [|discriminate].
  destruct Hin as [[= -> ->] | Hin]; [|now apply (IH _ _ Hok)].
  apply buildStoryRecord_key in E as ->.
  apply writeStories_keeps. rewrite lookup_insert_eq. eauto.
Qed.

End SourceRun.

(** C8: in a run over story files, a file whose parse throws is skipped
    with a warning and writes no story; the run still answers a catalog,
    which is the catalog of the run over the other files alone.  Every
    other file is processed: in a run whose files make no use of the name
    [__proto__], when the processing of a file raises no error, each story
    of its table has its id in the catalog, with a record carrying that id
    (a numeric title is taken below 10^21); and a record that a file writes
    under an id is the one in the catalog unless a later file writes that
    id. *)
Theorem unparsable_file_skipped (w : World) (before after : list SourceFile)
    (bad : SourceFile) (code : string) (e : exn) :
  parserInstalled w = true -> srcDirExists w = true ->
  storyFiles w = Ok (before ++ bad :: after) ->
  source bad = Ok code -> parsed bad = Throw e ->
  exists c,
    fst (extractFromSourceFiles w) = Some c
    /\ In (couldNotParse bad e) (snd (extractFromSourceFiles w))
    /\ (forall stories, fst (processFile bad stories) = stories)
    /\ fst (extractFromSourceFiles (withStoryFiles w (Ok (before ++ after)))) = Some c
    /\ (forall g gcode visits m table key sd,
          Forall (fun h => fileUsesPrototype h = false) (before ++ after) ->
          In g (before ++ after) ->
          source g = Ok gcode -> parsed g = Ok visits ->
          traverse visits = Ok (m, table) ->
          snd (processFile g ∅) = None ->
          decimalNumber (Meta.title m) = true ->
          In (key, sd) table ->
          exists r,
            Catalog.stories c !! generateStoryId (Meta.title m) (VStr key) = Some r
            /\ StoryRecord.id r = VStr (generateStoryId (Meta.title m) (VStr key)))
    /\ (forall l1 g l2 id r,
          before ++ after = l1 ++ g :: l2 ->
          fst (processFile g ∅) !! id = Some r ->
          Forall (fun h => fst (processFile h ∅) !! id = None) l2 ->
          Catalog.stories c !! id = Some r).
Proof.
  intros Hp Hd Hf Hs Ha.
  assert (Hbad := fun s => processFile_unparsable bad code e s Hs Ha).
  unfold extractFromSourceFiles. simpl. rewrite Hp, Hd, Hf. simpl.
  rewrite !processFiles_app. simpl. rewrite Hbad.
  destruct (processFiles before ∅ []) as [s1 w1] eqn:E1. simpl.
  destruct (processFiles after s1 (w1 ++ [couldNotParse bad e])) as [s2 w2] eqn:E2.
  destruct (processFiles after s1 w1) as [s3 w3] eqn:E3.
  assert (s2 = s3) as <-.
  { change s2 with (fst (s2, w2)). change s3 with (fst (s3, w3)).
    rewrite <- E2, <- E3. apply processFiles_stories. }
  assert (Hrun : s2 = fst (processFiles (before ++ after) ∅ [])).
  { rewrite processFiles_app, E1. simpl. now rewrite E3. }
  eexists. split; [reflexivity|]. split; [|split; [|split; [|split]]].
  - simpl. change w2 with (snd (s2, w2)). rewrite <- E2.
    apply processFiles_warnings, in_or_app. right. now left.
  - intros s. now rewrite Hbad.
  - reflexivity.
  - intros g gcode visits m table key sd _ Hg Hgs Hgp Hgt Hok _ Hin. simpl.
    apply in_split in Hg as (l1 & l2 & Hl).
    assert (Hx : is_Some (s2 !! generateStoryId (Meta.title m) (VStr key))).
    { rewrite Hrun, Hl, processFiles_app, processFiles_cons.
      apply processFiles_keeps. unfold processFile in Hok |- *.
      rewrite Hgs, Hgp, Hgt in Hok |- *.
      exact (writeStories_written m _ _ table ∅ _ key sd Hok Hin). }
    destruct Hx as [r Hr]. exists r. split; [exact Hr|].
    pose proof (processFiles_inv sourceRecord (before ++ after) ∅ []
                  (fun m rel code key sd =>
                     buildStoryRecord_sourceRecord m rel code key sd)
                  (map_Forall_empty _)) as Hinv.
    rewrite <- Hrun in Hinv. exact (proj1 (Hinv _ _ Hr)).
  - intros l1 g l2 id r Hl Hr Hafter. simpl.
    rewrite Hrun, Hl, processFiles_app, processFiles_cons,
      (processFiles_untouched _ _ _ _ Hafter).
    rewrite processFile_overlay. now apply lookup_union_Some_l.
Qed.

Lemma unparsable_file_skipped_witness :
  exists c,
    fst (extractFromSourceFiles (sourceOnly [brokenFile; buttonFile])) = Some c
    /\ In (couldNotParse brokenFile (Error "Unexpected token (1:16)"))
          (snd (extractFromSourceFiles (sourceOnly [brokenFile; buttonFile])))
    /\ (exists r,
          Catalog.stories c
            !! generateStoryId (VStr "Components/Button") (VStr "Primary") = Some r
          /\ StoryRecord.id r
             = VStr (generateStoryId (VStr "Components/Button") (VStr "Primary")))
    /\ Catalog.stories c !! "components-button--primary"
       = Some (buttonPrimary "./src/Button.stories.js"
                 "export default { title: 'Components/Button' }").
Proof.
  destruct (unparsable_file_skipped (sourceOnly [brokenFile; buttonFile])
              [] [buttonFile] brokenFile "export default {"
              (Error "Unexpected token (1:16)") eq_refl eq_refl eq_refl eq_refl eq_refl)
    as (c & Hc & Hw & _ & _ & Hin & Hlast).
  exists c. split; [exact Hc|]. split; [exact Hw|]. split.
  - apply (Hin buttonFile "export default { title: 'Components/Button' }"
             buttonStories
             (Meta.mk (VStr "Components/Button") VNull
                [("variant", VObj [("control", VObj [("type", VStr "select")])])]
                [] (Some []))
             [("Primary",
               StoryData.mk "Primary"
                 [("variant", VStr "primary"); ("disabled", VBool false)]
                 (VStr "Primary"))]
             "Primary"
             (StoryData.mk "Primary"
                [("variant", VStr "primary"); ("disabled", VBool false)]
                (VStr "Primary")));
      try reflexivity.
    + constructor; [reflexivity | constructor].
    + now left.
    + now left.
  - apply (Hlast [] buttonFile []); [reflexivity | | constructor].
    apply lookup_insert_eq.
Defined.

(** ** Files without a title *)

Section Untitled.

Lemma metaProperty_title (meta meta' : Meta.t) (p : property) :
  named p "title" && truthy_opt (prop_literal p) = false ->
  metaProperty meta p = Ok meta' -> Meta.title meta' = Meta.title meta.
Proof.
  intros Hp. destruct meta as [t c a ps tg]. unfold metaProperty.
  rewrite Hp. intros H.
  repeat (case_match; simplify_eq; try reflexivity).
  all: match goal with
       | H : mbind _ ?x = Ok _ |- _ =>
           destruct x; cbn [mbind result_bind] in H; simplify_eq; reflexivity
       end.
Qed.

Lemma foldlM_metaProperty_title (props : list property) (meta meta' : Meta.t) :
  existsb (fun p => named p "title" && truthy_opt (prop_literal p)) props = false ->
  foldlM metaProperty props meta = Ok meta' -> Meta.title meta' = Meta.title meta.
Proof.
  revert meta. induction props as [|p props IH]; intros meta; simpl.
  - intros _ [= <-]. reflexivity.
  - intros [Hp Hps]%orb_false_iff H.
    destruct (metaProperty meta p) as [m1|] eqn:E; simpl in H; [|discriminate].
    rewrite (IH _ Hps H). eauto using metaProperty_title.
Qed.

Lemma extractMetaObject_title (d : node) (meta : Meta.t) :
  declaresTitle d = false ->
  extractMetaObject d = Ok meta -> Meta.title meta = VStr "".
Proof.
  induction d; simpl; intros Hd H; try (injection H as <-; reflexivity).
  - now rewrite (foldlM_metaProperty_title _ _ _ Hd H).
  - auto.
Qed.

Lemma visitNode_title (st st' : Meta.t * storyTable) (v : visit) :
  (forall d, v = ExportDefaultDeclaration d -> declaresTitle d = false) ->
  Meta.title (fst st) = VStr "" ->
  visitNode st v = Ok st' -> Meta.title (fst st') = VStr "".
Proof.
  intros Hv Ht. destruct st as [m t]. destruct v as [d|[[ids|id|ty]|]|l r]; simpl.
  - destruct (extractMetaObject d) as [m1|] eqn:E; simpl; [|discriminate].
    intros [= <-]. simpl. eauto using extractMetaObject_title.
  - intros [= <-]. exact Ht.
  - intros [= <-]. exact Ht.
  - intros [= <-]. exact Ht.
  - intros [= <-]. exact Ht.
  - intros [= <-]. exact Ht.
Qed.

Lemma foldlM_visitNode_title (visits : list visit) (st st' : Meta.t * storyTable) :
  (forall d, In (ExportDefaultDeclaration d) visits -> declaresTitle d = false) ->
  Meta.title (fst st) = VStr "" ->
  foldlM visitNode visits st = Ok st' -> Meta.title (fst st') = VStr "".
Proof.
  revert st. induction visits as [|v visits IH]; intros st Hv Ht; simpl.
  - intros [= <-]. exact Ht.
  - destruct (visitNode st v) as [st1|] eqn:E; simpl; [|discriminate].
    apply IH; [intros d Hd; apply Hv; now right|].
    apply (visitNode_title st st1 v); auto.
    intros d ->. apply Hv. now left.
Qed.

(** Every record present after the loop was there before or was built
    from one of the entries. *)
Lemma writeStories_lookup (metaExport : Meta.t) (rel code : string)
    (entries : storyTable) (stories : gmap string StoryRecord.t)
    (id : string) (r : StoryRecord.t) :
  fst (writeStories metaExport rel code entries stories) !! id = Some r ->
  stories !! id = Some r
  \/ exists key sd, In (key, sd) entries
                    /\ buildStoryRecord metaExport rel code key sd = Ok (id, r).
Proof.
  revert stories. induction entries as [|[key sd] entries IH]; intros stories;
    [simpl|rewrite writeStories_cons].
  - auto.
  - destruct (buildStoryRecord metaExport rel code key sd) as [[id' r']|] eqn:E;
      simpl; [|auto].
    intros [H | (k & s & Hin & Hb)]%IH.
    + destruct (decide (id' = id)) as [->|Hne].
      * rewrite lookup_insert_eq in H. injection H as ->. right. eauto.
      * rewrite lookup_insert_ne in H by exact Hne. auto.
    + right. eauto.
Qed.

Lemma prefix_empty (s : string) : String.prefix "" s = true.
Proof. destruct s; reflexivity. Qed.

Lemma generateStoryId_untitled (key : string) :
  JsString.startsWith "--" (generateStoryId (VStr "") (VStr key)) = true.
Proof.
  unfold generateStoryId, JsString.startsWith. simpl. apply prefix_empty.
Qed.

End Untitled.

(** C10, as stated, fails: the claim counts a title that is not a string
    literal among the files without a title, but a numeric literal is a
    literal with a truthy value.  The file that default-exports
    { title: 123 } has a record whose title and kind are the number 123,
    not "Unknown", and whose id "123--primary" does not begin with "--". *)
Lemma numeric_title_is_kept :
  exists r,
    fst (processFile numericTitleFile ∅) !! "123--primary" = Some r
    /\ StoryRecord.title r = VNum 123
    /\ StoryRecord.kind r = VNum 123
    /\ StoryRecord.title r <> VStr "Unknown"
    /\ StoryRecord.id r = VStr "123--primary"
    /\ JsString.startsWith "--" "123--primary" = false
    /\ fst (processFile numericTitleFile ∅) !! "--primary" = None.
Proof.
  destruct (fst (processFile numericTitleFile ∅) !! "123--primary") as [r|] eqn:E;
    vm_compute in E; [|discriminate].
  injection E as <-. eexists. split; [reflexivity|].
  repeat split. discriminate.
Qed.

(** C10, amended: when no default export of a file is an object literal,
    under any type assertions, with a title property whose value is a
    literal with a truthy value (of any type), every record built from the
    file has title and kind "Unknown", and its id is generated from the
    empty title and begins with "--". *)
Theorem untitled_file_records (f : SourceFile) (code : string)
    (visits : list visit) (id : string) (r : StoryRecord.t) :
  source f = Ok code -> parsed f = Ok visits ->
  (forall d, In (ExportDefaultDeclaration d) visits -> declaresTitle d = false) ->
  fst (processFile f ∅) !! id = Some r ->
  StoryRecord.title r = VStr "Unknown"
  /\ StoryRecord.kind r = VStr "Unknown"
  /\ StoryRecord.id r = VStr id
  /\ (exists key, id = generateStoryId (VStr "") (VStr key))
  /\ JsString.startsWith "--" id = true.
Proof.
  intros Hs Hp Hv. unfold processFile. rewrite Hs, Hp.
  destruct (traverse visits) as [[m t]|] eqn:E; simpl;
    [|rewrite lookup_empty; discriminate].
  assert (Ht : Meta.title m = VStr "").
  { apply (foldlM_visitNode_title visits (Meta.placeholder, []) (m, t)); auto. }
  intros [H | (key & sd & _ & Hb)]%writeStories_lookup.
  - rewrite lookup_empty in H. discriminate.
  - unfold buildStoryRecord in Hb. rewrite Ht in Hb.
    destruct (extractActionsFromArgs _ _); simpl in Hb; [|discriminate].
    injection Hb as <- <-. simpl.
    split; [reflexivity|]. split; [reflexivity|]. split; [reflexivity|].
    split; [exists key; reflexivity | apply generateStoryId_untitled].
Qed.

Lemma untitled_file_records_witness :
  exists r,
    fst (processFile untitledFile ∅) !! "--primary" = Some r
    /\ StoryRecord.title r = VStr "Unknown"
    /\ StoryRecord.kind r = VStr "Unknown"
    /\ StoryRecord.id r = VStr "--primary"
    /\ (exists key, "--primary" = generateStoryId (VStr "") (VStr key))
    /\ JsString.startsWith "--" "--primary" = true.
Proof.
  destruct (fst (processFile untitledFile ∅) !! "--primary") as [r|] eqn:E;
    [|vm_compute in E; discriminate].
  exists r. split; [reflexivity|].
  apply (untitled_file_records untitledFile
           "const meta = { title: 'Button' }; export default meta;"
           [ ExportDefaultDeclaration (Identifier "meta");
             ExportNamedDeclaration
               (Some (VariableDeclaration [Identifier "Primary"])) ]
           "--primary" r); try reflexivity; [|exact E].
  intros d [[= <-]|[H|[]]]; [reflexivity | discriminate].
Defined.

(** ** Actions *)

Section Objects.
Context {A : Type}.
Implicit Types (o : list (string * A)) (k : string) (v : A).

Lemma string_eqb_eq k k' : string_eqb k k' = true <-> k = k'.
Proof. apply String.eqb_eq. Qed.

Lemma string_eqb_neq k k' : string_eqb k k' = false <-> k <> k'.
Proof. apply String.eqb_neq. Qed.

Lemma obj_get_set_eq o k v : obj_get (obj_set o k v) k = Some v.
Proof.
  induction o as [|[k' v'] o IH]; simpl.
  - now rewrite (proj2 (string_eqb_eq k k) eq_refl).
  - destruct (string_eqb k' k) eqn:E; simpl; rewrite E; auto.
Qed.

Lemma obj_get_set_ne o k k' v :
  k <> k' -> obj_get (obj_set o k v) k' = obj_get o k'.
Proof.
  intros Hne. induction o as [|[k1 v1] o IH]; simpl.
  - now rewrite (proj2 (string_eqb_neq k k') Hne).
  - destruct (string_eqb k1 k) eqn:E; simpl.
    + apply string_eqb_eq in E as ->.
      now rewrite (proj2 (string_eqb_neq k k') Hne).
    + destruct (string_eqb k1 k'); auto.
Qed.

Lemma obj_get_In o k v : obj_get o k = Some v -> In (k, v) o.
Proof.
  induction o as [|[k' v'] o IH]; simpl; [discriminate|].
  destruct (string_eqb k' k) eqn:E.
  - apply string_eqb_eq in E as ->. intros [= ->]. now left.
  - auto.
Qed.

Lemma obj_set_is_Some o k k' v :
  is_Some (obj_get (obj_set o k v) k') <-> k = k' \/ is_Some (obj_get o k').
Proof.
  destruct (decide (k = k')) as [->|Hne].
  - rewrite obj_get_set_eq. split; eauto.
  - rewrite obj_get_set_ne by exact Hne. tauto.
Qed.

Lemma assign_prototype o v : assign o "__proto__" v = o.
Proof. reflexivity. Qed.

Lemma assign_set o k v : k <> "__proto__" -> assign o k v = obj_set o k v.
Proof.
  intros H. unfold assign. now rewrite (proj2 (string_eqb_neq k "__proto__") H).
Qed.

(** An assignment stores under its key, or nothing under [__proto__]. *)
Lemma assign_cases o k v :
  (k = "__proto__" /\ assign o k v = o)
  \/ (k <> "__proto__" /\ assign o k v = obj_set o k v).
Proof.
  destruct (decide (k = "__proto__")) as [->|H]; [left | right]; split;
    auto using assign_prototype, assign_set.
Qed.

Lemma assign_is_Some o k k' v :
  is_Some (obj_get (assign o k v) k')
  <-> (k = k' /\ k' <> "__proto__") \/ is_Some (obj_get o k').
Proof.
  destruct (assign_cases o k v) as [[-> ->] | [H ->]].
  - split; [auto | intros [[<- H] | H]; [contradiction | exact H]].
  - rewrite obj_set_is_Some. split.
    + intros [<- | H']; auto.
    + intros [[<- _] | H']; auto.
Qed.

End Objects.

Section ActionFacts.

Lemma is_function_marker_spec (v : value) :
  is_function_marker v = true <-> v = VStr "[Function]".
Proof.
  destruct v; simpl; try (split; [discriminate | intros [=]]).
  rewrite string_eqb_eq. split; congruence.
Qed.

Lemma is_events_spec (x : option value) :
  is_events x = true <-> x = Some (VStr "events").
Proof.
  destruct x as [[]|]; simpl; try (split; [discriminate | intros [=]]).
  rewrite string_eqb_eq. split; congruence.
Qed.

Lemma get_field (x : value) (k : string) (a : option value) :
  get x k = Ok a -> a = field (Some x) k.
Proof. destruct x; simpl; congruence. Qed.

(** A plain property is stored under the key its name resolves to, unless
    that is [__proto__]. *)
Lemma writtenKey_property (k e : node) (key : string) :
  writtenKey (ObjectProperty k e) = Some key
  <-> propertyKey k = Some key /\ key <> "__proto__".
Proof.
  simpl. destruct (propertyKey k) as [s|]; [|split; [discriminate | intros [[=] _]]].
  destruct (string_eqb s "__proto__") eqn:E.
  - apply string_eqb_eq in E as ->.
    split; [discriminate | intros [[= <-] H]; contradiction].
  - apply string_eqb_neq in E. split.
    + intros [= <-]. auto.
    + intros [[= <-] _]. reflexivity.
Qed.

(** A turn of the loop of [extractObjectLiteral] stores under the member's
    written key, or changes nothing. *)
Lemma extractProperty_cases (o : obj) (p : property) :
  (exists key v, writtenKey p = Some key /\ key <> "__proto__"
                 /\ extractProperty o p = obj_set o key v)
  \/ (writtenKey p = None /\ extractProperty o p = o).
Proof.
  unfold extractProperty. destruct p as [k v|k|a]; simpl.
  - destruct (propertyKey k) as [key|]; [|auto].
    destruct (assign_cases o key (extractValue v)) as [[-> ->] | [H ->]].
    + right. auto.
    + left. exists key, (extractValue v).
      now rewrite (proj2 (string_eqb_neq key "__proto__") H).
  - destruct (propertyKey k); auto.
  - auto.
Qed.

(** The later members of a literal that store under other keys do not
    change what is stored under [key]. *)
Lemma extractProperty_other (after : list property) (o : obj) (key : string) :
  Forall (fun p => writtenKey p <> Some key) after ->
  obj_get (fold_left extractProperty after o) key = obj_get o key.
Proof.
  intros H. revert o. induction H as [|p after Hp _ IH]; intros o; simpl;
    [reflexivity|].
  rewrite IH.
  destruct (extractProperty_cases o p) as [(k & v & Hk & _ & ->) | [_ ->]];
    [|reflexivity].
  apply obj_get_set_ne. congruence.
Qed.

Lemma extractObjectLiteral_last (before after : list property)
    (k e : node) (key : string) :
  writtenKey (ObjectProperty k e) = Some key ->
  Forall (fun p => writtenKey p <> Some key) after ->
  obj_get (extractObjectLiteral
             (ObjectExpression (before ++ ObjectProperty k e :: after))) key
  = Some (extractValue e).
Proof.
  intros [Hk Hne]%writtenKey_property Hafter. simpl. rewrite fold_left_app. simpl.
  rewrite (extractProperty_other _ _ _ Hafter).
  unfold extractProperty at 1. simpl. rewrite Hk, (assign_set _ _ _ Hne).
  apply obj_get_set_eq.
Qed.

(** The keys after the first loop of [extractActionsFromArgs]. *)
Lemma actionFromArg_keys (argTypes args acc : obj) (k : string) :
  is_Some (obj_get (fold_left (actionFromArg argTypes) args acc) k)
  <-> is_Some (obj_get acc k)
      \/ (k <> "__proto__"
          /\ exists v, In (k, v) args
                /\ (JsString.startsWith "on" k = true \/ v = VStr "[Function]")).
Proof.
  revert acc. induction args as [|[k' v'] args IH]; intros acc; simpl.
  - split; [auto | intros [H | (_ & v & [] & _)]; exact H].
  - rewrite IH. clear IH.
    destruct (JsString.startsWith "on" k' || is_function_marker v') eqn:E.
    + rewrite assign_is_Some. split.
      * intros [[[<- Hne] | H] | (Hne & v & Hin & Hv)]; [|auto|].
        -- right. split; [exact Hne|]. exists v'. split; [now left|].
           apply orb_true_iff in E as [E|E]; [now left|].
           right. now apply is_function_marker_spec.
        -- right. split; [exact Hne|]. exists v. split; [now right | exact Hv].
      * intros [H | (Hne & v & [[= -> ->] | Hin] & Hv)]; [auto|auto|].
        right. split; [exact Hne|]. exists v. auto.
    + split.
      * intros [H | (Hne & v & Hin & Hv)]; [auto|].
        right. split; [exact Hne|]. exists v. split; [now right | exact Hv].
      * intros [H | (Hne & v & [[= -> ->] | Hin] & Hv)]; [auto| |].
        -- apply orb_false_iff in E as [E1 E2].
           destruct Hv as [Hv | ->]; [congruence|].
           simpl in E2. discriminate.
        -- right. split; [exact Hne|]. exists v. auto.
Qed.

(** One turn of the second loop, when it does not throw. *)
Lemma actionFromArgType_step (acc acc' : obj) (key : string) (config : value) :
  actionFromArgType acc (key, config) = Ok acc' ->
  exists a,
    acc' = if truthy_opt (field (Some config) "action")
              || is_events (path (Some config) ["table"; "category"])
           then assign acc key a else acc.
Proof.
  unfold actionFromArgType.
  destruct (get config "action") as [a|] eqn:Ea; [|discriminate].
  apply get_field in Ea as ->. cbn [mbind result_bind].
  change (field (field (Some config) "table") "category")
    with (path (Some config) ["table"; "category"]).
  destruct (_ || _); intros [= <-]; eauto.
Qed.

(** The keys after the second loop, when it does not throw. *)
Lemma actionFromArgType_keys (argTypes acc acts : obj) (k : string) :
  foldlM actionFromArgType argTypes acc = Ok acts ->
  is_Some (obj_get acts k)
  <-> is_Some (obj_get acc k)
      \/ (k <> "__proto__"
          /\ exists config, In (k, config) argTypes
                /\ (truthy_opt (field (Some config) "action") = true
                    \/ path (Some config) ["table"; "category"]
                       = Some (VStr "events"))).
Proof.
  revert acc. induction argTypes as [|[k' c'] argTypes IH]; intros acc.
  - intros [= <-]. split; [auto | intros [H | (_ & v & [] & _)]; exact H].
  - cbn [foldlM].
    destruct (actionFromArgType acc (k', c')) as [acc'|] eqn:Es;
      [|discriminate].
    cbn [mbind result_bind]. intros H. rewrite (IH _ H). clear IH H.
    apply actionFromArgType_step in Es as [a ->].
    destruct (truthy_opt (field (Some c') "action")
              || is_events (path (Some c') ["table"; "category"])) eqn:E.
    + rewrite assign_is_Some. split.
      * intros [[[<- Hne] | H] | (Hne & v & Hin & Hv)]; [|auto|].
        -- right. split; [exact Hne|]. exists c'. split; [now left|].
           apply orb_true_iff in E as [E|E]; [now left|].
           right. now apply is_events_spec.
        -- right. split; [exact Hne|]. exists v. split; [now right | exact Hv].
      * intros [H | (Hne & v & [[= -> ->] | Hin] & Hv)]; [auto|auto|].
        right. split; [exact Hne|]. exists v. auto.
    + split.
      * intros [H | (Hne & v & Hin & Hv)]; [auto|].
        right. split; [exact Hne|]. exists v. split; [now right | exact Hv].
      * intros [H | (Hne & v & [[= -> ->] | Hin] & Hv)]; [auto| |].
        -- apply orb_false_iff in E as [E1 E2].
           destruct Hv as [Hv | Hv]; [congruence|].
           apply is_events_spec in Hv. congruence.
        -- right. split; [exact Hne|]. exists v. auto.
Qed.

(** The keys of [extractActionsFromArgs(args, argTypes)]. *)
Lemma extractActionsFromArgs_keys (args argTypes acts : obj) (k : string) :
  extractActionsFromArgs args argTypes = Ok acts ->
  is_Some (obj_get acts k)
  <-> k <> "__proto__"
      /\ ((exists v, In (k, v) args
                     /\ (JsString.startsWith "on" k = true \/ v = VStr "[Function]"))
          \/ (exists config, In (k, config) argTypes
                /\ (truthy_opt (field (Some config) "action") = true
                    \/ path (Some config) ["table"; "category"]
                       = Some (VStr "events")))).
Proof.
  unfold extractActionsFromArgs. intros H.
  rewrite (actionFromArgType_keys _ _ _ k H), actionFromArg_keys.
  simpl. split.
  - intros [[[x Hx] | [Hne H1]] | [Hne H2]]; [discriminate | auto | auto].
  - intros [Hne [H1 | H2]]; auto.
Qed.

End ActionFacts.

Section ObjectLiteralFacts.

Lemma obj_keys_set {A : Type} (o : list (string * A)) (k : string) (v : A) :
  (In k (obj_keys o) /\ obj_keys (obj_set o k v) = obj_keys o)
  \/ (~ In k (obj_keys o) /\ obj_keys (obj_set o k v) = obj_keys o ++ [k]).
Proof.
  induction o as [|[k' v'] o IH]; simpl.
  - right. split; [tauto | reflexivity].
  - destruct (string_eqb k' k) eqn:E.
    + apply string_eqb_eq in E as ->. left. split; [now left | reflexivity].
    + apply string_eqb_neq in E. simpl.
      destruct IH as [[Hin ->] | [Hnin ->]]; [left | right]; split;
        try reflexivity; [now right | intros [?|?]; contradiction].
Qed.

Lemma Z_to_string_nonEmpty (z : Z) : JsString.nonEmpty (Z_to_string z) = true.
Proof.
  unfold Z_to_string, NilZero.string_of_int.
  destruct (Z.to_int z) as [d|d]; [|reflexivity].
  unfold NilZero.string_of_uint. destruct d; reflexivity.
Qed.

Lemma propertyKey_nonEmpty (k : node) (key : string) :
  propertyKey k = Some key -> JsString.nonEmpty key = true.
Proof.
  unfold propertyKey. destruct k; simpl; try discriminate.
  - destruct (JsString.nonEmpty val) eqn:E; [|discriminate]. now intros [= <-].
  - destruct (val =? 0)%Z; simpl; [discriminate|].
    intros [= <-]. apply Z_to_string_nonEmpty.
  - destruct val; [|discriminate]. now intros [= <-].
  - destruct (JsString.nonEmpty val) eqn:E; [|discriminate]. now intros [= <-].
  - destruct (JsString.nonEmpty name) eqn:E; [|discriminate]. now intros [= <-].
Qed.

Lemma extractProperty_keys (ps : list property) (o : obj) :
  NoDup (obj_keys o) ->
  Forall (fun k => JsString.nonEmpty k = true) (obj_keys o) ->
  NoDup (obj_keys (fold_left extractProperty ps o))
  /\ Forall (fun k => JsString.nonEmpty k = true)
            (obj_keys (fold_left extractProperty ps o)).
Proof.
  revert o. induction ps as [|p ps IH]; intros o Hd Hn; simpl; [auto|].
  destruct (extractProperty_cases o p) as [(key & v & Hk & _ & ->) | [_ ->]]; [|auto].
  assert (Hne : JsString.nonEmpty key = true).
  { destruct p as [k e|k|a]; try discriminate.
    apply writtenKey_property in Hk as [Hk _]. eauto using propertyKey_nonEmpty. }
  destruct (obj_keys_set o key v) as [[_ E] | [Hnin E]]; apply IH; rewrite E; auto.
  - apply NoDup_app. split; [exact Hd|]. split; [|apply NoDup_singleton].
    intros x Hx ->%list_elem_of_singleton. apply Hnin. now apply list_elem_of_In.
  - apply Forall_app. split; auto.
Qed.


End ObjectLiteralFacts.

Section TraverseFacts.


Lemma obj_get_set {A : Type} (o : list (string * A)) (k x : string) (v : A) :
  obj_get (obj_set o k v) x = if decide (k = x) then Some v else obj_get o x.
Proof.
  destruct (decide (k = x)) as [->|Hne];
    [apply obj_get_set_eq | now apply obj_get_set_ne].
Qed.

Lemma obj_get_assign {A : Type} (o : list (string * A)) (k x : string) (v : A) :
  obj_get (assign o k v) x
  = if decide (k = x /\ x <> "__proto__") then Some v else obj_get o x.
Proof.
  destruct (assign_cases o k v) as [[-> ->] | [H ->]].
  - case_decide as Hd; [destruct Hd as [<- Hd]; contradiction | reflexivity].
  - rewrite obj_get_set.
    destruct (decide (k = x)) as [<-|Hne]; case_decide as Hd; try reflexivity.
    + exfalso. auto.
    + destruct Hd. contradiction.
Qed.

Lemma obj_keys_set_NoDup {A : Type} (o : list (string * A)) (k : string) (v : A) :
  NoDup (obj_keys o) -> NoDup (obj_keys (obj_set o k v)).
Proof.
  intros Hd. destruct (obj_keys_set o k v) as [[_ ->] | [Hnin ->]]; [exact Hd|].
  apply NoDup_app. split; [exact Hd|]. split; [|apply NoDup_singleton].
  intros y Hy ->%list_elem_of_singleton. apply Hnin. now apply list_elem_of_In.
Qed.

Lemma obj_keys_assign_NoDup {A : Type} (o : list (string * A)) (k : string) (v : A) :
  NoDup (obj_keys o) -> NoDup (obj_keys (assign o k v)).
Proof.
  destruct (assign_cases o k v) as [[_ ->] | [_ ->]];
    auto using obj_keys_set_NoDup.
Qed.

Lemma visitNode_table (m m' : Meta.t) (t t' : storyTable) (v : visit) :
  visitNode (m, t) v = Ok (m', t') -> t' = tableStep t v.
Proof.
  destruct v as [d|[[ids|id|ty]|]|l r]; simpl.
  - destruct (extractMetaObject d); simpl; [|discriminate]. congruence.
  - congruence.
  - congruence.
  - congruence.
  - congruence.
  - congruence.
Qed.

Lemma foldlM_visitNode_table (visits : list visit) (m m' : Meta.t) (t t' : storyTable) :
  foldlM visitNode visits (m, t) = Ok (m', t') -> t' = fold_left tableStep visits t.
Proof.
  revert m t. induction visits as [|v visits IH]; intros m t; cbn [foldlM fold_left].
  - congruence.
  - destruct (visitNode (m, t) v) as [[m1 t1]|] eqn:E; cbn [mbind result_bind];
      [|discriminate].
    rewrite (visitNode_table _ _ _ _ _ E). apply IH.
Qed.

(** Declaring: the key is added, the rest is untouched. *)
Lemma declareStory_spec (t : storyTable) (id : option node) (x : string) :
  obj_get (declareStory t id) x
  = match id with
    | Some n =>
        match declaredName n with
        | Some y => if decide (y = x /\ x <> "__proto__")
                    then Some (StoryData.mk y [] (VStr y))
                    else obj_get t x
        | None => obj_get t x
        end
    | None => obj_get t x
    end.
Proof.
  destruct id as [[]|]; simpl; try reflexivity.
  destruct (JsString.nonEmpty name); [apply obj_get_assign | reflexivity].
Qed.

Lemma declareStory_NoDup (t : storyTable) (id : option node) :
  NoDup (obj_keys t) -> NoDup (obj_keys (declareStory t id)).
Proof.
  destruct id as [[]|]; simpl; auto.
  destruct (JsString.nonEmpty name); auto using obj_keys_assign_NoDup.
Qed.

Lemma assignArgs_spec (t : storyTable) (l r : node) (x : string) :
  obj_get (assignArgs t l r) x
  = match memberOf l "args", obj_get t x with
    | Some y, Some sd =>
        if decide (y = x)
        then Some (StoryData.mk (StoryData.name sd) (extractObjectLiteral r)
                     (StoryData.storyName sd))
        else Some sd
    | _, o => o
    end.
Proof.
  unfold assignArgs. destruct (memberOf l "args") as [y|]; [|reflexivity].
  destruct (obj_get t y) as [sd'|] eqn:Ey.
  - rewrite obj_get_set. destruct (decide (y = x)) as [<-|Hne].
    + now rewrite Ey.
    + now destruct (obj_get t x).
  - destruct (obj_get t x) eqn:Ex; [|reflexivity].
    destruct (decide (y = x)) as [->|]; [congruence | reflexivity].
Qed.

Lemma assignStoryName_spec (t : storyTable) (l r : node) (x : string) :
  match obj_get t x, obj_get (assignStoryName t l r) x with
  | Some sd, Some sd' =>
      StoryData.name sd' = StoryData.name sd /\ StoryData.args sd' = StoryData.args sd
  | None, None => True
  | _, _ => False
  end.
Proof.
  unfold assignStoryName. destruct (memberOf l "storyName") as [y|];
    [|destruct (obj_get t x); auto].
  destruct (obj_get t y) as [sd'|] eqn:Ey; [|destruct (obj_get t x); auto].
  destruct (node_value r) as [dn|]; [|destruct (obj_get t x); auto].
  destruct (truthy dn); [|destruct (obj_get t x); auto].
  rewrite obj_get_set. destruct (decide (y = x)) as [<-|Hne].
  - rewrite Ey. auto.
  - destruct (obj_get t x); auto.
Qed.

Lemma assign_NoDup (t : storyTable) (l r : node) :
  NoDup (obj_keys t) ->
  NoDup (obj_keys (assignStoryName (assignArgs t l r) l r)).
Proof.
  intros Hd. unfold assignStoryName, assignArgs.
  repeat case_match; auto using obj_keys_set_NoDup.
Qed.

Lemma declareStories_member (ids : list node) (t : storyTable) (x : string) :
  is_Some (obj_get (fold_left (fun s id => declareStory s (Some id)) ids t) x)
  <-> is_Some (obj_get t x)
      \/ (x <> "__proto__"
          /\ In x (flat_map (fun id => option_list (declaredName id)) ids)).
Proof.
  revert t. induction ids as [|id ids IH]; intros t; cbn [fold_left flat_map];
    [simpl; tauto|].
  rewrite IH, declareStory_spec, in_app_iff.
  destruct (declaredName id) as [y|]; simpl; [|tauto].
  case_decide as Hd.
  - destruct Hd as [-> Hd]. split; intros H; [right; auto | eauto].
  - split.
    + intros [H | [Hx H]]; auto.
    + intros [H | [Hx [[-> | []] | H]]]; auto. exfalso. auto.
Qed.

(** Declarations of other names leave the story [x] as it is. *)
Lemma declareStories_other (ids : list node) (t : storyTable) (x : string) :
  ~ In x (flat_map (fun id => option_list (declaredName id)) ids) ->
  obj_get (fold_left (fun s id => declareStory s (Some id)) ids t) x = obj_get t x.
Proof.
  revert t. induction ids as [|id ids IH]; intros t Hx; cbn [fold_left flat_map] in *;
    [reflexivity|].
  rewrite in_app_iff in Hx. rewrite IH by tauto. rewrite declareStory_spec.
  destruct (declaredName id) as [y|]; [|reflexivity].
  case_decide as Hd; [|reflexivity]. destruct Hd as [-> _].
  exfalso. apply Hx. left. now left.
Qed.

Lemma declareStories_inv (ids : list node) (t : storyTable) (x : string) (b : bool) :
  storyInv b x t ->
  storyInv b x (fold_left (fun s id => declareStory s (Some id)) ids t).
Proof.
  revert t. induction ids as [|id ids IH]; intros t Ht; cbn [fold_left]; [exact Ht|].
  apply IH. intros sd. rewrite declareStory_spec.
  destruct (declaredName id) as [y|]; [|apply Ht].
  case_decide as Hd; [|apply Ht]. destruct Hd as [-> _]. now intros [= <-].
Qed.

Lemma declareStories_NoDup (ids : list node) (t : storyTable) :
  NoDup (obj_keys t) ->
  NoDup (obj_keys (fold_left (fun s id => declareStory s (Some id)) ids t)).
Proof.
  revert t. induction ids as [|id ids IH]; intros t Ht; cbn [fold_left];
    auto using declareStory_NoDup.
Qed.

Lemma tableStep_member (t : storyTable) (v : visit) (x : string) :
  is_Some (obj_get (tableStep t v) x)
  <-> is_Some (obj_get t x) \/ (x <> "__proto__" /\ In x (exportedNames [v])).
Proof.
  destruct v as [d|[[ids|[id|]|ty]|]|l r];
    cbn [tableStep exportedNames flat_map]; rewrite ?app_nil_r;
    try (simpl; tauto).
  - apply declareStories_member.
  - rewrite declareStory_spec. destruct (declaredName id) as [y|]; simpl; [|tauto].
    case_decide as Hd.
    + destruct Hd as [-> Hd]. split; intros H; [right; auto | eauto].
    + split; [auto|]. intros [H | [Hx [-> | []]]]; [exact H|]. exfalso. auto.
  - pose proof (assignStoryName_spec (assignArgs t l r) l r x) as H1.
    rewrite assignArgs_spec in H1.
    assert (Hiff : is_Some (obj_get (assignStoryName (assignArgs t l r) l r) x)
                   <-> is_Some (obj_get t x)).
    { destruct (obj_get (assignStoryName (assignArgs t l r) l r) x) as [a|],
        (obj_get t x) as [b|], (memberOf l "args") as [y|];
        repeat case_decide; simpl in H1; try contradiction;
        split; intros [z Hz]; try discriminate; eauto. }
    rewrite Hiff. simpl. tauto.
Qed.

Lemma tableStep_inv (t : storyTable) (v : visit) (x : string) (b : bool) :
  assignsArgs x v = false \/ b = false ->
  storyInv b x t -> storyInv b x (tableStep t v).
Proof.
  intros Hv Ht. destruct v as [d|[[ids|id|ty]|]|l r]; cbn [tableStep]; try exact Ht.
  - now apply declareStories_inv.
  - intros sd. rewrite declareStory_spec. destruct id as [id|]; [|apply Ht].
    destruct (declaredName id) as [y|]; [|apply Ht].
    case_decide as Hd; [|apply Ht]. destruct Hd as [-> _]. now intros [= <-].
  - intros sd Hsd.
    pose proof (assignStoryName_spec (assignArgs t l r) l r x) as H1.
    rewrite Hsd, assignArgs_spec in H1. simpl in Hv.
    destruct (obj_get t x) as [sd0|] eqn:E0;
      [|destruct (memberOf l "args"); contradiction].
    destruct (Ht sd0 E0) as [Hn Ha].
    destruct (memberOf l "args") as [y|].
    + destruct (decide (y = x)) as [->|Hne]; destruct H1 as [-> ->]; simpl.
      * split; [exact Hn|]. intros ->.
        rewrite (proj2 (string_eqb_eq x x) eq_refl) in Hv.
        destruct Hv; discriminate.
      * auto.
    + destruct H1 as [-> ->]. auto.
Qed.

Lemma tableStep_NoDup (t : storyTable) (v : visit) :
  NoDup (obj_keys t) -> NoDup (obj_keys (tableStep t v)).
Proof.
  destruct v as [d|[[ids|id|ty]|]|l r]; cbn [tableStep];
    auto using declareStories_NoDup, declareStory_NoDup, assign_NoDup.
Qed.

Lemma tableSteps (visits : list visit) (t : storyTable) (x : string) :
  (is_Some (obj_get (fold_left tableStep visits t) x)
   <-> is_Some (obj_get t x) \/ (x <> "__proto__" /\ In x (exportedNames visits)))
  /\ (NoDup (obj_keys t) -> NoDup (obj_keys (fold_left tableStep visits t)))
  /\ (forall b, existsb (assignsArgs x) visits = false \/ b = false ->
                storyInv b x t -> storyInv b x (fold_left tableStep visits t)).
Proof.
  revert t. induction visits as [|v visits IH]; intros t.
  - simpl. split; [tauto|]. split; auto.
  - assert (Hcons : exportedNames (v :: visits)
                     = exportedNames [v] ++ exportedNames visits).
    { unfold exportedNames. cbn [flat_map]. now rewrite app_nil_r. }
    rewrite Hcons. cbn [fold_left]. destruct (IH (tableStep t v)) as (I1 & I2 & I3).
    split; [|split].
    + rewrite I1, tableStep_member, in_app_iff. tauto.
    + intros Hd. apply I2, tableStep_NoDup, Hd.
    + intros b Hb Ht. apply I3.
      * destruct Hb as [Hb | ->]; [|now right]. left.
        simpl in Hb. now apply orb_false_iff in Hb as [_ Hb].
      * apply tableStep_inv; [|exact Ht].
        destruct Hb as [Hb | ->]; [|now right]. left.
        simpl in Hb. now apply orb_false_iff in Hb as [Hb _].
Qed.

Lemma exportedNames_app (l1 l2 : list visit) :
  exportedNames (l1 ++ l2) = exportedNames l1 ++ exportedNames l2.
Proof. unfold exportedNames. apply flat_map_app. Qed.

(** A visit that neither exports [x] nor assigns [x.args] keeps the args
    of the story [x]. *)
Lemma tableStep_keeps_args (t : storyTable) (v : visit) (x : string)
    (sd : StoryData.t) :
  obj_get t x = Some sd ->
  ~ In x (exportedNames [v]) -> assignsArgs x v = false ->
  exists sd', obj_get (tableStep t v) x = Some sd'
              /\ StoryData.args sd' = StoryData.args sd.
Proof.
  intros Hsd Hx Ha.
  destruct v as [d|[[ids|[id|]|ty]|]|l r];
    cbn [tableStep exportedNames flat_map] in *; rewrite ?app_nil_r in Hx;
    try (exists sd; split; [exact Hsd | reflexivity]).
  - rewrite (declareStories_other ids t x Hx). eauto.
  - rewrite declareStory_spec. destruct (declaredName id) as [y|]; [|eauto].
    case_decide as Hd; [|eauto]. destruct Hd as [-> _].
    exfalso. apply Hx. now left.
  - pose proof (assignStoryName_spec (assignArgs t l r) l r x) as H1.
    rewrite assignArgs_spec, Hsd in H1. simpl in Ha.
    destruct (memberOf l "args") as [y|].
    + apply string_eqb_neq in Ha.
      destruct (decide (y = x)) as [->|_]; [contradiction|].
      destruct (obj_get (assignStoryName (assignArgs t l r) l r) x) as [sd'|];
        [|contradiction].
      destruct H1 as [_ H1]. eauto.
    + destruct (obj_get (assignStoryName (assignArgs t l r) l r) x) as [sd'|];
        [|contradiction].
      destruct H1 as [_ H1]. eauto.
Qed.

Lemma tableSteps_keep_args (visits : list visit) (t : storyTable) (x : string)
    (sd : StoryData.t) :
  obj_get t x = Some sd ->
  ~ In x (exportedNames visits) -> existsb (assignsArgs x) visits = false ->
  exists sd', obj_get (fold_left tableStep visits t) x = Some sd'
              /\ StoryData.args sd' = StoryData.args sd.
Proof.
  revert t sd. induction visits as [|v visits IH]; intros t sd Hsd Hx Ha;
    [simpl; eauto|].
  change (v :: visits) with ([v] ++ visits) in Hx.
  rewrite exportedNames_app, in_app_iff in Hx.
  simpl in Ha. apply orb_false_iff in Ha as [Hv Ha]. cbn [fold_left].
  destruct (tableStep_keeps_args t v x sd Hsd) as (sd1 & H1 & E1); [tauto | exact Hv |].
  destruct (IH (tableStep t v) sd1 H1) as (sd' & H' & E'); [tauto | exact Ha |].
  exists sd'. split; [exact H' | congruence].
Qed.

(** The assignment [x.args = rhs] to a story of the table gives it the
    normalized [rhs] as args. *)
Lemma tableStep_assigns_args (t : storyTable) (lhs rhs : node) (x : string)
    (sd : StoryData.t) :
  obj_get t x = Some sd -> memberOf lhs "args" = Some x ->
  exists sd', obj_get (tableStep t (AssignmentExpression lhs rhs)) x = Some sd'
              /\ StoryData.args sd' = extractObjectLiteral rhs.
Proof.
  intros Hsd Hm. cbn [tableStep].
  pose proof (assignStoryName_spec (assignArgs t lhs rhs) lhs rhs x) as H1.
  rewrite assignArgs_spec, Hsd, Hm in H1.
  destruct (decide (x = x)) as [_|]; [|contradiction].
  destruct (obj_get (assignStoryName (assignArgs t lhs rhs) lhs rhs) x) as [sd'|];
    [|contradiction].
  destruct H1 as [_ H1]. eauto.
Qed.

(** A file that makes no use of [__proto__] exports nothing under it. *)
Lemma usesPrototype_exports (visits : list visit) :
  existsb usesPrototype visits = false -> ~ In "__proto__" (exportedNames visits).
Proof.
  induction visits as [|v visits IH]; [intros _ []|].
  change (v :: visits) with ([v] ++ visits).
  rewrite exportedNames_app, in_app_iff. simpl existsb.
  intros [Hv Hvs]%orb_false_iff [H | H]; [|exact (IH Hvs H)].
  destruct v as [d|decl|l r]; try destruct H.
  - cbn [usesPrototype] in Hv.
    assert (Hex : existsb (string_eqb "__proto__")
                    (exportedNames [ExportNamedDeclaration decl]) = true).
    { apply existsb_exists. exists "__proto__". split; [exact H | reflexivity]. }
    congruence.
Qed.

(** The normalizer looks through type assertions. *)
Lemma extractObjectLiteral_unwrap (n : node) :
  extractObjectLiteral n = extractObjectLiteral (ObjectExpression (metaObjectProps n)).
Proof. induction n; try reflexivity. exact IHn. Qed.

End TraverseFacts.

(** C9, as stated, fails: the args literal of the story contains the
    arrow-function property [handler], yet the record's args hold 1 under
    that name and its actions do not list it, because a later property of
    the literal has the same name. *)
Lemma function_arg_overridden :
  In (ObjectProperty (Identifier "handler") ArrowFunctionExpression) overriddenArgs
  /\ exists r,
       fst (processFile overriddenFile ∅) !! "form--primary" = Some r
       /\ field (Some (StoryRecord.args r)) "handler" = Some (VNum 1)
       /\ field (Some (StoryRecord.args r)) "handler" <> Some (VStr "[Function]")
       /\ field (Some (StoryRecord.actions r)) "handler" = None.
Proof.
  split; [now left|].
  destruct (fst (processFile overriddenFile ∅) !! "form--primary") as [r|] eqn:E;
    vm_compute in E; [|discriminate].
  injection E as <-. eexists. split; [reflexivity|].
  repeat split. discriminate.
Qed.

(** C9, amended.  For the record built for a story [x] of the table of a
    file that makes no use of the name [__proto__]: (1) the keys of its
    actions are exactly the keys other than [__proto__] that are keys of
    its args starting with "on" or holding "[Function]", or keys of its
    argTypes whose entry has a truthy action field or a table.category
    equal to "events"; (2) when the walk of the file meets the assignment
    [x.args = rhs], no later node exports [x] again or assigns [x.args],
    and the object literal [rhs] (under any type assertions, its numeric
    keys below 10^21) has an arrow-function property stored under [key]
    with no later member stored under [key], then the record's args hold
    "[Function]" under [key] and [key] is a key of its actions. *)
Theorem function_args_are_actions (visits : list visit) (m : Meta.t)
    (table : storyTable) (rel code x : string) (sd : StoryData.t)
    (id : string) (r : StoryRecord.t) :
  traverse visits = Ok (m, table) ->
  existsb usesPrototype visits = false ->
  obj_get table x = Some sd ->
  buildStoryRecord m rel code x sd = Ok (id, r) ->
  (forall k',
      is_Some (field (Some (StoryRecord.actions r)) k')
      <-> k' <> "__proto__"
          /\ ((exists v, In (k', v) (objectEntries (StoryRecord.args r))
                         /\ (JsString.startsWith "on" k' = true
                             \/ v = VStr "[Function]"))
              \/ (exists config,
                    In (k', config) (objectEntries (StoryRecord.argTypes r))
                    /\ (truthy_opt (field (Some config) "action") = true
                        \/ path (Some config) ["table"; "category"]
                           = Some (VStr "events")))))
  /\ (forall pre lhs rhs post before k after key,
        visits = pre ++ AssignmentExpression lhs rhs :: post ->
        memberOf lhs "args" = Some x ->
        ~ In x (exportedNames post) ->
        existsb (assignsArgs x) post = false ->
        metaObjectProps rhs
        = before ++ ObjectProperty k ArrowFunctionExpression :: after ->
        forallb decimalKey (metaObjectProps rhs) = true ->
        writtenKey (ObjectProperty k ArrowFunctionExpression) = Some key ->
        Forall (fun p => writtenKey p <> Some key) after ->
        field (Some (StoryRecord.args r)) key = Some (VStr "[Function]")
        /\ is_Some (field (Some (StoryRecord.actions r)) key)).
Proof.
  intros Ht _ Hsd Hb. unfold buildStoryRecord in Hb.
  destruct (extractActionsFromArgs (StoryData.args sd) (Meta.argTypes m))
    as [acts|] eqn:Ea; [|discriminate].
  cbn [mbind result_bind] in Hb. injection Hb as <- <-.
  cbn [StoryRecord.args StoryRecord.actions StoryRecord.argTypes field objectEntries].
  split; [intros k'; apply (extractActionsFromArgs_keys _ _ _ k' Ea)|].
  intros pre lhs rhs post before k after key -> Hl Hx Ha Hp _ Hk Hafter.
  apply foldlM_visitNode_table in Ht. rewrite fold_left_app in Ht. cbn [fold_left] in Ht.
  set (t0 := fold_left tableStep pre []) in Ht.
  assert (H0 : is_Some (obj_get t0 x)).
  { assert (H1 : is_Some (obj_get (tableStep t0 (AssignmentExpression lhs rhs)) x)).
    { destruct (tableSteps post (tableStep t0 (AssignmentExpression lhs rhs)) x)
        as (I1 & _ & _).
      rewrite <- Ht in I1. destruct (proj1 I1 (ex_intro _ sd Hsd)) as [H | [_ H]];
        [exact H | contradiction]. }
    apply tableStep_member in H1 as [H1 | [_ []]]. exact H1. }
  destruct H0 as [sd0 H0].
  destruct (tableStep_assigns_args t0 lhs rhs x sd0 H0 Hl) as (sd1 & H1 & E1).
  destruct (tableSteps_keep_args post _ x sd1 H1 Hx Ha) as (sd' & H' & E').
  rewrite <- Ht, Hsd in H'. injection H' as <-.
  assert (Hget : obj_get (StoryData.args sd) key = Some (VStr "[Function]")).
  { rewrite E', E1, extractObjectLiteral_unwrap, Hp.
    apply (extractObjectLiteral_last before after k ArrowFunctionExpression key
             Hk Hafter). }
  split; [exact Hget|].
  apply (extractActionsFromArgs_keys _ _ _ key Ea).
  split; [now apply writtenKey_property in Hk|]. left.
  exists (VStr "[Function]"). split; [now apply obj_get_In | now right].
Qed.

Lemma function_args_are_actions_witness :
  exists id r,
    buildStoryRecord formMeta "./src/Form.stories.js" "" "Primary" formPrimary
    = Ok (id, r)
    /\ field (Some (StoryRecord.args r)) "handler" = Some (VStr "[Function]")
    /\ is_Some (field (Some (StoryRecord.actions r)) "handler").
Proof.
  destruct (buildStoryRecord formMeta "./src/Form.stories.js" "" "Primary" formPrimary)
    as [[id r]|] eqn:E; [|vm_compute in E; discriminate].
  exists id, r. split; [reflexivity|].
  apply (proj2 (function_args_are_actions formStories formMeta
                  [("Primary", formPrimary)] "./src/Form.stories.js" ""
                  "Primary" formPrimary id r eq_refl eq_refl eq_refl E)
           [ ExportDefaultDeclaration
               (ObjectExpression
                  [ObjectProperty (Identifier "title") (StringLiteral "Form")]);
             ExportNamedDeclaration
               (Some (VariableDeclaration [Identifier "Primary"])) ]
           (MemberExpression (Identifier "Primary") (Identifier "args"))
           (ObjectExpression
              [ ObjectProperty (Identifier "label") (StringLiteral "Save");
                ObjectProperty (Identifier "handler") ArrowFunctionExpression ])
           []
           [ObjectProperty (Identifier "label") (StringLiteral "Save")]
           (Identifier "handler") [] "handler");
    try reflexivity; [intros [] | constructor].
Defined.

(** ** Provenance and counts of the four strategies *)

Section Strategies.
Variables (w : World) (storybookUrl : string).

Lemma source_catalog (c : Catalog.t) :
  fst (extractFromSourceFiles w) = Some c ->
  Catalog.extractedFrom c = "source-files"
  /\ Catalog.totalStories c = size (Catalog.stories c).
Proof.
  unfold extractFromSourceFiles.
  destruct (parserInstalled w), (srcDirExists w), (storyFiles w) as [files|];
    simpl; try discriminate.
  destruct (processFiles files ∅ []) as [stories warnings].
  intros [= <-]. split; reflexivity.
Qed.

Lemma built_catalog (c : Catalog.t) :
  extractFromBuiltStorybook w = Some c ->
  Catalog.extractedFrom c = "built-storybook"
  /\ Catalog.totalStories c = 0.
Proof.
  unfold extractFromBuiltStorybook.
  destruct (builtIndex w) as [[indexData|]|]; try discriminate.
  destruct (_ ≫= _); [|discriminate].
  intros [= <-]. split; reflexivity.
Qed.

Lemma deep_catalog (storyEntries : value) (c : Catalog.t) :
  extractDeepMetadataWithBrowser w storybookUrl storyEntries = Ok (Some c) ->
  Catalog.extractedFrom c = "running-storybook-deep"
  /\ Catalog.totalStories c = size (Catalog.stories c).
Proof.
  unfold extractDeepMetadataWithBrowser.
  destruct (browser w storybookUrl); try discriminate.
  destruct (collect _ _ _); [|discriminate].
  intros [= <-]. split; reflexivity.
Qed.

Lemma basic_catalog (storyEntries : value) (c : Catalog.t) :
  basicFromIndex w storyEntries = Ok c ->
  Catalog.extractedFrom c = "storybook-index-basic"
  /\ Catalog.totalStories c = size (Catalog.stories c).
Proof.
  unfold basicFromIndex.
  destruct (collect _ _ _); [|discriminate].
  intros [= <-]. split; reflexivity.
Qed.

(** Where the selector's catalog comes from. *)
Lemma selector_cases (c : Catalog.t) :
  extractFromRunningStorybook w storybookUrl = Ok (Some c) ->
  (fst (extractFromSourceFiles w) = Some c /\ 0 < Catalog.totalStories c)
  \/ (nonEmptyCatalog (fst (extractFromSourceFiles w)) = false
      /\ extractFromBuiltStorybook w = Some c
      /\ (extractBasicMetadataFromIndex w storybookUrl = None
          \/ exists es, extractBasicMetadataFromIndex w storybookUrl = Some es
                        /\ objectEntries es = []))
  \/ (nonEmptyCatalog (fst (extractFromSourceFiles w)) = false
      /\ exists es, extractBasicMetadataFromIndex w storybookUrl = Some es
                    /\ objectEntries es <> []
                    /\ (extractDeepMetadataWithBrowser w storybookUrl es = Ok (Some c)
                        \/ basicFromIndex w es = Ok c)).
Proof.
  unfold extractFromRunningStorybook.
  destruct (nonEmptyCatalog (fst (extractFromSourceFiles w))) eqn:Es.
  - intros [= H]. left. split; [exact H|].
    rewrite H in Es. simpl in Es. now apply Nat.ltb_lt in Es.
  - destruct (extractBasicMetadataFromIndex w storybookUrl) as [es|] eqn:Ei.
    + destruct (objectEntries es) as [|kv l] eqn:Eo; simpl.
      * intros [= H]. right. left. eauto 6.
      * destruct (extractDeepMetadataWithBrowser w storybookUrl es)
          as [deep|] eqn:Ed; simpl; [|discriminate].
        destruct (nonEmptyCatalog deep) eqn:En.
        -- intros [= ->]. right. right. split; [reflexivity|].
           exists es. rewrite Eo. repeat split; auto; discriminate.
        -- destruct (basicFromIndex w es) as [b|] eqn:Eb; simpl; [|discriminate].
           intros [= ->]. right. right. split; [reflexivity|].
           exists es. rewrite Eo. repeat split; auto; discriminate.
    + intros [= H]. right. left. auto.
Qed.

(** The provenance tags a selected catalog can carry. *)
Lemma selector_provenance (c : Catalog.t) :
  extractFromRunningStorybook w storybookUrl = Ok (Some c) ->
  In (Catalog.extractedFrom c)
     ["source-files"; "built-storybook"; "running-storybook-deep";
      "storybook-index-basic"].
Proof.
  intros [[H _] | [(_ & H & _) | (_ & es & _ & _ & [H | H])]]%selector_cases.
  - apply source_catalog in H as [-> _]. simpl. auto.
  - apply built_catalog in H as [-> _]. simpl. auto.
  - apply deep_catalog in H as [-> _]. simpl. auto.
  - apply basic_catalog in H as [-> _]. simpl. auto.
Qed.

(** The enhancement step never replaces the catalog it was given. *)
Lemma enhance_keeps (metadata m : Catalog.t) :
  enhance w storybookUrl metadata = Ok m -> m = metadata.
Proof.
  unfold enhance.
  destruct (extractFromRunningStorybook w storybookUrl) as [[e|]|] eqn:E;
    simpl; try congruence.
  destruct (string_eqb (Catalog.extractedFrom e) "running-storybook") eqn:Et;
    [|congruence].
  apply string_eqb_eq in Et. apply selector_provenance in E.
  rewrite Et in E. simpl in E. intuition discriminate.
Qed.

End Strategies.

(** What is written to the output file has a recomputed count. *)
Lemma saved_catalog_count (w : World) (args : list string) (c : Catalog.t) :
  main w args = Saved c -> Catalog.totalStories c = size (Catalog.stories c).
Proof.
  unfold main. destruct (extractByMode w args) as [[[m|]|]|]; try discriminate.
  intros [= <-]. reflexivity.
Qed.

(** ** The count of the built-index strategy *)

Lemma built_one_story :
  extractFromBuiltStorybook (builtOnly oneStoryIndex)
  = Some (Catalog.mk "1.0.0" "2024-01-01T00:00:00.000Z" "built-storybook" 0
            (<["button--primary" := primaryBasic]> ∅)).
Proof. reflexivity. Qed.

(** C1 at the failing input: on a built index with one story, the catalog
    that the built-index strategy returns has one entry in [stories] and
    [totalStories] equal to 0. *)
Theorem built_catalog_count_stale :
  exists c,
    extractFromBuiltStorybook (builtOnly oneStoryIndex) = Some c
    /\ size (Catalog.stories c) = 1
    /\ Catalog.totalStories c = 0
    /\ Catalog.totalStories c <> size (Catalog.stories c).
Proof.
  eexists. split; [apply built_one_story|].
  cbn [Catalog.stories Catalog.totalStories].
  rewrite insert_empty, map_size_singleton. repeat split. discriminate.
Qed.

(** ** The strategy selector *)

(** C3, as stated, fails: source-file parsing is unavailable and a built
    index is on disk, yet the selector answers with the basic catalog of
    the running server's index, tagged "storybook-index-basic". *)
Lemma selector_prefers_live_index :
  let w := liveServer oneStoryIndex NotInstalled in
  fst (extractFromSourceFiles w) = None
  /\ (exists b, extractFromBuiltStorybook w = Some b)
  /\ exists c,
       extractFromRunningStorybook w "http://localhost:6006" = Ok (Some c)
       /\ Catalog.extractedFrom c = "storybook-index-basic"
       /\ Catalog.extractedFrom c <> "built-storybook"
       /\ extractFromRunningStorybook w "http://localhost:6006"
          <> Ok (extractFromBuiltStorybook w).
Proof.
  intros w. split; [reflexivity|]. split; [eexists; reflexivity|].
  destruct (extractFromRunningStorybook w "http://localhost:6006")
    as [[c|]|] eqn:E; try (vm_compute in E; discriminate).
  exists c. split; [reflexivity|].
  assert (Hc : Catalog.extractedFrom c = "storybook-index-basic").
  { vm_compute in E. injection E as <-. reflexivity. }
  split; [exact Hc|]. split; [rewrite Hc; discriminate|].
  intros H.
  assert (Hb : extractFromBuiltStorybook w = Some c) by congruence.
  apply built_catalog in Hb as [Hb _]. congruence.
Qed.

(** C3, amended: the selector returns the catalog of source-file parsing
    whenever that has [totalStories > 0]; when source-file parsing fails or
    yields no story and the running server's index cannot be fetched or is
    empty, the selector's answer is that of the built-index strategy, whose
    catalog is tagged "built-storybook"; when the running server's index
    has entries, the selected catalog is tagged "running-storybook-deep" or
    "storybook-index-basic". *)
Theorem selector_order (w : World) (storybookUrl : string) :
  (forall c, fst (extractFromSourceFiles w) = Some c ->
             0 < Catalog.totalStories c ->
             extractFromRunningStorybook w storybookUrl = Ok (Some c))
  /\ (nonEmptyCatalog (fst (extractFromSourceFiles w)) = false ->
      (extractBasicMetadataFromIndex w storybookUrl = None
       \/ exists es, extractBasicMetadataFromIndex w storybookUrl = Some es
                     /\ objectEntries es = []) ->
      extractFromRunningStorybook w storybookUrl = Ok (extractFromBuiltStorybook w))
  /\ (forall c, extractFromBuiltStorybook w = Some c ->
                Catalog.extractedFrom c = "built-storybook")
  /\ (nonEmptyCatalog (fst (extractFromSourceFiles w)) = false ->
      forall es, extractBasicMetadataFromIndex w storybookUrl = Some es ->
                 objectEntries es <> [] ->
                 forall c, extractFromRunningStorybook w storybookUrl = Ok (Some c) ->
                           Catalog.extractedFrom c = "running-storybook-deep"
                           \/ Catalog.extractedFrom c = "storybook-index-basic").
Proof.
  split; [|split; [|split]].
  - intros c Hc Hn. unfold extractFromRunningStorybook. rewrite Hc. simpl.
    now rewrite (proj2 (Nat.ltb_lt _ _) Hn).
  - intros Hs Hi. unfold extractFromRunningStorybook. rewrite Hs.
    destruct Hi as [-> | (es & -> & ->)]; reflexivity.
  - intros c Hc. now apply built_catalog in Hc.
  - intros Hs es Hi Hne c Hc.
    apply selector_cases in Hc
      as [[H1 H2] | [(_ & _ & [H | (es' & H & He)]) | (_ & es' & H & _ & [Hd | Hb])]].
    + rewrite H1 in Hs. simpl in Hs. apply Nat.ltb_lt in H2. congruence.
    + congruence.
    + rewrite Hi in H. injection H as <-. contradiction.
    + left. now apply deep_catalog in Hd.
    + right. now apply basic_catalog in Hb.
Qed.

Lemma selector_order_witness :
  let w := builtOnly oneStoryIndex in
  extractFromRunningStorybook w "http://localhost:6006"
  = Ok (extractFromBuiltStorybook w)
  /\ exists c, extractFromBuiltStorybook w = Some c
               /\ Catalog.extractedFrom c = "built-storybook".
Proof.
  intros w.
  destruct (selector_order w "http://localhost:6006") as (_ & H2 & H3 & _).
  split.
  - apply H2; [reflexivity | left; reflexivity].
  - eexists. split; [reflexivity|]. apply H3. reflexivity.
Defined.

(** ** The enhance flag *)

(** C4 at the failing input: a built index on disk, a running server and a
    browser in which every story is introspected.  The retry of the
    enhance flag yields a non-empty catalog tagged
    "running-storybook-deep", and what build mode saves is still the
    catalog of the built index, the same as without the flag. *)
Theorem enhance_has_no_effect :
  let w := liveServer oneStoryIndex introspecting in
  (exists e,
      extractFromRunningStorybook w (storybookUrlOf w ["--build"; "--enhance"])
      = Ok (Some e)
      /\ 0 < Catalog.totalStories e
      /\ Catalog.extractedFrom e = "running-storybook-deep")
  /\ exists c,
       main w ["--build"; "--enhance"] = Saved c
       /\ Catalog.extractedFrom c = "built-storybook"
       /\ main w ["--build"] = Saved c.
Proof.
  intros w. split.
  - destruct (extractFromRunningStorybook w (storybookUrlOf w ["--build"; "--enhance"]))
      as [[e|]|] eqn:E; try (vm_compute in E; discriminate).
    exists e. split; [reflexivity|].
    vm_compute in E. injection E as <-. split; [simpl; lia | reflexivity].
  - destruct (main w ["--build"]) as [m| |e|c] eqn:E;
      try (vm_compute in E; discriminate).
    exists c.
    assert (E' : main w ["--build"; "--enhance"] = Saved c).
    { rewrite <- E. vm_compute. reflexivity. }
    split; [exact E'|]. split; [|reflexivity].
    vm_compute in E. injection E as <-. reflexivity.
Qed.

(** In every project and for every arguments, the enhancement step of build
    mode leaves the saved catalog as it would be without the flag: no
    strategy tags its catalog "running-storybook", the only tag the step
    accepts. *)
Lemma enhance_never_replaces (w : World) (storybookUrl : string)
    (metadata : Catalog.t) :
  enhance w storybookUrl metadata = Ok metadata
  \/ exists e, enhance w storybookUrl metadata = Throw e.
Proof.
  destruct (enhance w storybookUrl metadata) as [m|e] eqn:E; [|eauto].
  apply enhance_keeps in E as ->. now left.
Qed.

(* ===================================================================== *)
(** * Further properties of the extractor *)
(* ===================================================================== *)

(** ** Story ids, continued *)


(** X1: the id is the slug of the title, the separator, and the slug of the
    name: slugging the joined text and slugging the parts agree. *)
Theorem generateStoryId_splits (title name : value) :
  generateStoryId title name
  = (slug (jsToString title) ++ "--" ++ slug (jsToString name))%string.
Proof.
  unfold generateStoryId, slug, JsString.replaceWhiteSpace.
  rewrite toLowerCase_app.
  change (JsString.toLowerCase ("--" ++ jsToString name))
    with (String "-" (String "-" (JsString.toLowerCase (jsToString name)))).
  rewrite replaceWhiteSpaceFrom_hyphen.
  change (JsString.replaceWhiteSpaceFrom false
            (String "-" (JsString.toLowerCase (jsToString name))))
    with (String "-" (JsString.replaceWhiteSpaceFrom false
                        (JsString.toLowerCase (jsToString name)))).
  rewrite replaceSlashes_app, stripNonSlug_app. reflexivity.
Qed.

(** X2: every id consists of characters of [a-z0-9-] only, whatever the
    title and the name, and slugging an id again leaves it unchanged. *)
Theorem generateStoryId_is_slug (title name : value) :
  JsString.forallb JsString.isSlugChar (generateStoryId title name) = true
  /\ slug (generateStoryId title name) = generateStoryId title name.
Proof.
  assert (H : JsString.forallb JsString.isSlugChar (generateStoryId title name) = true)
    by apply stripNonSlug_chars.
  split; [exact H|]. unfold slug, JsString.replaceWhiteSpace.
  rewrite (toLowerCase_slug _ H), (replaceWhiteSpaceFrom_slug _ _ H),
    (replaceSlashes_slug _ H), (stripNonSlug_slug _ H). reflexivity.
Qed.

(** ** The normalizer never leaves null in an array *)

Section NormalizerFacts.

Lemma obj_set_forallb (Q : string * value -> bool) (o : obj) (k : string) (v : value) :
  (forall k', Q (k', v) = true) ->
  forallb Q o = true -> forallb Q (obj_set o k v) = true.
Proof.
  intros Hv. induction o as [|[k' v'] o IH]; simpl.
  - intros _. now rewrite Hv.
  - intros [H1 H2]%andb_true_iff. destruct (string_eqb k' k); simpl.
    + now rewrite Hv, H2.
    + now rewrite H1, IH.
Qed.

Lemma extractProperty_nullFree (ps : list property) (o : obj) :
  Forall (member_all (fun n => nullFreeArrays (extractValue n) = true)) ps ->
  forallb (fun kv => nullFreeArrays (snd kv)) o = true ->
  forallb (fun kv => nullFreeArrays (snd kv)) (fold_left extractProperty ps o) = true.
Proof.
  revert o. induction ps as [|p ps IH]; intros o H Ho; simpl; [exact Ho|].
  apply Forall_cons in H as [Hp H]. apply IH; [exact H|]. unfold extractProperty.
  destruct p as [k v|k|a]; simpl in *; try destruct (propertyKey k) as [s|];
    try exact Ho.
  destruct (assign_cases o s (extractValue v)) as [[_ ->] | [_ ->]]; [exact Ho|].
  apply obj_set_forallb; [|exact Ho]. intros k'. simpl. apply Hp.
Qed.

End NormalizerFacts.

(** X3: in a normalized value no array, at any depth, contains null: a
    null element is dropped wherever an array literal occurs in the
    expression. *)
Theorem extractValue_null_free_arrays (n : node) :
  nullFreeArrays (extractValue n) = true.
Proof.
  induction n using node_induction; try reflexivity.
  - rewrite extractValue_object. simpl nullFreeArrays.
    change (extractObjectLiteral (ObjectExpression ps))
      with (fold_left extractProperty ps []).
    now apply extractProperty_nullFree.
  - change (extractValue (ArrayExpression els))
      with (VArr (List.filter (fun v => negb (is_null v)) (map extractElement els))).
    simpl.
    induction els as [|el els IH]; simpl; [reflexivity|].
    apply Forall_cons in H as [Hel H]. specialize (IH H).
    destruct (is_null (extractElement el)) eqn:E; simpl; [exact IH|].
    rewrite E. simpl. rewrite IH, andb_true_r.
    destruct el as [e|]; simpl in *; [exact Hel | discriminate].
  - exact IHn.
Qed.

(** ** Object literals *)

(** X4: the mapping read from an object literal has no repeated key and no
    empty key, also through type assertions. *)
Theorem extractObjectLiteral_keys (n : node) :
  NoDup (obj_keys (extractObjectLiteral n))
  /\ Forall (fun k => JsString.nonEmpty k = true) (obj_keys (extractObjectLiteral n)).
Proof.
  induction n; simpl; try (split; constructor).
  - apply extractProperty_keys; constructor.
  - exact IHn.
Qed.



(** ** The meta object *)

Section MetaFacts.

Lemma named_iff (p : property) (k : string) :
  named p k = true <-> prop_key_name p = Some k.
Proof.
  unfold named. destruct (prop_key_name p) as [x|]; [|split; discriminate].
  rewrite string_eqb_eq. split; congruence.
Qed.

Lemma named_other (p : property) (k k' : string) :
  named p k = true -> k <> k' -> named p k' = false.
Proof.
  intros H Hne. apply named_iff in H. apply not_true_is_false.
  intros H'%named_iff. congruence.
Qed.

Lemma elementValues_throws (els : list (option node)) :
  (exists e, elementValues els = Throw e)
  <-> existsb (fun el => match el with None => true | Some _ => false end) els = true.
Proof.
  induction els as [|[e|] els IH]; simpl.
  - split; [intros [e H]; discriminate | discriminate].
  - rewrite <- IH. destruct (elementValues els); simpl;
      split; intros [x H]; try discriminate; eauto.
  - split; eauto.
Qed.

Lemma filterBoolean_truthy (vs : list (option value)) :
  Forall (fun t => truthy t = true) (filterBoolean vs).
Proof.
  induction vs as [|[v|] vs IH]; simpl; auto.
  destruct (truthy v) eqn:E; auto.
Qed.

(** One turn of the loop throws exactly on a [tags] array with a hole. *)
Lemma metaProperty_throws (meta : Meta.t) (p : property) :
  (exists e, metaProperty meta p = Throw e) <-> holeInTags p = true.
Proof.
  destruct meta as [t c a ps tg]. unfold metaProperty, holeInTags.
  destruct (named p "tags") eqn:Etags.
  - rewrite (named_other p "tags" "title" Etags), (named_other p "tags" "argTypes" Etags),
      (named_other p "tags" "parameters" Etags) by discriminate.
    simpl. destruct (arrayElements p) as [els|].
    + rewrite <- elementValues_throws.
      destruct (elementValues els); simpl; split; intros [x H]; try discriminate; eauto.
    + rewrite (named_other p "tags" "component" Etags) by discriminate.
      split; [intros [x H]; discriminate | discriminate].
  - simpl. split; [|discriminate]. intros [e H]. exfalso.
    destruct (named p "title" && truthy_opt (prop_literal p)); [discriminate|].
    destruct (if named p "argTypes" then objectValue p else None); [discriminate|].
    destruct (if named p "parameters" then objectValue p else None); [discriminate|].
    destruct (named p "component"); discriminate.
Qed.

Lemma foldlM_metaProperty_throws (props : list property) (meta : Meta.t) :
  (exists e, foldlM metaProperty props meta = Throw e)
  <-> existsb holeInTags props = true.
Proof.
  revert meta. induction props as [|p props IH]; intros meta; simpl.
  - split; [intros [e H]; discriminate | discriminate].
  - rewrite orb_true_iff, <- (metaProperty_throws meta p).
    destruct (metaProperty meta p) as [m1|e1] eqn:E; simpl.
    + rewrite (IH m1). split; [auto | intros [[e H] | H]; [discriminate | exact H]].
    + split; eauto.
Qed.

Lemma metaProperty_shape (meta meta' : Meta.t) (p : property) :
  metaShape meta -> metaProperty meta p = Ok meta' -> metaShape meta'.
Proof.
  destruct meta as [t c a ps tg]. unfold metaShape, metaProperty. simpl.
  intros (Ht & Htags & Hc).
  destruct (named p "title" && truthy_opt (prop_literal p)) eqn:E1.
  { intros [= <-]. simpl. split; [|auto].
    apply andb_true_iff in E1 as [_ E1].
    destruct (prop_literal p); simpl in *; [auto | discriminate]. }
  destruct (if named p "argTypes" then objectValue p else None).
  { intros [= <-]. simpl. auto. }
  destruct (if named p "parameters" then objectValue p else None).
  { intros [= <-]. simpl. auto. }
  destruct (if named p "tags" then arrayElements p else None) as [els|].
  { destruct (elementValues els) as [vs|]; simpl; [|discriminate].
    intros [= <-]. simpl. split; [exact Ht|]. split; [|exact Hc].
    eauto using filterBoolean_truthy. }
  destruct (named p "component").
  - intros [= <-]. simpl. split; [exact Ht|]. split; [exact Htags|].
    unfold valueName. destruct (prop_value p) as [[]|]; auto.
    destruct (JsString.nonEmpty name) eqn:En; eauto.
  - intros [= <-]. simpl. auto.
Qed.

Lemma foldlM_metaProperty_shape (props : list property) (meta meta' : Meta.t) :
  metaShape meta -> foldlM metaProperty props meta = Ok meta' -> metaShape meta'.
Proof.
  revert meta. induction props as [|p props IH]; intros meta Hm; simpl.
  - now intros [= <-].
  - destruct (metaProperty meta p) as [m1|] eqn:E; simpl; [|discriminate].
    apply IH. eauto using metaProperty_shape.
Qed.

Lemma metaShape_initial : metaShape Meta.initial.
Proof.
  split; [left; reflexivity|]. split; [|left; reflexivity].
  exists []. split; [reflexivity | constructor].
Qed.

(** A loop in which some turn throws from every state throws. *)
Lemma foldlM_throws_at {A B : Type} (f : A -> B -> result A) (l : list B) (b : B) :
  In b l -> (forall a, exists e, f a b = Throw e) ->
  forall a, exists e, foldlM f l a = Throw e.
Proof.
  intros Hin Hb. induction l as [|b' l IH]; [destruct Hin|]. intros a. simpl.
  destruct (f a b') as [a'|e] eqn:E; simpl; [|eauto].
  destruct Hin as [-> | Hin]; [|now apply IH].
  destruct (Hb a) as [e He]. congruence.
Qed.

Lemma extractMetaObject_throws_at (d : node) :
  (exists e, extractMetaObject d = Throw e)
  <-> existsb holeInTags (metaObjectProps d) = true.
Proof.
  induction d; simpl; try (split; [intros [e H]; discriminate | discriminate]).
  - apply foldlM_metaProperty_throws.
  - exact IHd.
Qed.

End MetaFacts.

(** X6: reading the meta object throws exactly when the object literal
    (under any number of type assertions) has a property named tags whose
    value is an array literal with a hole; in every other case it returns
    a meta. *)
Theorem extractMetaObject_throws (d : node) :
  (exists e, extractMetaObject d = Throw e)
  <-> existsb holeInTags (metaObjectProps d) = true.
Proof. apply extractMetaObject_throws_at. Qed.

(** X7: whatever meta object is read, the title is the empty string or
    truthy, the tags are a list of truthy values, and the component is
    null or a non-empty identifier name. *)
Theorem extractMetaObject_shape (d : node) (m : Meta.t) :
  extractMetaObject d = Ok m -> metaShape m.
Proof.
  revert m. induction d; simpl; intros m H;
    try (injection H as <-; apply metaShape_initial).
  - eapply foldlM_metaProperty_shape; [apply metaShape_initial | exact H].
  - auto.
Qed.

Lemma extractMetaObject_shape_witness :
  metaShape
    (Meta.mk (VStr "Button") (VStr "Button") [] [] (Some [VStr "autodocs"])).
Proof.
  apply (extractMetaObject_shape
           (TSAsExpression
              (ObjectExpression
                 [ ObjectProperty (Identifier "title") (StringLiteral "Button");
                   ObjectProperty (Identifier "component") (Identifier "Button");
                   ObjectProperty (Identifier "tags")
                     (ArrayExpression [Some (StringLiteral "autodocs");
                                       Some (StringLiteral "")]) ]))).
  reflexivity.
Defined.

(** X8: a file whose default export has a tags array with a hole is dropped
    as a whole: whatever else it contains, it writes no story and ends in
    the per-file catch. *)
Theorem tags_hole_drops_file (f : SourceFile) (code : string)
    (visits : list visit) (d : node) (stories : gmap string StoryRecord.t) :
  source f = Ok code -> parsed f = Ok visits ->
  In (ExportDefaultDeclaration d) visits ->
  existsb holeInTags (metaObjectProps d) = true ->
  exists e, processFile f stories = (stories, Some e).
Proof.
  intros Hs Hp Hin Hd. unfold processFile. rewrite Hs, Hp.
  destruct (foldlM_throws_at visitNode visits (ExportDefaultDeclaration d) Hin)
    with (a := (Meta.placeholder, @nil (string * StoryData.t))) as [e He].
  - intros [m t]. simpl. apply extractMetaObject_throws_at in Hd as [e ->]. eauto.
  - unfold traverse. rewrite He. eauto.
Qed.

Lemma tags_hole_drops_file_witness :
  exists e,
    processFile
      {| basename := "Hole.stories.js";
         relativePath := "./src/Hole.stories.js";
         source := Ok "export default { tags: [, 'a'] }";
         parsed := Ok [ ExportNamedDeclaration
                          (Some (VariableDeclaration [Identifier "Primary"]));
                        ExportDefaultDeclaration
                          (ObjectExpression
                             [ObjectProperty (Identifier "tags")
                                (ArrayExpression [None; Some (StringLiteral "a")])]) ] |}
      ∅
    = (∅, Some e).
Proof.
  apply (tags_hole_drops_file _ "export default { tags: [, 'a'] }"
           [ ExportNamedDeclaration
               (Some (VariableDeclaration [Identifier "Primary"]));
             ExportDefaultDeclaration
               (ObjectExpression
                  [ObjectProperty (Identifier "tags")
                     (ArrayExpression [None; Some (StringLiteral "a")])]) ]
           (ObjectExpression
              [ObjectProperty (Identifier "tags")
                 (ArrayExpression [None; Some (StringLiteral "a")])]));
    [reflexivity | reflexivity | right; left; reflexivity | reflexivity].
Defined.

(** ** Deriving actions *)

Section ActionShape.

Lemma obj_set_In {A : Type} (o : list (string * A)) (k k' : string) (v a : A) :
  In (k', a) (obj_set o k v) -> (k' = k /\ a = v) \/ In (k', a) o.
Proof.
  induction o as [|[k1 v1] o IH]; simpl.
  - intros [[= <- <-] | []]. auto.
  - destruct (string_eqb k1 k) eqn:E; simpl.
    + apply string_eqb_eq in E as ->. intros [[= <- <-] | H]; auto.
    + intros [H | H]; [auto|]. destruct (IH H); auto.
Qed.

Lemma assign_In {A : Type} (o : list (string * A)) (k k' : string) (v a : A) :
  In (k', a) (assign o k v) -> (k' = k /\ a = v) \/ In (k', a) o.
Proof.
  destruct (assign_cases o k v) as [[_ ->] | [_ ->]]; [auto | apply obj_set_In].
Qed.

Lemma actionFromArgType_throws (acc : obj) (key : string) (config : value) :
  (exists e, actionFromArgType acc (key, config) = Throw e) <-> config = VNull.
Proof.
  unfold actionFromArgType. destruct config; simpl;
    try (split; [intros [e H]; revert H; repeat case_match; discriminate
                | discriminate]).
  split; eauto.
Qed.

Lemma foldlM_actionFromArgType_throws (argTypes acc : obj) :
  (exists e, foldlM actionFromArgType argTypes acc = Throw e)
  <-> exists k, In (k, VNull) argTypes.
Proof.
  revert acc. induction argTypes as [|[k c] argTypes IH]; intros acc.
  - simpl. split; [intros [e H]; discriminate | intros [k []]].
  - cbn [foldlM]. destruct (actionFromArgType acc (k, c)) as [acc'|e] eqn:E;
      cbn [mbind result_bind].
    + rewrite IH. split.
      * intros [k' H]. exists k'. now right.
      * intros [k' [[= -> ->] | H]]; [|eauto].
        destruct (proj2 (actionFromArgType_throws acc k' VNull) eq_refl). congruence.
    + split; [|eauto]. intros _. exists k. left.
      now rewrite (proj1 (actionFromArgType_throws acc k c) (ex_intro _ e E)).
Qed.

Lemma stringOr_cases (x : option value) (key : string) :
  (stringOr x key = VStr key)
  \/ exists s, x = Some (VStr s) /\ stringOr x key = VStr s.
Proof. destruct x as [[]|]; simpl; eauto. Qed.

Lemma actionFromArg_shape (argTypes args acc : obj) :
  (forall k a, In (k, a) acc -> actionShape argTypes k a) ->
  forall k a, In (k, a) (fold_left (actionFromArg argTypes) args acc) ->
              actionShape argTypes k a.
Proof.
  revert acc. induction args as [|[k' v'] args IH]; intros acc Hacc; simpl; [exact Hacc|].
  apply IH. destruct (_ || _); [|exact Hacc].
  intros k a [[-> ->] | H]%assign_In; [|auto].
  eexists _, _. split; [reflexivity | now left].
Qed.

Lemma actionFromArgType_shape (argTypes0 argTypes acc acts : obj) :
  (forall kv, In kv argTypes -> In kv argTypes0) ->
  (forall k a, In (k, a) acc -> actionShape argTypes0 k a) ->
  foldlM actionFromArgType argTypes acc = Ok acts ->
  forall k a, In (k, a) acts -> actionShape argTypes0 k a.
Proof.
  revert acc. induction argTypes as [|[k' c'] argTypes IH]; intros acc Hsub Hacc.
  - now intros [= <-].
  - cbn [foldlM]. destruct (actionFromArgType acc (k', c')) as [acc'|] eqn:E;
      [|discriminate]. cbn [mbind result_bind].
    apply IH; [intros kv H; apply Hsub; now right|].
    unfold actionFromArgType in E.
    destruct (get c' "action") as [act|] eqn:Ea; [|discriminate].
    apply get_field in Ea as ->. cbn [mbind result_bind] in E.
    destruct (_ || _); injection E as <-; [|exact Hacc].
    intros k a [[-> ->] | H]%assign_In; [|auto].
    match goal with
    | |- context [stringOr ?x k'] =>
        destruct (stringOr_cases x k') as [-> | (s & Hs & ->)]
    end.
    + eexists _, _. split; [reflexivity | now left].
    + eexists _, _. split; [reflexivity|]. right. exists c'.
      split; [apply Hsub; now left | exact Hs].
Qed.

End ActionShape.

(** X9: deriving the actions throws exactly when some entry of argTypes is
    null; the args never make it throw. *)
Theorem extractActionsFromArgs_throws (args argTypes : obj) :
  (exists e, extractActionsFromArgs args argTypes = Throw e)
  <-> exists k, In (k, VNull) argTypes.
Proof. apply foldlM_actionFromArgType_throws. Qed.

(** X10: every action record is stored under its own name, and its action
    field is a string: the name itself, or the string that the argTypes
    entry of that name gives as its action. *)
Theorem extractActionsFromArgs_records (args argTypes acts : obj)
    (k : string) (a : value) :
  extractActionsFromArgs args argTypes = Ok acts ->
  In (k, a) acts ->
  exists description action,
    a = VObj [("name", VStr k); ("description", description);
              ("action", VStr action)]
    /\ (action = k
        \/ exists config, In (k, config) argTypes
                          /\ field (Some config) "action" = Some (VStr action)).
Proof.
  intros H Hin.
  apply (actionFromArgType_shape argTypes argTypes _ acts (fun _ H => H)
           (actionFromArg_shape argTypes args [] (fun _ _ H => match H with end))
           H k a Hin).
Qed.

Lemma extractActionsFromArgs_records_witness :
  exists description action,
    actionRecord (VStr "onClick") (VStr "") (VStr "clicked")
    = VObj [("name", VStr "onClick"); ("description", description);
            ("action", VStr action)]
    /\ (action = "onClick"
        \/ exists config,
             In ("onClick", config) [("onClick", VObj [("action", VStr "clicked")])]
             /\ field (Some config) "action" = Some (VStr action)).
Proof.
  apply (extractActionsFromArgs_records
           [("onClick", VStr "[Function]")]
           [("onClick", VObj [("action", VStr "clicked")])]
           [("onClick", actionRecord (VStr "onClick") (VStr "") (VStr "clicked"))]);
    [reflexivity | left; reflexivity].
Defined.

(** X11: a file that parses, declares at least one story and whose meta has
    a null entry in argTypes is dropped as a whole: it writes no story and
    ends in the per-file catch. *)
Theorem null_argType_drops_file (f : SourceFile) (code : string)
    (visits : list visit) (m : Meta.t) (table : storyTable) (k : string)
    (stories : gmap string StoryRecord.t) :
  source f = Ok code -> parsed f = Ok visits ->
  traverse visits = Ok (m, table) -> table <> [] ->
  In (k, VNull) (Meta.argTypes m) ->
  exists e, processFile f stories = (stories, Some e).
Proof.
  intros Hs Hp Ht Hne Hk. unfold processFile. rewrite Hs, Hp, Ht.
  destruct table as [|[key sd] table]; [contradiction|]. simpl.
  unfold buildStoryRecord.
  unfold extractActionsFromArgs.
  destruct (proj2 (foldlM_actionFromArgType_throws (Meta.argTypes m)
                     (fold_left (actionFromArg (Meta.argTypes m))
                        (StoryData.args sd) []))
              (ex_intro _ k Hk)) as [e ->].
  simpl. eauto.
Qed.

Lemma null_argType_drops_file_witness :
  exists e,
    processFile
      {| basename := "Null.stories.js";
         relativePath := "./src/Null.stories.js";
         source := Ok "export default { argTypes: { size: null } }";
         parsed := Ok [ ExportDefaultDeclaration
                          (ObjectExpression
                             [ObjectProperty (Identifier "argTypes")
                                (ObjectExpression
                                   [ObjectProperty (Identifier "size") NullLiteral])]);
                        ExportNamedDeclaration
                          (Some (VariableDeclaration [Identifier "Primary"])) ] |}
      ∅
    = (∅, Some e).
Proof.
  apply (null_argType_drops_file _ "export default { argTypes: { size: null } }"
           [ ExportDefaultDeclaration
               (ObjectExpression
                  [ObjectProperty (Identifier "argTypes")
                     (ObjectExpression
                        [ObjectProperty (Identifier "size") NullLiteral])]);
             ExportNamedDeclaration
               (Some (VariableDeclaration [Identifier "Primary"])) ]
           (Meta.mk (VStr "") VNull [("size", VNull)] [] (Some []))
           [("Primary", StoryData.mk "Primary" [] (VStr "Primary"))] "size");
    [reflexivity | reflexivity | reflexivity | discriminate | left; reflexivity].
Defined.

(** ** The story table of a file *)

(** X12: after the walk of a file that makes no use of the name
    [__proto__], the table has, without repetition, exactly the names
    declared by its named exports; each story carries its own name, and a
    story whose args are assigned nowhere in the file has the empty mapping
    as args (it is present, not absent). *)
Theorem traverse_stories_are_exports (visits : list visit) (m : Meta.t)
    (table : storyTable) (x : string) :
  traverse visits = Ok (m, table) ->
  existsb usesPrototype visits = false ->
  (is_Some (obj_get table x) <-> In x (exportedNames visits))
  /\ NoDup (obj_keys table)
  /\ (forall sd, obj_get table x = Some sd ->
                 StoryData.name sd = x
                 /\ (existsb (assignsArgs x) visits = false -> StoryData.args sd = [])).
Proof.
  intros H Hproto%usesPrototype_exports. apply foldlM_visitNode_table in H as ->.
  destruct (tableSteps visits [] x) as (I1 & I2 & I3).
  split; [|split].
  - rewrite I1. simpl. split.
    + intros [[? H] | [_ H]]; [discriminate | exact H].
    + intros H. right. split; [|exact H]. intros ->. contradiction.
  - apply I2. constructor.
  - intros sd Hsd. split.
    + apply (I3 false); [now right | discriminate | exact Hsd].
    + intros Hno. apply (I3 true); [now left | discriminate | exact Hsd | reflexivity].
Qed.

Lemma traverse_stories_are_exports_witness :
  (is_Some (obj_get [("Primary", StoryData.mk "Primary" [] (VStr "Primary"))] "Primary")
   <-> In "Primary"
         (exportedNames
            [ ExportNamedDeclaration
                (Some (VariableDeclaration [Identifier "Primary"])) ]))
  /\ NoDup (obj_keys [("Primary", StoryData.mk "Primary" [] (VStr "Primary"))])
  /\ (forall sd,
         obj_get [("Primary", StoryData.mk "Primary" [] (VStr "Primary"))] "Primary"
         = Some sd ->
         StoryData.name sd = "Primary"
         /\ (existsb (assignsArgs "Primary")
               [ ExportNamedDeclaration
                   (Some (VariableDeclaration [Identifier "Primary"])) ] = false ->
             StoryData.args sd = [])).
Proof.
  apply (traverse_stories_are_exports
           [ ExportNamedDeclaration
               (Some (VariableDeclaration [Identifier "Primary"])) ]
           Meta.placeholder
           [("Primary", StoryData.mk "Primary" [] (VStr "Primary"))] "Primary").
  - reflexivity.
  - reflexivity.
Defined.

(** ** Runs of the source-file strategy *)

(** X13: every record in the catalog of the source-file strategy is stored
    under its own id, which is made of [a-z0-9-]; kind and story repeat
    title and name, initialArgs repeats args, the title is never empty,
    args, argTypes and actions are mappings and tags is an array. *)
Theorem source_records_well_formed (w : World) (c : Catalog.t)
    (id : string) (r : StoryRecord.t) :
  fst (extractFromSourceFiles w) = Some c ->
  Catalog.stories c !! id = Some r -> sourceRecord id r.
Proof.
  unfold extractFromSourceFiles.
  destruct (parserInstalled w), (srcDirExists w), (storyFiles w) as [files|];
    simpl; try discriminate.
  pose proof (processFiles_inv sourceRecord files ∅ []
                (fun m rel code key sd => buildStoryRecord_sourceRecord m rel code key sd)
                (map_Forall_empty _)) as H.
  destruct (processFiles files ∅ []) as [stories warnings].
  intros [= <-]. simpl. intros Hr. exact (H id r Hr).
Qed.

Lemma source_records_well_formed_witness :
  sourceRecord "components-button--primary"
    (buttonPrimary "./src/Button.stories.js"
       "export default { title: 'Components/Button' }").
Proof.
  destruct (fst (extractFromSourceFiles (sourceOnly [buttonFile]))) as [c|] eqn:E;
    [|vm_compute in E; discriminate].
  apply (source_records_well_formed (sourceOnly [buttonFile]) c); [exact E|].
  vm_compute in E. injection E as <-. reflexivity.
Defined.

(** X14: when several files of a run write the same id, the record of the
    last of them is the one in the catalog: a record written by a file
    stays unless a later file writes its id. *)
Theorem later_file_wins (w : World) (before after : list SourceFile)
    (f : SourceFile) (id : string) (r : StoryRecord.t) :
  parserInstalled w = true -> srcDirExists w = true ->
  storyFiles w = Ok (before ++ f :: after) ->
  fst (processFile f ∅) !! id = Some r ->
  Forall (fun g => fst (processFile g ∅) !! id = None) after ->
  exists c, fst (extractFromSourceFiles w) = Some c
            /\ Catalog.stories c !! id = Some r.
Proof.
  intros Hp Hd Hf Hr Hafter. unfold extractFromSourceFiles.
  rewrite Hp, Hd, Hf. simpl.
  destruct (processFiles (before ++ f :: after) ∅ []) as [stories warnings] eqn:E.
  eexists. split; [reflexivity|]. simpl.
  change stories with (fst (stories, warnings)). rewrite <- E.
  rewrite processFiles_app, processFiles_cons, (processFiles_untouched _ _ _ _ Hafter).
  rewrite processFile_overlay. now apply lookup_union_Some_l.
Qed.

Lemma later_file_wins_witness :
  exists c,
    fst (extractFromSourceFiles
           (sourceOnly
              [ {| basename := "Old.stories.js";
                   relativePath := "./src/Old.stories.js";
                   source := Ok "old";
                   parsed := Ok buttonStories |};
                buttonFile; untitledFile ])) = Some c
    /\ Catalog.stories c !! "components-button--primary"
       = Some (buttonPrimary "./src/Button.stories.js"
                 "export default { title: 'Components/Button' }").
Proof.
  apply (later_file_wins _
           [ {| basename := "Old.stories.js";
                relativePath := "./src/Old.stories.js";
                source := Ok "old";
                parsed := Ok buttonStories |} ]
           [untitledFile] buttonFile); try reflexivity.
  constructor; [|constructor]. vm_compute. reflexivity.
Defined.

(** X15: the source-file strategy answers null exactly when the parser is
    not installed, the source directory is missing or the search for story
    files throws; a run in which no file can be read or parsed still
    answers a catalog, with no story and one warning per file. *)
Theorem source_strategy_failure (w : World) :
  (fst (extractFromSourceFiles w) = None
   <-> parserInstalled w = false \/ srcDirExists w = false
       \/ exists e, storyFiles w = Throw e)
  /\ (forall files,
         parserInstalled w = true -> srcDirExists w = true ->
         storyFiles w = Ok files -> Forall unparsable files ->
         exists c, fst (extractFromSourceFiles w) = Some c
                   /\ Catalog.stories c = ∅
                   /\ Catalog.totalStories c = 0
                   /\ length (snd (extractFromSourceFiles w)) = length files).
Proof.
  unfold extractFromSourceFiles. split.
  - destruct (parserInstalled w), (srcDirExists w), (storyFiles w) as [files|e];
      simpl; try (split; [intros _|reflexivity]; eauto; fail).
    destruct (processFiles files ∅ []). simpl.
    split; [discriminate|]. intros [H | [H | [e H]]]; discriminate.
  - intros files -> -> -> Hall. simpl.
    destruct (processFiles_all_unparsable files ∅ [] Hall) as [H1 H2].
    destruct (processFiles files ∅ []) as [stories warnings]. simpl in *. subst stories.
    eexists. split; [reflexivity|]. simpl.
    split; [reflexivity|]. split; [apply map_size_empty | exact H2].
Qed.

Lemma source_strategy_failure_witness :
  exists c, fst (extractFromSourceFiles (sourceOnly [brokenFile])) = Some c
            /\ Catalog.stories c = ∅
            /\ Catalog.totalStories c = 0
            /\ length (snd (extractFromSourceFiles (sourceOnly [brokenFile]))) = 1.
Proof.
  apply (proj2 (source_strategy_failure (sourceOnly [brokenFile])) [brokenFile]);
    try reflexivity.
  constructor; [|constructor]. right. eexists. reflexivity.
Defined.

(** ** The built index and deep introspection *)

Section CollectFacts.
Variable build : string -> value -> result StoryRecord.t.

Lemma collect_cons (k : string) (entry : value) (entries : list (string * value))
    (s : gmap string StoryRecord.t) :
  collect build ((k, entry) :: entries) s
  = match build k entry with
    | Ok r => collect build entries (setStory k r s)
    | Throw e => Throw e
    end.
Proof. unfold collect. simpl. destruct (build k entry); reflexivity. Qed.

Lemma collect_throws (entries : list (string * value)) (s : gmap string StoryRecord.t) :
  (exists e, collect build entries s = Throw e)
  <-> Exists (fun kv => exists e, build (fst kv) (snd kv) = Throw e) entries.
Proof.
  revert s. induction entries as [|[k entry] entries IH]; intros s.
  - rewrite Exists_nil. split; [intros [e H]; discriminate | tauto].
  - rewrite collect_cons, Exists_cons. simpl.
    destruct (build k entry) as [r|e] eqn:E.
    + rewrite IH. split; [auto | intros [[e H] | H]; [discriminate | exact H]].
    + split; eauto.
Qed.

(** The keys after the loop: those there before, and the entry keys other
    than [__proto__]. *)
Lemma collect_keys (entries : list (string * value)) (s s' : gmap string StoryRecord.t)
    (k : string) :
  collect build entries s = Ok s' ->
  is_Some (s' !! k)
  <-> is_Some (s !! k) \/ (k <> "__proto__" /\ In k (map fst entries)).
Proof.
  revert s. induction entries as [|[k' entry] entries IH]; intros s.
  - intros [= <-]. simpl. tauto.
  - rewrite collect_cons. destruct (build k' entry) as [r|]; [|discriminate].
    intros H. rewrite (IH _ H), setStory_lookup. simpl.
    case_decide as Hd.
    + destruct Hd as [-> Hd]. split; [auto | eauto].
    + split.
      * intros [H1 | [Hk H1]]; auto.
      * intros [H1 | [Hk [-> | H1]]]; auto. exfalso. auto.
Qed.

Lemma collect_inv (P : StoryRecord.t -> Prop) (entries : list (string * value))
    (s s' : gmap string StoryRecord.t) :
  (forall k entry r, build k entry = Ok r -> P r) ->
  map_Forall (fun _ => P) s ->
  collect build entries s = Ok s' -> map_Forall (fun _ => P) s'.
Proof.
  intros HP. revert s. induction entries as [|[k' entry] entries IH]; intros s Hs.
  - now intros [= <-].
  - rewrite collect_cons. destruct (build k' entry) as [r|] eqn:E; [|discriminate].
    apply IH. intros i x. rewrite setStory_lookup.
    case_decide; [intros [= <-]; eauto | apply Hs].
Qed.

(** With distinct keys, each key other than [__proto__] holds the record
    built from its entry. *)
Lemma collect_lookup (entries : list (string * value)) (s s' : gmap string StoryRecord.t)
    (k : string) (entry : value) :
  NoDup (map fst entries) -> In (k, entry) entries -> k <> "__proto__" ->
  collect build entries s = Ok s' ->
  exists r, build k entry = Ok r /\ s' !! k = Some r.
Proof.
  intros Hd Hin Hk. revert s Hd Hin.
  induction entries as [|[k' entry'] entries IH]; intros s Hd Hin;
    [destruct Hin|].
  rewrite collect_cons. simpl in Hd. apply NoDup_cons in Hd as [Hk' Hd].
  destruct (build k' entry') as [r|] eqn:E; [|discriminate]. intros H.
  destruct Hin as [[= -> ->] | Hin]; [|eauto].
  exists r. split; [exact E|].
  assert (Hr : setStory k r s !! k = Some r).
  { rewrite (setStory_insert _ _ _ Hk). apply lookup_insert_eq. }
  clear IH E. revert Hr H. generalize (setStory k r s). clear s.
  induction entries as [|[k2 e2] entries IH]; intros s Hr.
  - now intros [= <-].
  - rewrite collect_cons. destruct (build k2 e2) as [r2|]; [|discriminate].
    simpl in Hk', Hd. apply NoDup_cons in Hd as [_ Hd].
    apply IH; [| exact Hd |].
    + intros Hin'. apply Hk'. now right.
    + rewrite setStory_lookup. case_decide as Hc; [|exact Hr].
      destruct Hc as [-> _]. exfalso. apply Hk'. now left.
Qed.

End CollectFacts.

Section BasicFacts.

Lemma get_throws (x : value) (k : string) :
  (exists e, get x k = Throw e) <-> x = VNull.
Proof.
  destruct x; simpl; split; try discriminate; eauto; intros [e H]; discriminate.
Qed.

Lemma get_ok (x : value) (k : string) :
  x <> VNull -> get x k = Ok (field (Some x) k).
Proof. destruct x; simpl; congruence. Qed.

Lemma null_or_not (v : value) : v = VNull \/ v <> VNull.
Proof. destruct v; auto; right; discriminate. Qed.

Lemma extractBasicStoryData_spec (entry : value) :
  (entry = VNull /\ exists e, extractBasicStoryData entry = Throw e)
  \/ (entry <> VNull /\ exists r, extractBasicStoryData entry = Ok r /\ basicOnly r).
Proof.
  destruct (null_or_not entry) as [->|Hne]; [left; split; eauto|].
  right. split; [exact Hne|]. unfold extractBasicStoryData.
  rewrite !(get_ok entry _ Hne). cbn [mbind result_bind].
  eexists. split; [reflexivity|]. repeat split.
Qed.

Lemma basicRecord_spec (storyId : string) (entry : value) :
  (entry = VNull /\ exists e, basicRecord storyId entry = Throw e)
  \/ (entry <> VNull /\ exists r, basicRecord storyId entry = Ok r /\ basicOnly r).
Proof.
  destruct (null_or_not entry) as [->|Hne]; [left; split; eauto|].
  right. split; [exact Hne|]. unfold basicRecord.
  rewrite !(get_ok entry _ Hne). cbn [mbind result_bind].
  eexists. split; [reflexivity|]. repeat split.
Qed.

Lemma deepRecord_ok (storyId : string) (entry : value) (sd : option StoryStore.t) :
  entry <> VNull -> exists r, deepRecord storyId entry sd = Ok r.
Proof.
  intros Hne. unfold deepRecord.
  rewrite !(get_ok entry _ Hne). cbn [mbind result_bind]. eauto.
Qed.

Lemma deepStory_spec (visitStory : string -> result (option StoryStore.t))
    (storyId : string) (entry : value) :
  (entry = VNull /\ exists e, deepStory visitStory storyId entry = Throw e)
  \/ (entry <> VNull /\ exists r, deepStory visitStory storyId entry = Ok r).
Proof.
  unfold deepStory. destruct (basicRecord_spec storyId entry)
    as [[-> [e He]] | [Hne (r & Hr & _)]].
  - left. split; [reflexivity|]. destruct (visitStory storyId); simpl; eauto.
  - right. split; [exact Hne|].
    destruct (visitStory storyId) as [sd|]; cbn [mbind result_bind]; [|eauto].
    destruct (deepRecord_ok storyId entry sd Hne) as [r' ->]. eauto.
Qed.

Lemma Exists_null (l : list (string * value)) (build : string -> value -> result StoryRecord.t) :
  (forall k entry, (exists e, build k entry = Throw e) <-> entry = VNull) ->
  Exists (fun kv => exists e, build (fst kv) (snd kv) = Throw e) l
  <-> Exists (fun kv => snd kv = VNull) l.
Proof.
  intros H. rewrite !Exists_exists. split; intros ([k entry] & Hin & Hx);
    exists (k, entry); (split; [exact Hin|]); simpl in *;
    first [apply (proj1 (H k entry)) | apply (proj2 (H k entry))]; exact Hx.
Qed.

End BasicFacts.

Section StrategyFacts.

Lemma collect_total (build : string -> value -> result StoryRecord.t)
    (entries : list (string * value)) (s : gmap string StoryRecord.t) :
  (forall k entry, (exists e, build k entry = Throw e) <-> entry = VNull) ->
  Forall (fun kv => snd kv <> VNull) entries ->
  exists s', collect build entries s = Ok s'.
Proof.
  intros Hb Hall. destruct (collect build entries s) as [s'|e] eqn:E; [eauto|].
  exfalso. assert (Hex : Exists (fun kv => snd kv = VNull) entries).
  { apply (proj1 (Exists_null _ build Hb)).
    apply (proj1 (collect_throws build entries s)). eauto. }
  apply Exists_exists in Hex as (kv & Hin & Hnull).
  rewrite Forall_forall in Hall. exact (Hall kv Hin Hnull).
Qed.

Lemma build_basic_throws (k : string) (entry : value) :
  (exists e, extractBasicStoryData entry = Throw e) <-> entry = VNull.
Proof.
  destruct (extractBasicStoryData_spec entry) as [[-> H] | [Hne (r & Hr & _)]].
  - tauto.
  - rewrite Hr. split; [intros [e H]; discriminate | contradiction].
Qed.

Lemma basicRecord_throws (k : string) (entry : value) :
  (exists e, basicRecord k entry = Throw e) <-> entry = VNull.
Proof.
  destruct (basicRecord_spec k entry) as [[-> H] | [Hne (r & Hr & _)]].
  - tauto.
  - rewrite Hr. split; [intros [e H]; discriminate | contradiction].
Qed.

Lemma deepStory_throws (visitStory : string -> result (option StoryStore.t))
    (k : string) (entry : value) :
  (exists e, deepStory visitStory k entry = Throw e) <-> entry = VNull.
Proof.
  destruct (deepStory_spec visitStory k entry) as [[-> H] | [Hne (r & Hr)]].
  - tauto.
  - rewrite Hr. split; [intros [e H]; discriminate | contradiction].
Qed.

Lemma collect_nonempty (build : string -> value -> result StoryRecord.t)
    (entries : list (string * value)) (s' : gmap string StoryRecord.t) :
  Exists (fun kv => fst kv <> "__proto__") entries ->
  collect build entries ∅ = Ok s' -> 0 < size s'.
Proof.
  intros Hex H. apply List.Exists_exists in Hex as ([k entry] & Hin & Hk).
  assert (Hs : is_Some (s' !! k)).
  { apply (collect_keys build _ _ _ k H). right. split; [exact Hk|].
    apply List.in_map_iff. exists (k, entry). auto. }
  destruct (decide (size s' = 0)) as [Hz|Hz]; [|lia].
  apply map_size_empty_iff in Hz. subst s'. rewrite lookup_empty in Hs.
  destruct Hs as [? Hs]. discriminate.
Qed.

(** When every entry key is [__proto__], nothing is stored. *)
Lemma collect_prototype_only (build : string -> value -> result StoryRecord.t)
    (entries : list (string * value)) (s s' : gmap string StoryRecord.t) :
  Forall (fun kv => fst kv = "__proto__") entries ->
  collect build entries s = Ok s' -> s' = s.
Proof.
  intros Hall. revert s. induction Hall as [|[k entry] entries Hk _ IH]; intros s.
  - now intros [= <-].
  - rewrite collect_cons. destruct (build k entry) as [r|]; [|discriminate].
    simpl in Hk. subst k. rewrite setStory_prototype. apply IH.
Qed.

End StrategyFacts.

(** X16: the built-index strategy is all or nothing.  With a readable index
    whose entries are all non-null it answers a catalog whose keys are
    exactly the entry keys other than [__proto__] and whose records carry
    basic data only; a single null entry makes it answer null. *)
Theorem built_index_all_or_nothing (w : World) (indexData : value)
    (entries : option value) :
  builtIndex w = Some (Ok indexData) ->
  get indexData "entries" = Ok entries ->
  (Forall (fun kv => snd kv <> VNull) (objectEntries (or_else entries (VObj []))) ->
   exists c,
     extractFromBuiltStorybook w = Some c
     /\ (forall k, is_Some (Catalog.stories c !! k)
                   <-> k <> "__proto__"
                       /\ In k (map fst (objectEntries (or_else entries (VObj [])))))
     /\ map_Forall (fun _ => basicOnly) (Catalog.stories c))
  /\ (Exists (fun kv => snd kv = VNull) (objectEntries (or_else entries (VObj []))) ->
      extractFromBuiltStorybook w = None).
Proof.
  intros Hb Hg. unfold extractFromBuiltStorybook. rewrite Hb, Hg.
  cbn [mbind result_bind Catalog.stories createMetadataStructure].
  set (l := objectEntries (or_else entries (VObj []))).
  set (build := fun (_ : string) entry => extractBasicStoryData entry).
  split.
  - intros Hall.
    destruct (collect_total build l ∅ build_basic_throws Hall) as [s' Hs'].
    rewrite Hs'. eexists. split; [reflexivity|]. simpl. split.
    + intros k. rewrite (collect_keys build l ∅ s' k Hs'), lookup_empty.
      split; [intros [[? H] | H]; [discriminate | exact H] | auto].
    + apply (collect_inv build basicOnly l ∅ s'); [| apply map_Forall_empty | exact Hs'].
      intros k entry r Hr. unfold build in Hr.
      destruct (extractBasicStoryData_spec entry) as [[_ [e He]] | [_ (r' & Hr' & HP)]];
        congruence.
  - intros Hex.
    destruct (proj2 (collect_throws build l ∅))
      as [e ->]; [|reflexivity].
    exact (proj2 (Exists_null l build build_basic_throws) Hex).
Qed.

Lemma built_index_all_or_nothing_witness :
  exists c,
    extractFromBuiltStorybook (builtOnly oneStoryIndex) = Some c
    /\ (forall k, is_Some (Catalog.stories c !! k)
                  <-> k <> "__proto__" /\ In k ["button--primary"])
    /\ map_Forall (fun _ => basicOnly) (Catalog.stories c).
Proof.
  apply (proj1 (built_index_all_or_nothing (builtOnly oneStoryIndex) oneStoryIndex
                  (Some (VObj [("button--primary", primaryEntry)]))
                  eq_refl eq_refl)).
  constructor; [discriminate | constructor].
Defined.

(** X17: with the browser ready and no null entry, deep introspection
    answers a catalog whose keys are exactly the keys of the index other
    than [__proto__] and whose count is the number of stories; a story
    whose visit throws is still there, with the record of its basic
    data. *)
Theorem deep_per_story_fallback (w : World) (storybookUrl : string)
    (storyEntries : value) (visitStory : string -> result (option StoryStore.t)) :
  browser w storybookUrl = Ready visitStory ->
  Forall (fun kv => snd kv <> VNull) (objectEntries storyEntries) ->
  exists c,
    extractDeepMetadataWithBrowser w storybookUrl storyEntries = Ok (Some c)
    /\ Catalog.totalStories c = size (Catalog.stories c)
    /\ (forall k, is_Some (Catalog.stories c !! k)
                  <-> k <> "__proto__" /\ In k (map fst (objectEntries storyEntries)))
    /\ (NoDup (map fst (objectEntries storyEntries)) ->
        forall k entry e,
          In (k, entry) (objectEntries storyEntries) ->
          k <> "__proto__" ->
          visitStory k = Throw e ->
          exists r, basicRecord k entry = Ok r
                    /\ basicOnly r
                    /\ Catalog.stories c !! k = Some r).
Proof.
  intros Hb Hall. unfold extractDeepMetadataWithBrowser. rewrite Hb.
  cbn [Catalog.stories createMetadataStructure].
  destruct (collect_total (deepStory visitStory) (objectEntries storyEntries) ∅
              (deepStory_throws visitStory) Hall) as [s' Hs'].
  rewrite Hs'. eexists. split; [reflexivity|]. simpl.
  split; [reflexivity|]. split.
  - intros k. rewrite (collect_keys _ _ ∅ s' k Hs'), lookup_empty.
    split; [intros [[? H] | H]; [discriminate | exact H] | auto].
  - intros Hd k entry e Hin Hk Hv.
    destruct (collect_lookup _ _ ∅ s' k entry Hd Hin Hk Hs') as (r & Hr & Hl).
    unfold deepStory in Hr. rewrite Hv in Hr. cbn [mbind result_bind] in Hr.
    exists r. split; [exact Hr|]. split; [|exact Hl].
    destruct (basicRecord_spec k entry) as [[_ [e' He']] | [_ (r' & Hr' & HP)]];
      congruence.
Qed.

Lemma deep_per_story_fallback_witness :
  exists c,
    extractDeepMetadataWithBrowser
      (liveServer oneStoryIndex (Ready (fun _ => Throw (Error "Navigation timeout"))))
      "http://localhost:6006" (VObj [("button--primary", primaryEntry)])
    = Ok (Some c)
    /\ Catalog.totalStories c = size (Catalog.stories c)
    /\ (forall k, is_Some (Catalog.stories c !! k)
                  <-> k <> "__proto__" /\ In k ["button--primary"])
    /\ (NoDup ["button--primary"] ->
        forall k entry e,
          In (k, entry) [("button--primary", primaryEntry)] ->
          k <> "__proto__" ->
          (fun _ : string => @Throw (option StoryStore.t) (Error "Navigation timeout")) k
          = Throw e ->
          exists r, basicRecord k entry = Ok r
                    /\ basicOnly r
                    /\ Catalog.stories c !! k = Some r).
Proof.
  apply (deep_per_story_fallback
           (liveServer oneStoryIndex (Ready (fun _ => Throw (Error "Navigation timeout"))))
           "http://localhost:6006" (VObj [("button--primary", primaryEntry)])
           (fun _ => Throw (Error "Navigation timeout")) eq_refl).
  constructor; [discriminate | constructor].
Defined.

(** ** The selector and the command line *)

Section SelectorFacts.
Variables (w : World) (storybookUrl : string).

Lemma nonEmptyCatalog_size (c : Catalog.t) :
  nonEmptyCatalog (Some c) = true ->
  Catalog.totalStories c = size (Catalog.stories c) ->
  Catalog.stories c <> ∅.
Proof.
  simpl. intros H%Nat.ltb_lt E Hs. rewrite E, Hs, map_size_empty in H. lia.
Qed.

Lemma basicFromIndex_nonempty (es : value) (c : Catalog.t) :
  Exists (fun kv => fst kv <> "__proto__") (objectEntries es) ->
  basicFromIndex w es = Ok c -> Catalog.stories c <> ∅.
Proof.
  unfold basicFromIndex. cbn [Catalog.stories createMetadataStructure].
  intros Hne. destruct (collect basicRecord (objectEntries es) ∅) as [s'|] eqn:E;
    [|discriminate].
  cbn [mbind result_bind]. intros [= <-]. simpl. intros ->.
  pose proof (collect_nonempty _ _ _ Hne E) as H. rewrite map_size_empty in H. lia.
Qed.

End SelectorFacts.

(** X18: the selector answers a catalog without stories only through the
    built-index fallback, or as the basic catalog of a running server whose
    index has no key other than [__proto__]; a catalog it takes from source
    files or from deep introspection always has a story. *)
Theorem empty_catalog_origin (w : World) (storybookUrl : string)
    (c : Catalog.t) :
  extractFromRunningStorybook w storybookUrl = Ok (Some c) ->
  Catalog.stories c = ∅ ->
  (extractFromBuiltStorybook w = Some c
   /\ Catalog.extractedFrom c = "built-storybook")
  \/ (exists es,
        extractBasicMetadataFromIndex w storybookUrl = Some es
        /\ objectEntries es <> []
        /\ Forall (fun kv => fst kv = "__proto__") (objectEntries es)
        /\ Catalog.extractedFrom c = "storybook-index-basic").
Proof.
  unfold extractFromRunningStorybook.
  destruct (nonEmptyCatalog (fst (extractFromSourceFiles w))) eqn:Es.
  - intros [= H] Hc. exfalso. rewrite H in Es.
    apply (nonEmptyCatalog_size c Es); [|exact Hc].
    now apply (source_catalog w c).
  - assert (Hbuilt : Ok (extractFromBuiltStorybook w) = Ok (Some c) ->
                     extractFromBuiltStorybook w = Some c
                     /\ Catalog.extractedFrom c = "built-storybook").
    { intros [= H]. split; [exact H|]. now apply (built_catalog w c). }
    destruct (extractBasicMetadataFromIndex w storybookUrl) as [es|]; [|auto].
    destruct (objectEntries es) as [|kv l] eqn:Eo; [auto|]. simpl.
    destruct (extractDeepMetadataWithBrowser w storybookUrl es) as [deep|] eqn:Ed;
      cbn [mbind result_bind]; [|discriminate].
    destruct (nonEmptyCatalog deep) eqn:En.
    + intros [= ->] Hc. exfalso.
      apply (nonEmptyCatalog_size c En); [|exact Hc].
      now apply (deep_catalog w storybookUrl es c).
    + destruct (basicFromIndex w es) as [b|] eqn:Eb; cbn [mbind result_bind];
        [|discriminate].
      intros [= ->] Hc. right. exists es. split; [reflexivity|].
      rewrite Eo. split; [discriminate|]. split; [|now apply (basic_catalog w es c)].
      rewrite <- Eo.
      destruct (@List.Forall_Exists_dec _
                  (fun kv : string * value => fst kv = "__proto__")
                  (fun kv => string_dec (fst kv) "__proto__") (objectEntries es))
        as [Hall | Hex]; [exact Hall|].
      exfalso. now apply (basicFromIndex_nonempty w es c).
Qed.

Lemma empty_catalog_origin_witness :
  let w := liveServer prototypeIndex NotInstalled in
  exists c,
    extractFromRunningStorybook w "http://localhost:6006" = Ok (Some c)
    /\ Catalog.stories c = ∅
    /\ Catalog.totalStories c = 0
    /\ Catalog.extractedFrom c = "storybook-index-basic".
Proof.
  intros w.
  exists (Catalog.mk "1.0.0" "2024-01-01T00:00:00.000Z" "storybook-index-basic" 0 ∅).
  split; [reflexivity|]. split; [reflexivity|]. split; [reflexivity|].
  destruct (empty_catalog_origin w "http://localhost:6006"
              (Catalog.mk "1.0.0" "2024-01-01T00:00:00.000Z"
                 "storybook-index-basic" 0 ∅) eq_refl eq_refl)
    as [[_ H] | (es & _ & _ & _ & H)]; [discriminate H | exact H].
Defined.

(** X19: the selector answers null exactly when source-file parsing gives no
    story, the running server's index is unavailable or empty, and the
    built-index strategy answers null. *)
Theorem selector_null_iff (w : World) (storybookUrl : string) :
  extractFromRunningStorybook w storybookUrl = Ok None
  <-> nonEmptyCatalog (fst (extractFromSourceFiles w)) = false
      /\ extractFromBuiltStorybook w = None
      /\ (extractBasicMetadataFromIndex w storybookUrl = None
          \/ exists es, extractBasicMetadataFromIndex w storybookUrl = Some es
                        /\ objectEntries es = []).
Proof.
  unfold extractFromRunningStorybook.
  destruct (nonEmptyCatalog (fst (extractFromSourceFiles w))) eqn:Es.
  - split; [|intros [H _]; discriminate].
    intros [= H]. rewrite H in Es. discriminate.
  - destruct (extractBasicMetadataFromIndex w storybookUrl) as [es|].
    + destruct (objectEntries es) as [|kv l] eqn:Eo; simpl.
      * split; [intros [= ->]; eauto 6 | intros (_ & -> & _); reflexivity].
      * split.
        -- destruct (extractDeepMetadataWithBrowser w storybookUrl es) as [deep|];
             cbn [mbind result_bind]; [|discriminate].
           destruct (nonEmptyCatalog deep) eqn:En.
           ++ intros [= ->]. discriminate.
           ++ destruct (basicFromIndex w es); cbn [mbind result_bind]; discriminate.
        -- intros (_ & _ & [H | (es' & [= <-] & H)]); [discriminate|].
           rewrite Eo in H. discriminate.
    + split; [intros [= ->]; auto | intros (_ & -> & _); reflexivity].
Qed.

(** X20: a failure to launch the browser is not recovered: in dev mode, when
    source files give no story and the running server's index has
    entries, the run ends in a fatal error although the basic strategy
    could have answered. *)
Theorem browser_launch_failure_is_fatal (w : World) (args : list string)
    (es : value) (e : exn) :
  modeOf args = "--dev" ->
  nonEmptyCatalog (fst (extractFromSourceFiles w)) = false ->
  extractBasicMetadataFromIndex w (storybookUrlOf w args) = Some es ->
  objectEntries es <> [] ->
  browser w (storybookUrlOf w args) = LaunchFails e ->
  main w args = FatalError e.
Proof.
  intros Hm Hs Hi Hne Hb. unfold main, extractByMode. rewrite Hm. simpl.
  unfold extractFromRunningStorybook. rewrite Hs, Hi.
  destruct (objectEntries es) as [|kv l] eqn:Eo; [contradiction|]. simpl.
  unfold extractDeepMetadataWithBrowser. rewrite Hb. reflexivity.
Qed.

Lemma browser_launch_failure_is_fatal_witness :
  main (liveServer oneStoryIndex (LaunchFails (Error "Failed to launch the browser process")))
       ["--dev"]
  = FatalError (Error "Failed to launch the browser process").
Proof.
  apply (browser_launch_failure_is_fatal _ ["--dev"]
           (VObj [("button--primary", primaryEntry)]));
    [reflexivity | reflexivity | reflexivity | discriminate | reflexivity].
Defined.

(** X21: when the browser automation is not installed or its setup fails,
    and source files give no story, the selector degrades to the basic
    catalog of the running server's index: tagged "storybook-index-basic",
    with exactly the keys of the index other than [__proto__], a consistent
    count, and records of basic data only. *)
Theorem degrades_to_basic (w : World) (storybookUrl : string) (es : value) :
  nonEmptyCatalog (fst (extractFromSourceFiles w)) = false ->
  extractBasicMetadataFromIndex w storybookUrl = Some es ->
  objectEntries es <> [] ->
  Forall (fun kv => snd kv <> VNull) (objectEntries es) ->
  (browser w storybookUrl = NotInstalled
   \/ exists e, browser w storybookUrl = SetupFails e) ->
  exists c,
    extractFromRunningStorybook w storybookUrl = Ok (Some c)
    /\ Catalog.extractedFrom c = "storybook-index-basic"
    /\ Catalog.totalStories c = size (Catalog.stories c)
    /\ (forall k, is_Some (Catalog.stories c !! k)
                  <-> k <> "__proto__" /\ In k (map fst (objectEntries es)))
    /\ map_Forall (fun _ => basicOnly) (Catalog.stories c).
Proof.
  intros Hs Hi Hne Hall Hb. unfold extractFromRunningStorybook. rewrite Hs, Hi.
  destruct (objectEntries es) as [|kv l] eqn:Eo; [contradiction|]. simpl.
  assert (Hd : extractDeepMetadataWithBrowser w storybookUrl es = Ok None).
  { unfold extractDeepMetadataWithBrowser. destruct Hb as [-> | [e ->]]; reflexivity. }
  rewrite Hd. cbn [mbind result_bind nonEmptyCatalog].
  unfold basicFromIndex. cbn [Catalog.stories createMetadataStructure]. rewrite Eo.
  destruct (collect_total basicRecord (kv :: l) ∅ basicRecord_throws Hall) as [s' Hs'].
  rewrite Hs'. cbn [mbind result_bind]. eexists. split; [reflexivity|]. simpl.
  split; [reflexivity|]. split; [reflexivity|]. split.
  - intros k. rewrite (collect_keys _ _ ∅ s' k Hs'), lookup_empty.
    split; [intros [[? H] | H]; [discriminate | exact H] | auto].
  - apply (collect_inv basicRecord basicOnly (kv :: l) ∅ s');
      [| apply map_Forall_empty | exact Hs'].
    intros k entry r Hr.
    destruct (basicRecord_spec k entry) as [[_ [e He]] | [_ (r' & Hr' & HP)]];
      congruence.
Qed.

Lemma degrades_to_basic_witness :
  exists c,
    extractFromRunningStorybook (liveServer oneStoryIndex NotInstalled)
      "http://localhost:6006" = Ok (Some c)
    /\ Catalog.extractedFrom c = "storybook-index-basic"
    /\ Catalog.totalStories c = size (Catalog.stories c)
    /\ (forall k, is_Some (Catalog.stories c !! k)
                  <-> k <> "__proto__" /\ In k ["button--primary"])
    /\ map_Forall (fun _ => basicOnly) (Catalog.stories c).
Proof.
  apply (degrades_to_basic (liveServer oneStoryIndex NotInstalled)
           "http://localhost:6006" (VObj [("button--primary", primaryEntry)]));
    [reflexivity | reflexivity | discriminate | | left; reflexivity].
  constructor; [discriminate | constructor].
Defined.

Section MainFacts.

Lemma find_first {A : Type} (f : A -> bool) (pre : list A) (x : A) (rest : list A) :
  Forall (fun a => f a = false) pre -> f x = true ->
  List.find f (pre ++ x :: rest) = Some x.
Proof.
  intros Hpre Hx. induction Hpre as [|a pre Ha _ IH]; simpl.
  - now rewrite Hx.
  - now rewrite Ha.
Qed.

Lemma find_split {A : Type} (f : A -> bool) (l : list A) (x : A) :
  List.find f l = Some x ->
  exists pre rest, l = pre ++ x :: rest
                   /\ Forall (fun a => f a = false) pre /\ f x = true.
Proof.
  induction l as [|a l IH]; simpl; [discriminate|].
  destruct (f a) eqn:E.
  - intros [= ->]. exists [], l. auto.
  - intros (pre & rest & -> & Hpre & Hx)%IH. exists (a :: pre), rest. auto.
Qed.

End MainFacts.

(** X22: the first argument that starts with two hyphens and is neither a
    port nor a deep flag is taken for the mode; unless it is --dev or
    --build the run ends as an invalid mode, whatever follows.  So
    --enhance has to come after the mode. *)
Theorem first_flag_is_the_mode (w : World) (pre rest : list string) (flag : string) :
  Forall (fun a => modeCandidate a = false) pre ->
  modeCandidate flag = true ->
  flag <> "--dev" -> flag <> "--build" ->
  modeOf (pre ++ flag :: rest) = flag
  /\ main w (pre ++ flag :: rest) = InvalidMode flag.
Proof.
  intros Hpre Hflag Hdev Hbuild.
  assert (Hm : modeOf (pre ++ flag :: rest) = flag).
  { unfold modeOf. fold modeCandidate.
    change (fun arg => JsString.startsWith "--" arg
                       && negb (JsString.startsWith "--port" arg)
                       && negb (JsString.startsWith "--deep" arg))
      with modeCandidate.
    now rewrite (find_first modeCandidate pre flag rest Hpre Hflag). }
  split; [exact Hm|]. unfold main, extractByMode. rewrite Hm.
  rewrite (proj2 (string_eqb_neq flag "--dev") Hdev),
    (proj2 (string_eqb_neq flag "--build") Hbuild). reflexivity.
Qed.

Lemma first_flag_is_the_mode_witness :
  modeOf (["--port=6007"] ++ "--enhance" :: ["--build"]) = "--enhance"
  /\ main (builtOnly oneStoryIndex) (["--port=6007"] ++ "--enhance" :: ["--build"])
     = InvalidMode "--enhance".
Proof.
  apply (first_flag_is_the_mode (builtOnly oneStoryIndex)
           ["--port=6007"] ["--build"] "--enhance");
    [constructor; [reflexivity | constructor] | reflexivity | discriminate | discriminate].
Defined.

(** X23: in build mode the run saves the recounted catalog of the built
    index or fails when there is none; source files, the running server
    and the browser have no influence on what is saved, and with the
    enhance flag the only other end is a fatal error. *)
Theorem build_mode_output (w : World) (args : list string) :
  modeOf args = "--build" ->
  (existsb (string_eqb "--enhance") args = false -> main w args = builtOutcome w)
  /\ (main w args = builtOutcome w \/ exists e, main w args = FatalError e)
  /\ (forall c, main w args = Saved c ->
                Catalog.extractedFrom c = "built-storybook"
                /\ Catalog.totalStories c = size (Catalog.stories c)).
Proof.
  intros Hm. unfold main, extractByMode, builtOutcome. rewrite Hm. simpl.
  destruct (extractFromBuiltStorybook w) as [m|] eqn:Eb; [|repeat split; auto; discriminate].
  destruct (existsb (string_eqb "--enhance") args).
  - destruct (enhance w (storybookUrlOf w args) m) as [m'|e] eqn:Ee;
      cbn [mbind result_bind].
    + apply enhance_keeps in Ee as ->. split; [discriminate|]. split; [now left|].
      intros c [= <-]. simpl. split; [now apply (built_catalog w m) | reflexivity].
    + split; [discriminate|]. split; [eauto | discriminate].
  - split; [reflexivity|]. split; [now left|].
    intros c [= <-]. simpl. split; [now apply (built_catalog w m) | reflexivity].
Qed.

Lemma build_mode_output_witness :
  main (liveServer oneStoryIndex introspecting) ["--build"]
  = builtOutcome (liveServer oneStoryIndex introspecting).
Proof.
  apply (proj1 (build_mode_output (liveServer oneStoryIndex introspecting) ["--build"]
                  eq_refl)).
  reflexivity.
Defined.

(** X24: port detection answers the first of the common ports whose page
    looks like Storybook: the answer is such a port and no earlier common
    port is; it answers nothing exactly when no common port is. *)
Theorem detectStorybookPort_first (w : World) :
  match detectStorybookPort w with
  | Some port =>
      exists earlier later,
        commonPorts = earlier ++ port :: later
        /\ answersAsStorybook w port = true
        /\ Forall (fun p => answersAsStorybook w p = false) earlier
  | None => Forall (fun p => answersAsStorybook w p = false) commonPorts
  end.
Proof.
  unfold detectStorybookPort.
  change (fun port => match portPage w port with
                      | Some html => looksLikeStorybook html
                      | None => false
                      end) with (answersAsStorybook w).
  destruct (List.find (answersAsStorybook w) commonPorts) as [port|] eqn:E.
  - apply find_split in E as (pre & rest & H1 & H2 & H3). eauto.
  - apply Forall_forall. intros p Hp%list_elem_of_In.
    exact (find_none _ _ E p Hp).
Qed.

(** ** Actions of the runtime and the saved catalog *)

(** X25: the actions derived from the runtime's argTypes have exactly the
    keys other than [__proto__] of the argTypes entries that carry a truthy
    action field, start with "on", or have table.category "events"; it
    reads no args, so a function-valued arg alone gives no action here. *)
Theorem extractActions_keys (argTypes : value) (k : string) :
  is_Some (obj_get (extractActions argTypes) k)
  <-> k <> "__proto__"
      /\ exists v, In (k, v) (objectEntries argTypes)
                   /\ (truthy_opt (field (Some v) "action") = true
                       \/ JsString.startsWith "on" k = true
                       \/ path (Some v) ["table"; "category"] = Some (VStr "events")).
Proof.
  unfold extractActions.
  assert (H : forall l acc,
    is_Some (obj_get
      (fold_left
         (fun actions kv =>
            let '(key, v) := kv in
            let action := field (Some v) "action" in
            if truthy_opt action || JsString.startsWith "on" key
               || is_events (path (Some v) ["table"; "category"])
            then assign actions key
                   (actionRecord (VStr key)
                      (or_else (field (Some v) "description") (VStr ""))
                      (stringOr action key))
            else actions) l acc) k)
    <-> is_Some (obj_get acc k)
        \/ (k <> "__proto__"
            /\ exists v, In (k, v) l
                  /\ (truthy_opt (field (Some v) "action") = true
                      \/ JsString.startsWith "on" k = true
                      \/ path (Some v) ["table"; "category"] = Some (VStr "events")))).
  { induction l as [|[k' v'] l IH]; intros acc; cbn [fold_left].
    - split; [auto | intros [H | (_ & v & [] & _)]; exact H].
    - rewrite IH. clear IH.
      destruct (truthy_opt (field (Some v') "action") || JsString.startsWith "on" k'
                || is_events (path (Some v') ["table"; "category"])) eqn:E.
      + rewrite assign_is_Some. split.
        * intros [[[<- Hne] | H] | (Hne & v & Hin & Hv)]; [|auto|].
          -- right. split; [exact Hne|]. exists v'. split; [now left|].
             apply orb_true_iff in E as [E|E];
               [apply orb_true_iff in E as [E|E]; auto|].
             right. right. now apply is_events_spec.
          -- right. split; [exact Hne|]. exists v. split; [now right | exact Hv].
        * intros [H | (Hne & v & [[= -> ->] | Hin] & Hv)]; [auto|auto|].
          right. split; [exact Hne|]. exists v. auto.
      + split.
        * intros [H | (Hne & v & Hin & Hv)]; [auto|].
          right. split; [exact Hne|]. exists v. split; [now right | exact Hv].
        * intros [H | (Hne & v & [[= -> ->] | Hin] & Hv)]; [auto| |].
          -- apply orb_false_iff in E as [E E3]. apply orb_false_iff in E as [E1 E2].
             destruct Hv as [Hv | [Hv | Hv]]; [congruence | congruence |].
             apply is_events_spec in Hv. congruence.
          -- right. split; [exact Hne|]. exists v. auto. }
  rewrite H. simpl. split; [intros [[? Hx] | Hx]; [discriminate | exact Hx] | auto].
Qed.

(** X26: whatever the mode, the catalog that a run writes has a count equal
    to the number of its stories and one of the four provenance tags of
    the strategies. *)
Theorem main_saves_consistent_catalog (w : World) (args : list string)
    (c : Catalog.t) :
  main w args = Saved c ->
  Catalog.totalStories c = size (Catalog.stories c)
  /\ In (Catalog.extractedFrom c)
        ["source-files"; "built-storybook"; "running-storybook-deep";
         "storybook-index-basic"].
Proof.
  unfold main, extractByMode.
  destruct (string_eqb (modeOf args) "--dev").
  - destruct (extractFromRunningStorybook w (storybookUrlOf w args))
      as [[m|]|] eqn:E; try discriminate.
    intros [= <-]. split; [reflexivity|]. simpl.
    exact (selector_provenance w _ m E).
  - destruct (string_eqb (modeOf args) "--build"); [|discriminate].
    destruct (extractFromBuiltStorybook w) as [m|] eqn:Eb; [|discriminate].
    assert (Hm : Catalog.extractedFrom m = "built-storybook")
      by now apply (built_catalog w m).
    destruct (existsb (string_eqb "--enhance") args).
    + destruct (enhance w (storybookUrlOf w args) m) as [m'|e] eqn:Ee;
        cbn [mbind result_bind]; [|discriminate].
      apply enhance_keeps in Ee as ->. intros [= <-].
      split; [reflexivity|]. simpl. rewrite Hm. simpl. auto.
    + intros [= <-]. split; [reflexivity|]. simpl. rewrite Hm. simpl. auto.
Qed.

Lemma main_saves_consistent_catalog_witness :
  exists c,
    main (liveServer oneStoryIndex introspecting) ["--dev"] = Saved c
    /\ Catalog.totalStories c = size (Catalog.stories c)
    /\ In (Catalog.extractedFrom c)
          ["source-files"; "built-storybook"; "running-storybook-deep";
           "storybook-index-basic"].
Proof.
  destruct (main (liveServer oneStoryIndex introspecting) ["--dev"])
    as [m| |e|c] eqn:E; try (vm_compute in E; discriminate).
  exists c. split; [reflexivity|].
  apply (main_saves_consistent_catalog (liveServer oneStoryIndex introspecting)
           ["--dev"] c E).
Defined.

(* ===================================================================== *)
(** * Properties of the REST helpers *)
(* ===================================================================== *)

Section ComponentIds.
Import JsString Middleware.

Lemma slugChar_cases (c : ascii) :
  isSlugChar c = true -> isLowerAlnum c = false -> c = "-"%char.
Proof.
  unfold isSlugChar. intros H Hn. rewrite Hn in H. simpl in H.
  now apply Ascii.eqb_eq.
Qed.

Lemma lowerAlnum_not_hyphen (c : ascii) :
  isLowerAlnum c = true -> Ascii.eqb c "-" = false.
Proof.
  intros H. apply Ascii.eqb_neq. now apply lowerAlnum_slugChar.
Qed.

Lemma replaceNonAlnumFrom_chars (b : bool) (s : string) :
  forallb isSlugChar (replaceNonAlnumFrom b s) = true.
Proof.
  revert b. induction s as [|c s IH]; intros b; [reflexivity|]. simpl.
  destruct (isLowerAlnum c) eqn:E.
  - simpl. rewrite IH. destruct (lowerAlnum_slugChar c E) as [-> _]. reflexivity.
  - destruct b; [apply IH|]. simpl. now rewrite IH.
Qed.

Lemma replaceNonAlnumFrom_start (s : string) :
  startsWithHyphen (replaceNonAlnumFrom true s) = false.
Proof.
  induction s as [|c s IH]; [reflexivity|]. simpl.
  destruct (isLowerAlnum c) eqn:E; [|exact IH]. simpl.
  now apply lowerAlnum_not_hyphen.
Qed.

Lemma noDoubleHyphen_cons (c : ascii) (s : string) :
  noDoubleHyphen (String c s)
  = negb (Ascii.eqb c "-" && startsWithHyphen s) && noDoubleHyphen s.
Proof. destruct s; simpl; [now rewrite andb_false_r|reflexivity]. Qed.

Lemma replaceNonAlnumFrom_noDouble (b : bool) (s : string) :
  noDoubleHyphen (replaceNonAlnumFrom b s) = true.
Proof.
  revert b. induction s as [|c s IH]; intros b; [reflexivity|]. simpl.
  destruct (isLowerAlnum c) eqn:E.
  - rewrite noDoubleHyphen_cons, IH, (lowerAlnum_not_hyphen c E). reflexivity.
  - destruct b; [apply IH|].
    rewrite noDoubleHyphen_cons, IH, replaceNonAlnumFrom_start.
    now rewrite andb_false_r.
Qed.

Lemma dropLeadingHyphen_spec (s : string) :
  forallb isSlugChar s = true -> noDoubleHyphen s = true ->
  forallb isSlugChar (dropLeadingHyphen s) = true
  /\ noDoubleHyphen (dropLeadingHyphen s) = true
  /\ startsWithHyphen (dropLeadingHyphen s) = false.
Proof.
  destruct s as [|c s]; [auto|]. intros Hc Hd.
  pose proof Hd as Hd'. rewrite noDoubleHyphen_cons in Hd'.
  apply andb_true_iff in Hd' as [Hd1 Hd2].
  pose proof Hc as Hc'. simpl in Hc'. apply andb_true_iff in Hc' as [Hc1 Hc2].
  unfold dropLeadingHyphen.
  destruct (Ascii.eqb c "-") eqn:E.
  - repeat split; auto. rewrite andb_true_l in Hd1. now apply negb_true_iff in Hd1.
  - repeat split; auto.
Qed.

Lemma dropTrailingHyphen_cons (c d : ascii) (s : string) :
  dropTrailingHyphen (String c (String d s))
  = String c (dropTrailingHyphen (String d s)).
Proof. reflexivity. Qed.

Lemma endsWithHyphen_cons (c : ascii) (t : string) :
  endsWithHyphen (String c t)
  = match t with
    | EmptyString => Ascii.eqb c "-"
    | _ => endsWithHyphen t
    end.
Proof. destruct t; reflexivity. Qed.

Lemma dropTrailingHyphen_empty (s : string) :
  dropTrailingHyphen s = "" -> s = "" \/ startsWithHyphen s = true.
Proof.
  destruct s as [|c [|d s]]; simpl; auto.
  - destruct (Ascii.eqb c "-"); [auto | discriminate].
  - discriminate.
Qed.

Lemma dropTrailingHyphen_start (s : string) :
  startsWithHyphen (dropTrailingHyphen s) = true -> startsWithHyphen s = true.
Proof.
  destruct s as [|c [|d s]]; simpl; auto.
  destruct (Ascii.eqb c "-") eqn:E; simpl; [discriminate | now rewrite E].
Qed.

Lemma dropTrailingHyphen_chars (s : string) :
  forallb isSlugChar s = true -> forallb isSlugChar (dropTrailingHyphen s) = true.
Proof.
  induction s as [|c s IH]; [reflexivity|].
  intros [Hc Hs]%andb_true_iff. destruct s as [|d s].
  - simpl. destruct (Ascii.eqb c "-"); simpl; [reflexivity | now rewrite Hc].
  - rewrite dropTrailingHyphen_cons.
    change (isSlugChar c && forallb isSlugChar (dropTrailingHyphen (String d s))
            = true).
    now rewrite Hc, IH.
Qed.

Lemma dropTrailingHyphen_noDouble (s : string) :
  noDoubleHyphen s = true -> noDoubleHyphen (dropTrailingHyphen s) = true.
Proof.
  induction s as [|c s IH]; [reflexivity|].
  rewrite noDoubleHyphen_cons. intros [H1 H2]%andb_true_iff. destruct s as [|d s].
  - simpl. destruct (Ascii.eqb c "-"); reflexivity.
  - rewrite dropTrailingHyphen_cons, noDoubleHyphen_cons, (IH H2), andb_true_r.
    apply negb_true_iff. apply negb_true_iff in H1.
    apply andb_false_iff in H1 as [H1 | H1]; [now rewrite H1|].
    destruct (startsWithHyphen (dropTrailingHyphen (String d s))) eqn:E;
      [|apply andb_false_r].
    apply dropTrailingHyphen_start in E. congruence.
Qed.

Lemma dropTrailingHyphen_end (s : string) :
  noDoubleHyphen s = true -> endsWithHyphen (dropTrailingHyphen s) = false.
Proof.
  induction s as [|c s IH]; [reflexivity|].
  rewrite noDoubleHyphen_cons. intros [H1 H2]%andb_true_iff. destruct s as [|d s].
  - simpl. destruct (Ascii.eqb c "-") eqn:E; simpl; [reflexivity | exact E].
  - rewrite dropTrailingHyphen_cons, endsWithHyphen_cons.
    destruct (dropTrailingHyphen (String d s)) as [|e t] eqn:Et; [|now apply IH].
    apply dropTrailingHyphen_empty in Et as [Et | Et]; [discriminate|].
    rewrite Et, andb_true_r in H1. now apply negb_true_iff in H1.
Qed.

Lemma dropTrailingHyphen_id (s : string) :
  endsWithHyphen s = false -> dropTrailingHyphen s = s.
Proof.
  induction s as [|c s IH]; [reflexivity|]. destruct s as [|d s].
  - simpl. now intros ->.
  - rewrite endsWithHyphen_cons, dropTrailingHyphen_cons. intros H. now rewrite IH.
Qed.

Lemma replaceNonAlnumFrom_id (b : bool) (s : string) :
  forallb isSlugChar s = true -> noDoubleHyphen s = true ->
  (b = true -> startsWithHyphen s = false) ->
  replaceNonAlnumFrom b s = s.
Proof.
  revert b. induction s as [|c s IH]; intros b; [reflexivity|].
  intros [Hc Hs]%andb_true_iff. rewrite noDoubleHyphen_cons.
  intros [H1 H2]%andb_true_iff Hb. simpl.
  destruct (isLowerAlnum c) eqn:E.
  - rewrite IH; auto. discriminate.
  - pose proof (slugChar_cases c Hc E) as ->. simpl in H1, Hb.
    destruct b; [specialize (Hb eq_refl); discriminate|].
    rewrite IH; auto. intros _. now apply negb_true_iff in H1.
Qed.

Lemma isComponentId_parts (s : string) :
  isComponentId s = true
  <-> forallb isSlugChar s = true /\ noDoubleHyphen s = true
      /\ startsWithHyphen s = false /\ endsWithHyphen s = false.
Proof.
  unfold isComponentId. rewrite !andb_true_iff, !negb_true_iff. tauto.
Qed.

End ComponentIds.

(** X27: a component id returned by getComponentId consists of [a-z0-9-]
    only, has no hyphen at either end and no two hyphens in a row, and is
    a fixed point: the component id of an id is that id. *)
Theorem getComponentId_shape (titleOrKind : option value) (id : string) :
  Middleware.getComponentId titleOrKind = Ok id ->
  Middleware.isComponentId id = true
  /\ Middleware.getComponentId (Some (VStr id)) = Ok id.
Proof.
  unfold Middleware.getComponentId.
  destruct (or_else titleOrKind (VStr "")) as [| | |s| |]; try discriminate.
  intros [= <-].
  set (r := Middleware.replaceNonAlnumFrom false (JsString.toLowerCase s)).
  pose proof (replaceNonAlnumFrom_chars false (JsString.toLowerCase s)) as Hc.
  pose proof (replaceNonAlnumFrom_noDouble false (JsString.toLowerCase s)) as Hd.
  fold r in Hc, Hd.
  destruct (dropLeadingHyphen_spec r Hc Hd) as (Hc1 & Hd1 & Hs1).
  set (l := Middleware.dropLeadingHyphen r) in *.
  assert (Hid : Middleware.isComponentId (Middleware.dropTrailingHyphen l) = true).
  { apply isComponentId_parts. split; [now apply dropTrailingHyphen_chars|].
    split; [now apply dropTrailingHyphen_noDouble|]. split.
    - destruct (Middleware.startsWithHyphen (Middleware.dropTrailingHyphen l)) eqn:E;
        [|reflexivity].
      apply dropTrailingHyphen_start in E. congruence.
    - now apply dropTrailingHyphen_end. }
  split; [exact Hid|].
  apply isComponentId_parts in Hid as (H1 & H2 & H3 & H4).
  set (id := Middleware.dropTrailingHyphen l) in *.
  destruct id as [|c id'] eqn:Eid; [reflexivity|].
  assert (Ht : JsString.nonEmpty (String c id') = true) by reflexivity.
  unfold or_else, truthy. rewrite Ht.
  rewrite (toLowerCase_slug _ H1).
  rewrite (replaceNonAlnumFrom_id false _ H1 H2) by discriminate.
  assert (Hl : Middleware.dropLeadingHyphen (String c id') = String c id').
  { simpl in H3 |- *. now rewrite H3. }
  rewrite Hl. now rewrite (dropTrailingHyphen_id _ H4).
Qed.

Lemma getComponentId_shape_witness :
  Middleware.isComponentId "components-button-group" = true
  /\ Middleware.getComponentId (Some (VStr "components-button-group"))
     = Ok "components-button-group".
Proof.
  apply (getComponentId_shape (Some (VStr "Components/Button  Group!"))).
  reflexivity.
Defined.

Section CorsFacts.
Import Middleware.

Lemma firstOrWildcard (origins : list string) :
  match origins with
  | first :: _ => if JsString.nonEmpty first then first else "*"
  | [] => "*"
  end = "*"
  \/ In (match origins with
         | first :: _ => if JsString.nonEmpty first then first else "*"
         | [] => "*"
         end) origins.
Proof.
  destruct origins as [|first rest]; [now left|].
  destruct (JsString.nonEmpty first); [right; now left | now left].
Qed.

End CorsFacts.

(** X28: the CORS origin answered is the wildcard or one of the configured
    origins (the comma-separated parts of the setting, trimmed): an origin
    sent by a request is echoed only if it is configured. *)
Theorem getCorsOrigin_configured (corsOrigin : string) (requestOrigin : option string) :
  Middleware.getCorsOrigin corsOrigin requestOrigin = "*"
  \/ In (Middleware.getCorsOrigin corsOrigin requestOrigin)
        (map Middleware.trim (Middleware.split "," corsOrigin)).
Proof.
  unfold Middleware.getCorsOrigin.
  destruct (string_eqb corsOrigin "*"); [now left|].
  destruct requestOrigin as [o|]; [|apply firstOrWildcard].
  destruct (JsString.nonEmpty o
            && existsb (string_eqb o)
                 (map Middleware.trim (Middleware.split "," corsOrigin))) eqn:E;
    [|apply firstOrWildcard].
  right. apply andb_true_iff in E as [_ E].
  apply existsb_exists in E as (x & Hin & Hx).
  apply string_eqb_eq in Hx as ->. exact Hin.
Qed.
